(** * Patient case summary: the record parser and the guideline workflow

    A shallow embedding of [patient-case-summary/app.py]:
    - [parse_synthea_patient], which reads a Synthea FHIR bundle into a
      [PatientInfo];
    - the six steps of [GuidelineRecommendationWorkflow], the [Context]
      they share and the event routing that drives them;
    - [CaseSummary.render] and [display_workflow], which put the result of
      a run on the page.

    Python values that come out of [json.load] are modelled by [json];
    exceptions by [PyError]; a computation that may raise by [Result]; a
    step of the workflow by [Step], a state-and-error monad over the file
    system, the capability call counters and the [Context].

    What the program calls but does not define is a parameter: the date
    parser, JSON and pydantic (de)serialisation, the structured-prediction
    and retrieval capabilities ([Externals]). The workflow library itself
    ([Context], [collect_events], step registration and the scheduler) is
    not part of the program either; it is modelled from the design
    specification, and each such definition says so.

    Definitions come first, then two modules of concrete inputs ([Demo]
    and [Examples]), then the properties. *)

From stdpp Require Import base option list gmap strings sorting pretty.
From Stdlib Require Import ZArith Lia Ascii.


(** ** Exceptions and fallible computations *)

Inductive PyError :=
  | ValueError (msg : string)
  | AttributeError
  | IndexError
  | KeyError
  | TypeError
  | ParserError        (* dateutil.parser.ParserError, a ValueError *)
  | ValidationError    (* pydantic.ValidationError, a ValueError *)
  | JSONDecodeError    (* json.JSONDecodeError, a ValueError *)
  | FileNotFoundError
  | CapabilityError (msg : string)
  | UsageError (key : string)   (* a key read from the Context before it is set *)
  | ConfigurationError.         (* a step table the router refuses *)

(** [isinstance(e, ValueError)] *)
Definition is_ValueError (e : PyError) : bool :=
  match e with
  | ValueError _ | ParserError | ValidationError | JSONDecodeError => true
  | _ => false
  end.

Inductive Result (A : Type) :=
  | Ok (a : A)
  | Raise (e : PyError).
Arguments Ok {A} a.
Arguments Raise {A} e.

#[global] Instance Result_ret : MRet Result := @Ok.
#[global] Instance Result_bind : MBind Result := λ A B f m,
  match m with Ok a => f a | Raise e => Raise e end.
#[global] Instance Result_fmap : FMap Result := λ A B f m,
  match m with Ok a => Ok (f a) | Raise e => Raise e end.

(** A [for] loop whose body may raise, threading the loop state. *)
Fixpoint foldlM {A B} (f : B → A → Result B) (l : list A) (b : B) : Result B :=
  match l with
  | [] => Ok b
  | x :: r => b' ← f b x; foldlM f r b'
  end.

(** ** Python values as loaded by [json.load] *)

#[warnings="-register-all"]
Inductive json :=
  | JNull
  | JBool (b : bool)
  | JNum (n : Z)     (* a number; this program only ever tests it for zero *)
  | JStr (s : string)
  | JArr (xs : list json)
  | JObj (kvs : list (string * json)).

(** A dict is an association list read from the left: the first binding of a
    key is the dict's value for it. *)
Fixpoint dict_lookup (k : string) (kvs : list (string * json)) : option json :=
  match kvs with
  | [] => None
  | (k', v) :: r => if String.eqb k k' then Some v else dict_lookup k r
  end.

(** [x.get(k, default)]: only a dict has [get]. *)
Definition py_get (x : json) (k : string) (default : json) : Result json :=
  match x with
  | JObj kvs => Ok (from_option id default (dict_lookup k kvs))
  | _ => Raise AttributeError
  end.

(** The first code point of a UTF-8 string: its lead byte and the
    continuation bytes (10xxxxxx) that follow. *)
Definition is_continuation (c : ascii) : bool :=
  let n := nat_of_ascii c in (128 <=? n)%nat && (n <? 192)%nat.

Fixpoint take_continuation (s : string) : string :=
  match s with
  | String c r => if is_continuation c then String c (take_continuation r) else ""
  | EmptyString => ""
  end.

Fixpoint str_chars (s : string) : list string :=
  match s with
  | EmptyString => []
  | String c r =>
      if match r with String d _ => is_continuation d | EmptyString => false end
      then match str_chars r with
           | h :: t => String c h :: t
           | [] => [String c ""]
           end
      else String c "" :: str_chars r
  end.

(** [x[0]] *)
Definition py_index0 (x : json) : Result json :=
  match x with
  | JArr (h :: _) => Ok h
  | JArr [] => Raise IndexError
  | JStr (String c r) => Ok (JStr (String c (take_continuation r)))
  | JStr EmptyString => Raise IndexError
  | JObj _ => Raise KeyError          (* keys are strings, never 0 *)
  | JNull | JBool _ | JNum _ => Raise TypeError
  end.

(** [for entry in x]: the values iterated over. *)
Definition py_iter (x : json) : Result (list json) :=
  match x with
  | JArr xs => Ok xs
  | JStr s => Ok (JStr <$> str_chars s)
  | JObj kvs => Ok (JStr <$> remove_dups kvs.*1)
  | JNull | JBool _ | JNum _ => Raise TypeError
  end.

(** Truth value of [x] in [if x] and [not x]. *)
Definition py_truthy (x : json) : bool :=
  match x with
  | JNull => false
  | JBool b => b
  | JNum n => negb (n =? 0)%Z
  | JStr s => negb (String.eqb s "")
  | JArr xs => match xs with [] => false | _ => true end
  | JObj kvs => match kvs with [] => false | _ => true end
  end.

(** [x == "literal"] *)
Definition py_eq_str (x : json) (s : string) : bool :=
  match x with
  | JStr t => String.eqb t s
  | _ => false
  end.

(** Pydantic validation of a [str] and of an [Optional[str]] field. *)
Definition as_str (x : json) : Result string :=
  match x with
  | JStr s => Ok s
  | _ => Raise ValidationError
  end.

Definition as_opt_str (x : json) : Result (option string) :=
  match x with
  | JNull => Ok None
  | JStr s => Ok (Some s)
  | _ => Raise ValidationError
  end.

(** ** The data model *)

Record ConditionInfo := {
  code : string;
  display : string;
  clinical_status : string
}.

Record EncounterInfo := {
  date : string;
  reason_display : option string;
  type_display : option string
}.

Record MedicationInfo := {
  name : string;
  start_date : option string;
  instructions : option string
}.

Record PatientInfo := {
  given_name : string;
  family_name : string;
  birth_date : string;
  gender : string;
  conditions : list ConditionInfo;
  recent_encounters : list EncounterInfo;
  current_medications : list MedicationInfo
}.

Definition new_ConditionInfo (code display clinical_status : json)
  : Result ConditionInfo :=
  c ← as_str code;
  d ← as_str display;
  s ← as_str clinical_status;
  Ok {| code := c; display := d; clinical_status := s |}.

Definition new_EncounterInfo (date reason_display type_display : json)
  : Result EncounterInfo :=
  d ← as_str date;
  r ← as_opt_str reason_display;
  t ← as_opt_str type_display;
  Ok {| date := d; reason_display := r; type_display := t |}.

Definition new_MedicationInfo (name start_date instructions : json)
  : Result MedicationInfo :=
  n ← as_str name;
  s ← as_opt_str start_date;
  i ← as_opt_str instructions;
  Ok {| name := n; start_date := s; instructions := i |}.

Definition new_PatientInfo (given_name family_name birth_date gender : json)
    (conditions : list ConditionInfo) (recent_encounters : list EncounterInfo)
    (current_medications : list MedicationInfo) : Result PatientInfo :=
  g ← as_str given_name;
  f ← as_str family_name;
  b ← as_str birth_date;
  s ← as_str gender;
  Ok {| given_name := g; family_name := f; birth_date := b; gender := s;
        conditions := conditions; recent_encounters := recent_encounters;
        current_medications := current_medications |}.

(** [PatientInfo.demographic_str] *)
Definition newline : string := String (ascii_of_nat 10) "".

Definition demographic_str (p : PatientInfo) : string :=
  "            Given name: " +:+ given_name p +:+ newline +:+
  "            Family name: " +:+ family_name p +:+ newline +:+
  "            Birth date: " +:+ birth_date p +:+ newline +:+
  "            Gender: " +:+ gender p.

(** ** [parse_synthea_patient] *)

(** A [datetime]: naive or timezone-aware, as an instant on one time line.
    Python refuses to order a naive against an aware one. *)
Inductive datetime :=
  | Naive (t : Z)
  | Aware (t : Z).

Definition instant (d : datetime) : Z :=
  match d with Naive t | Aware t => t end.

Definition is_aware (d : datetime) : bool :=
  match d with Aware _ => true | Naive _ => false end.

(** Whether [sorted] can order these keys: a sort of at least two keys
    compares every key with some other one, through a chain that links them
    all, so it raises as soon as both kinds are present. *)
Definition comparable (keys : list datetime) : bool :=
  forallb is_aware keys || forallb (λ d, negb (is_aware d)) keys.

(** The resources collected by the loop over [bundle["entry"]]. *)
Record Scan := {
  patient_resource : option json;
  condition_resources : list json;
  encounter_resources : list json;
  medication_requests : list json
}.

Definition empty_scan : Scan :=
  {| patient_resource := None; condition_resources := [];
     encounter_resources := []; medication_requests := [] |}.

Definition no_patient_msg : string :=
  "No Patient resource found in the provided file.".

Definition excluded_conditions : list string :=
  ["Medication review due (situation)"; "Risk activity involvement (finding)"].

(** [x not in excluded_conditions], a set of strings: hashing a list or a
    dict raises. *)
Definition not_in_excluded (x : json) : Result bool :=
  match x with
  | JArr _ | JObj _ => Raise TypeError
  | JStr s => Ok (negb (bool_decide (s ∈ excluded_conditions)))
  | JNull | JBool _ | JNum _ => Ok true
  end.

(** [encounters_sorted[-3:] if len(encounters_sorted) > 3 else encounters_sorted] *)
Definition last3 {A} (l : list A) : list A :=
  if (3 <? length l)%nat then drop (length l - 3) l else l.

(** Stable insertion: [x], which stood before all of [l], goes before the
    first element whose key is not smaller. *)
Fixpoint insert_by_date {A} (x : datetime * A) (l : list (datetime * A))
  : list (datetime * A) :=
  match l with
  | [] => [x]
  | y :: r =>
      if (instant y.1 <? instant x.1)%Z then y :: insert_by_date x r
      else x :: l
  end.

Fixpoint stable_sort {A} (l : list (datetime * A)) : list (datetime * A) :=
  match l with
  | [] => []
  | x :: r => insert_by_date x (stable_sort r)
  end.

Section Synthea.
(** [dateutil.parser.parse] on a string: [None] when it raises. *)
Variable parse : string → option datetime.
(** [json.load] on the text of a file: [None] when it raises. *)
Variable json_loads : string → option json.

Definition scan_entry (st : Scan) (entry : json) : Result Scan :=
  resource ← py_get entry "resource" (JObj []);
  resource_type ← py_get resource "resourceType" JNull;
  Ok (if py_eq_str resource_type "Patient" then
        {| patient_resource := Some resource;
           condition_resources := condition_resources st;
           encounter_resources := encounter_resources st;
           medication_requests := medication_requests st |}
      else if py_eq_str resource_type "Condition" then
        {| patient_resource := patient_resource st;
           condition_resources := condition_resources st ++ [resource];
           encounter_resources := encounter_resources st;
           medication_requests := medication_requests st |}
      else if py_eq_str resource_type "Encounter" then
        {| patient_resource := patient_resource st;
           condition_resources := condition_resources st;
           encounter_resources := encounter_resources st ++ [resource];
           medication_requests := medication_requests st |}
      else if py_eq_str resource_type "MedicationRequest" then
        {| patient_resource := patient_resource st;
           condition_resources := condition_resources st;
           encounter_resources := encounter_resources st;
           medication_requests := medication_requests st ++ [resource] |}
      else st).

(** [x.get(k, [{}])[0]] *)
Definition get_first (x : json) (k : string) : Result json :=
  l ← py_get x k (JArr [JObj []]);
  py_index0 l.

(** The four demographic fields, as read from the Patient resource. *)
Definition demographics (patient_resource : json)
  : Result (json * json * json * json) :=
  name_entry ← get_first patient_resource "name";
  given ← py_get name_entry "given" (JArr [JStr ""]);
  given_name ← py_index0 given;
  family_name ← py_get name_entry "family" (JStr "");
  birth_date ← py_get patient_resource "birthDate" (JStr "");
  gender ← py_get patient_resource "gender" (JStr "");
  Ok (given_name, family_name, birth_date, gender).

(** The display and clinical status the condition loop reads from [c]. *)
Definition condition_fields (c : json) : Result (json * json * json) :=
  code ← py_get c "code" (JObj []);
  code_info ← get_first code "coding";
  condition_code ← py_get code_info "code" (JStr "Unknown");
  condition_display ← py_get code_info "display" (JStr "Unknown");
  status ← py_get c "clinicalStatus" (JObj []);
  status_coding ← get_first status "coding";
  clinical_status ← py_get status_coding "code" (JStr "unknown");
  Ok (condition_code, condition_display, clinical_status).

(** The body of [for c in conditions]: the [ConditionInfo] appended for
    [c], if any. *)
Definition condition_info (filter_active : bool) (c : json)
  : Result (option ConditionInfo) :=
  '(condition_code, condition_display, clinical_status) ← condition_fields c;
  keep ← not_in_excluded condition_display;
  if (keep : bool) then
    if filter_active then
      if py_eq_str clinical_status "active" then
        ci ← new_ConditionInfo condition_code condition_display clinical_status;
        Ok (Some ci)
      else Ok None
    else
      ci ← new_ConditionInfo condition_code condition_display clinical_status;
      Ok (Some ci)
  else Ok None.

(** [datetime] is the module here, which has no [min]: an encounter without
    a start raises. *)
Definition get_encounter_date (enc : json) : Result datetime :=
  period ← py_get enc "period" (JObj []);
  start ← py_get period "start" JNull;
  if py_truthy start then
    match start with
    | JStr s => match parse s with
                | Some d => Ok d
                | None => Raise ParserError
                end
    | _ => Raise TypeError
    end
  else Raise AttributeError.

(** [sorted(encounters, key=get_encounter_date)]: the keys are computed
    first, in order; then the list is sorted, stably. *)
Definition sorted_encounters (encounters : list json) : Result (list json) :=
  keys ← mapM get_encounter_date encounters;
  if comparable keys then Ok (stable_sort (zip keys encounters)).*2
  else Raise TypeError.

(** The body of [for e in recent_encounters]. *)
Definition encounter_info (e : json) : Result (option EncounterInfo) :=
  period ← py_get e "period" (JObj []);
  start_date ← py_get period "start" (JStr "");
  reason_code ← get_first e "reasonCode";
  reason_coding ← get_first reason_code "coding";
  reason ← py_get reason_coding "display" JNull;
  type ← get_first e "type";
  type_coding ← get_first type "coding";
  etype ← py_get type_coding "display" JNull;
  ei ← new_EncounterInfo start_date reason etype;
  Ok (Some ei).

(** The body of [for m in medication_requests]. *)
Definition medication_info (m : json) : Result (option MedicationInfo) :=
  status ← py_get m "status" JNull;
  if py_eq_str status "active" then
    concept ← py_get m "medicationCodeableConcept" (JObj []);
    med_code ← get_first concept "coding";
    med_name ← py_get med_code "display" (JStr "Unknown Medication");
    authored ← py_get m "authoredOn" JNull;
    dosage ← get_first m "dosageInstruction";
    dosage_instruction ← py_get dosage "text" JNull;
    mi ← new_MedicationInfo med_name authored dosage_instruction;
    Ok (Some mi)
  else Ok None.

(** A loop that appends what its body builds for each element. *)
Definition collect {A B} (body : A → Result (option B)) (l : list A)
  : Result (list B) :=
  foldlM (λ acc x, o ← body x; Ok (acc ++ option_list o)) l [].

(** The resources of the bundle's entries, as the first loop reads them. *)
Definition scan_bundle (bundle : json) : Result Scan :=
  entry ← py_get bundle "entry" (JArr []);
  entries ← py_iter entry;
  foldlM scan_entry entries empty_scan.

(** The body of [parse_synthea_patient] once the bundle is loaded. *)
Definition parse_bundle (bundle : json) (filter_active : bool)
  : Result PatientInfo :=
  st ← scan_bundle bundle;
  match patient_resource st with
  | None => Raise (ValueError no_patient_msg)
  | Some patient_resource =>
      if negb (py_truthy patient_resource) then Raise (ValueError no_patient_msg)
      else
        '(given_name, family_name, birth_date, gender) ← demographics patient_resource;
        condition_info_list ←
          collect (condition_info filter_active) (condition_resources st);
        encounters_sorted ← sorted_encounters (encounter_resources st);
        encounter_info_list ← collect encounter_info (last3 encounters_sorted);
        medication_info_list ← collect medication_info (medication_requests st);
        new_PatientInfo given_name family_name birth_date gender
          condition_info_list encounter_info_list medication_info_list
  end.

(** [open(file_path)] then [json.load]. *)
Definition load_json (files : gmap string string) (file_path : string)
  : Result json :=
  match files !! file_path with
  | None => Raise FileNotFoundError
  | Some text => match json_loads text with
                 | Some j => Ok j
                 | None => Raise JSONDecodeError
                 end
  end.

Definition parse_synthea_patient (files : gmap string string)
    (file_path : string) (filter_active : bool) : Result PatientInfo :=
  bundle ← load_json files file_path;
  parse_bundle bundle filter_active.

End Synthea.

(** What the entry loop reads off one entry: its resource, provided the
    resource type can be read too. *)
Definition entry_resource (entry : json) : Result json :=
  resource ← py_get entry "resource" (JObj []);
  _ ← py_get resource "resourceType" JNull;
  Ok resource.

(** The resources of a bundle, entry by entry. *)
Definition bundle_resources (bundle : json) : Result (list json) :=
  entry ← py_get bundle "entry" (JArr []);
  entries ← py_iter entry;
  mapM entry_resource entries.

(** [resource.get("resourceType") == kind] *)
Definition has_type (kind : string) (resource : json) : bool :=
  match py_get resource "resourceType" JNull with
  | Ok t => py_eq_str t kind
  | Raise _ => false
  end.

(** Two encounters in date order: both have a start the parser reads, and
    the first is not later than the second. *)
Definition date_le (parse : string → option datetime) (e1 e2 : json) : Prop :=
  ∃ d1 d2, get_encounter_date parse e1 = Ok d1
         ∧ get_encounter_date parse e2 = Ok d2
         ∧ (instant d1 ≤ instant d2)%Z.

(** The loop state after the entries: the last Patient resource seen, and
    the resources of each other kind in bundle order. *)
Definition scanned (st0 : Scan) (rs : list json) (st : Scan) : Prop :=
  patient_resource st
    = from_option Some (patient_resource st0) (last (filter (λ r, has_type "Patient" r) rs))
  ∧ condition_resources st
    = condition_resources st0 ++ filter (λ r, has_type "Condition" r) rs
  ∧ encounter_resources st
    = encounter_resources st0 ++ filter (λ r, has_type "Encounter" r) rs
  ∧ medication_requests st
    = medication_requests st0 ++ filter (λ r, has_type "MedicationRequest" r) rs.

(** A computation that never raises a plain [ValueError]. *)
Definition benign {A} (m : Result A) : Prop :=
  ∀ msg, m ≠ Raise (ValueError msg).

(** Order of the sort keys. *)
Definition key_le {A} (x y : datetime * A) : Prop :=
  (instant x.1 ≤ instant y.1)%Z.

(** ** Workflow data *)

Record ConditionBundle := {
  condition : ConditionInfo;
  encounters : list EncounterInfo;
  medications : list MedicationInfo
}.

Record ConditionBundles := { bundles : list ConditionBundle }.

Record GuidelineQueries := { queries : list string }.

Record GuidelineRecommendation := {
  guideline_source : string;
  recommendation_summary : string;
  reference_section : option string
}.

Record ConditionSummary := {
  condition_display : string;
  summary : string
}.

Record CaseSummary := {
  patient_name : string;
  age : Z;
  overall_assessment : string;
  condition_summaries : list ConditionSummary
}.

(** A retrieved document: [d.id_] and [d.get_content()]. *)
Record NodeWithScore := {
  id_ : string;
  content : string
}.

(** What [astructured_predict] hands back: normally an instance of the
    requested class, otherwise some other object (its text). *)
Inductive Returned (A : Type) :=
  | InstanceOf (a : A)
  | Other (raw : string).
Arguments InstanceOf {A} a.
Arguments Other {A} raw.

Inductive Event :=
  | StartEvent (patient_json_path : string)
  | PatientInfoEvent (patient_info : PatientInfo)
  | ConditionBundleEvent (bundles : ConditionBundles)
  | MatchGuidelineEvent (bundle : ConditionBundle)
  | MatchGuidelineResultEvent (bundle : ConditionBundle) (rec : GuidelineRecommendation)
  | GenerateCaseSummaryEvent
      (condition_guideline_info : list (ConditionBundle * GuidelineRecommendation))
  | StopEvent (case_summary : Returned CaseSummary)
  | LogEvent (msg : string) (delta : bool).

Inductive EventType :=
  | TStartEvent
  | TPatientInfoEvent
  | TConditionBundleEvent
  | TMatchGuidelineEvent
  | TMatchGuidelineResultEvent
  | TGenerateCaseSummaryEvent
  | TStopEvent
  | TLogEvent.

(** [type(ev)] *)
Definition type_of (ev : Event) : EventType :=
  match ev with
  | StartEvent _ => TStartEvent
  | PatientInfoEvent _ => TPatientInfoEvent
  | ConditionBundleEvent _ => TConditionBundleEvent
  | MatchGuidelineEvent _ => TMatchGuidelineEvent
  | MatchGuidelineResultEvent _ _ => TMatchGuidelineResultEvent
  | GenerateCaseSummaryEvent _ => TGenerateCaseSummaryEvent
  | StopEvent _ => TStopEvent
  | LogEvent _ _ => TLogEvent
  end.

#[global] Instance EventType_eq_dec : EqDecision EventType.
Proof. solve_decision. Defined.

Definition EventType_code (t : EventType) : nat :=
  match t with
  | TStartEvent => 0 | TPatientInfoEvent => 1 | TConditionBundleEvent => 2
  | TMatchGuidelineEvent => 3 | TMatchGuidelineResultEvent => 4
  | TGenerateCaseSummaryEvent => 5 | TStopEvent => 6 | TLogEvent => 7
  end.

Definition EventType_decode (n : nat) : EventType :=
  match n with
  | 0 => TStartEvent | 1 => TPatientInfoEvent | 2 => TConditionBundleEvent
  | 3 => TMatchGuidelineEvent | 4 => TMatchGuidelineResultEvent
  | 5 => TGenerateCaseSummaryEvent | 6 => TStopEvent | _ => TLogEvent
  end.

#[global] Instance EventType_countable : Countable EventType.
Proof.
  apply (inj_countable' EventType_code EventType_decode).
  intros []; reflexivity.
Defined.

(** ** What the program calls but does not define *)

Record Externals := {
  (** [dateutil.parser.parse] *)
  dateutil_parse : string → option datetime;
  (** [json.load] on a file's text *)
  json_load : string → option json;
  (** [Model.model_validate], [model_dump_json] and
      [json.dumps(model_dump(), indent=2)] *)
  validate_patient_info : json → option PatientInfo;
  validate_condition_bundles : json → option ConditionBundles;
  dump_patient_info : PatientInfo → string;
  dump_condition_bundles : ConditionBundles → string;
  dump_condition_bundle : ConditionBundle → string;
  dump_recommendation : GuidelineRecommendation → string;
  pretty_patient_info : PatientInfo → string;
  pretty_recommendation : GuidelineRecommendation → string;
  (** [str.capitalize] *)
  capitalize : string → string;
  (** [llm.astructured_predict], one entry per output class and prompt, on
      the named inputs the call passes *)
  predict_condition_bundles : string → Result (Returned ConditionBundles);
  predict_queries : string → string → Result (Returned GuidelineQueries);
  predict_recommendation :
    string → string → string → Result (Returned GuidelineRecommendation);
  predict_case_summary : string → string → Result (Returned CaseSummary);
  (** [guideline_retriever.retrieve] *)
  retrieve : string → Result (list NodeWithScore)
}.

(** ** The state a run works on *)

(** The file system and the capability call counters. *)
Record World := {
  files : gmap string string;
  llm_calls : nat;
  retriever_calls : nat
}.

Inductive Value :=
  | VPatientInfo (p : PatientInfo)
  | VInt (n : Z).

(** The workflow [Context]: the key/value store, the buffer that
    [collect_events] fills, and the events written to the stream (oldest
    first). *)
Record Context := {
  globals : gmap string Value;
  events_buffer : gmap EventType (list Event);
  stream : list Event
}.

Definition new_context : Context :=
  {| globals := ∅; events_buffer := ∅; stream := [] |}.

(** The state one step works on; [outbox] holds what it passed to
    [ctx.send_event]. *)
Record St := {
  world : World;
  context : Context;
  outbox : list Event
}.

(** A step computation: it may raise, and the state it reached is kept
    either way. *)
Record Step (A : Type) := mkStep { run_step : St → St * Result A }.
Arguments mkStep {A} run_step.
Arguments run_step {A} s st.

#[global] Instance Step_ret : MRet Step := λ A a, mkStep (λ st, (st, Ok a)).
#[global] Instance Step_bind : MBind Step := λ A B f m,
  mkStep (λ st,
    match run_step m st with
    | (st', Ok a) => run_step (f a) st'
    | (st', Raise e) => (st', Raise e)
    end).

Definition raise {A} (e : PyError) : Step A := mkStep (λ st, (st, Raise e)).

Definition lift {A} (r : Result A) : Step A := mkStep (λ st, (st, r)).

Definition when (b : bool) (m : Step unit) : Step unit :=
  if b then m else mret ().

(** A [for] loop in a step. *)
Fixpoint for_each {A B} (body : B → A → Step B) (l : list A) (b : B) : Step B :=
  match l with
  | [] => mret b
  | x :: r => b' ← body b x; for_each body r b'
  end.

Definition with_world (f : World → World) (st : St) : St :=
  {| world := f (world st); context := context st; outbox := outbox st |}.

Definition with_context (f : Context → Context) (st : St) : St :=
  {| world := world st; context := f (context st); outbox := outbox st |}.

(** *** Files *)

Definition path_exists (path : string) : Step bool :=
  mkStep (λ st, (st, Ok (bool_decide (is_Some (files (world st) !! path))))).

Definition read_text (path : string) : Step string :=
  mkStep (λ st,
    match files (world st) !! path with
    | Some text => (st, Ok text)
    | None => (st, Raise FileNotFoundError)
    end).

Definition write_text (path text : string) : Step unit :=
  mkStep (λ st,
    (with_world (λ w, {| files := <[path := text]> (files w);
                         llm_calls := llm_calls w;
                         retriever_calls := retriever_calls w |}) st,
     Ok ())).

(** A computation that only reads the file system. *)
Definition read_files {A} (f : gmap string string → Result A) : Step A :=
  mkStep (λ st, (st, f (files (world st)))).

(** *** Capabilities: each call is counted, then answers or raises. *)

Definition astructured_predict {A} (answer : Result (Returned A))
  : Step (Returned A) :=
  mkStep (λ st,
    (with_world (λ w, {| files := files w;
                         llm_calls := S (llm_calls w);
                         retriever_calls := retriever_calls w |}) st,
     answer)).

Definition retriever_retrieve (answer : Result (list NodeWithScore))
  : Step (list NodeWithScore) :=
  mkStep (λ st,
    (with_world (λ w, {| files := files w;
                         llm_calls := llm_calls w;
                         retriever_calls := S (retriever_calls w) |}) st,
     answer)).

(** *** Context *)

Definition Context_set (ctx : Context) (key : string) (v : Value) : Context :=
  {| globals := <[key := v]> (globals ctx);
     events_buffer := events_buffer ctx;
     stream := stream ctx |}.

(** Modelled from the spec: [Context.get] of the workflow library, which is
    not under src/. "get on a missing key is a usage error ..., not a silent
    default" (section 4.4); the source always calls it without a default. *)
Definition Context_get (ctx : Context) (key : string) : Result Value :=
  match globals ctx !! key with
  | Some v => Ok v
  | None => Raise (UsageError key)
  end.

Definition buffered (buffer : gmap EventType (list Event)) (t : EventType)
  : list Event :=
  default [] (buffer !! t).

(** Modelled from the spec: the first half of the Barrier Collector's
    [submit], below. One event is taken from the buffer for every expected
    entry that has one waiting. *)
Fixpoint take_expected (expected : list EventType)
    (buffer : gmap EventType (list Event)) (retval : list Event)
  : gmap EventType (list Event) * list Event :=
  match expected with
  | [] => (buffer, retval)
  | t :: rest =>
      match buffered buffer t with
      | e :: waiting => take_expected rest (<[t := waiting]> buffer) (retval ++ [e])
      | [] => take_expected rest buffer retval
      end
  end.

(** Modelled from the spec: the second half of [submit], when the
    collection is not complete: what was taken goes back to the buffer. *)
Definition put_back (buffer : gmap EventType (list Event)) (retval : list Event)
  : gmap EventType (list Event) :=
  foldl (λ b e, <[type_of e := buffered b (type_of e) ++ [e]]> b) buffer retval.

(** Modelled from the spec: the Barrier Collector's [submit] (section 4.3),
    which the source calls as [ctx.collect_events(ev, expected)]; the
    workflow library is not under src/. The submitted event is buffered
    under its type; the collection is returned, and leaves the buffer, when
    the buffer holds an event for every expected entry; until then
    everything stays buffered and the caller gets [None]. *)
Definition collect_events (ctx : Context) (ev : Event) (expected : list EventType)
  : Context * option (list Event) :=
  let buffer :=
    <[type_of ev := buffered (events_buffer ctx) (type_of ev) ++ [ev]]>
      (events_buffer ctx) in
  let '(buffer', retval) := take_expected expected buffer [] in
  if (length retval =? length expected)%nat then
    ({| globals := globals ctx; events_buffer := buffer'; stream := stream ctx |},
     Some retval)
  else
    ({| globals := globals ctx; events_buffer := put_back buffer' retval;
        stream := stream ctx |},
     None).

Definition ctx_set (key : string) (v : Value) : Step unit :=
  mkStep (λ st, (with_context (λ ctx, Context_set ctx key v) st, Ok ())).

Definition ctx_get (key : string) : Step Value :=
  mkStep (λ st, (st, Context_get (context st) key)).

Definition ctx_collect_events (ev : Event) (expected : list EventType)
  : Step (option (list Event)) :=
  mkStep (λ st,
    let '(ctx', events) := collect_events (context st) ev expected in
    (with_context (λ _, ctx') st, Ok events)).

Definition write_event_to_stream (ev : Event) : Step unit :=
  mkStep (λ st,
    (with_context (λ ctx, {| globals := globals ctx;
                             events_buffer := events_buffer ctx;
                             stream := stream ctx ++ [ev] |}) st,
     Ok ())).

Definition send_event (ev : Event) : Step unit :=
  mkStep (λ st,
    ({| world := world st; context := context st; outbox := outbox st ++ [ev] |},
     Ok ())).

Definition log (msg : string) : Step unit :=
  write_event_to_stream (LogEvent msg false).

(** Reading an attribute of a stored value of the wrong class. *)
Definition as_patient_info (v : Value) : Step PatientInfo :=
  match v with
  | VPatientInfo p => mret p
  | VInt _ => raise AttributeError
  end.

(** [[cls] * n] *)
Definition as_count (v : Value) : Step nat :=
  match v with
  | VInt n => mret (Z.to_nat n)
  | VPatientInfo _ => raise TypeError
  end.

(** *** Python dicts that keep insertion order, and string helpers *)

Fixpoint dict_set {V} (k : string) (v : V) (d : list (string * V))
  : list (string * V) :=
  match d with
  | [] => [(k, v)]
  | (k', v') :: r =>
      if String.eqb k k' then (k, v) :: r else (k', v') :: dict_set k v r
  end.

(** [d.update(other)] *)
Definition dict_update {V} (d other : list (string * V)) : list (string * V) :=
  foldl (λ d kv, dict_set kv.1 kv.2 d) d other.

(** [{d.id_: d for d in docs}] *)
Definition docs_by_id (docs : list NodeWithScore) : list (string * NodeWithScore) :=
  foldl (λ d doc, dict_set (id_ doc) doc d) [] docs.

(** [sep.join(l)] *)
Fixpoint join (sep : string) (l : list string) : string :=
  match l with
  | [] => ""
  | x :: r => match r with
              | [] => x
              | _ :: _ => x +:+ sep +:+ join sep r
              end
  end.

Definition generate_condition_guideline_str (ext : Externals)
    (bundle : ConditionBundle) (rec : GuidelineRecommendation) : string :=
  "**Condition Info**:" +:+ newline +:+ dump_condition_bundle ext bundle
  +:+ newline +:+ newline +:+
  "**Recommendation**:" +:+ newline +:+ dump_recommendation ext rec +:+ newline.

(** The module-level [create_condition_bundles]: one structured prediction
    over the dumped patient record. *)
Definition create_condition_bundles (ext : Externals) (patient_data : PatientInfo)
  : Step (Returned ConditionBundles) :=
  astructured_predict (predict_condition_bundles ext (dump_patient_info ext patient_data)).

(** ** [GuidelineRecommendationWorkflow] *)

(** The fields of the workflow object that the steps read. [__init__]
    also creates the output directory; directories are not part of the
    file model, which maps paths to contents. *)
Record Workflow := {
  output_dir : string;   (* [Path(output_dir) / "workflow_output"] *)
  verbose : bool
}.

(** The module's [workflow]: default output directory, [verbose=True]. *)
Definition workflow : Workflow :=
  {| output_dir := "data_out/workflow_output"; verbose := true |}.

Section Steps.
Variable ext : Externals.
Variable self : Workflow.

Definition patient_info_path : string := output_dir self +:+ "/patient_info.json".
Definition condition_info_path : string := output_dir self +:+ "/condition_bundles.json".
Definition recs_path : string := output_dir self +:+ "/guideline_recommendations.jsonl".

(** [json.load(open(path))] inside a step. *)
Definition load_file (path : string) : Step json :=
  text ← read_text path;
  match json_load ext text with
  | Some j => mret j
  | None => raise JSONDecodeError
  end.

Definition parse_patient_info (patient_json_path : string) : Step (option Event) :=
  cached ← path_exists patient_info_path;
  patient_info ←
    (if (cached : bool) then
       when (verbose self) (log "## 🙍 Patient Info");;
       patient_info_dict ← load_file patient_info_path;
       match validate_patient_info ext patient_info_dict with
       | Some p => mret p
       | None => raise ValidationError
       end
     else
       when (verbose self) (log ">> Reading patient info");;
       patient_info ←
         read_files (λ fs, parse_synthea_patient (dateutil_parse ext) (json_load ext)
                             fs patient_json_path true);
       (* [isinstance(patient_info, PatientInfo)] holds of what was returned *)
       write_text patient_info_path (dump_patient_info ext patient_info);;
       mret patient_info);
  when (verbose self)
    (log (">> " +:+ newline +:+ "```json" +:+ newline
          +:+ pretty_patient_info ext patient_info +:+ newline +:+ "```"));;
  ctx_set "patient_info" (VPatientInfo patient_info);;
  mret (Some (PatientInfoEvent patient_info)).

Definition create_condition_bundles_step (patient_info : PatientInfo)
  : Step (option Event) :=
  cached ← path_exists condition_info_path;
  condition_bundles ←
    (if (cached : bool) then
       j ← load_file condition_info_path;
       match validate_condition_bundles ext j with
       | Some b => mret b
       | None => raise ValidationError
       end
     else
       answer ← create_condition_bundles ext patient_info;
       match answer with
       | InstanceOf b =>
           write_text condition_info_path (dump_condition_bundles ext b);;
           mret b
       | Other _ =>
           (* the file is opened for writing before the dump is attempted *)
           write_text condition_info_path "";;
           raise AttributeError
       end);
  mret (Some (ConditionBundleEvent condition_bundles)).

Definition dispatch_guideline_match (ev_bundles : ConditionBundles)
  : Step (option Event) :=
  ctx_set "num_conditions" (VInt (Z.of_nat (length (bundles ev_bundles))));;
  for_each (λ _ bundle, send_event (MatchGuidelineEvent bundle))
    (bundles ev_bundles) ();;
  mret None.

(** The loop over the generated queries: every query is sent to the
    retriever, and what comes back is merged by document id. *)
Definition fetch_guidelines (queries : list string)
  : Step (list (string * NodeWithScore)) :=
  for_each (λ guideline_docs_dict query,
      when (verbose self) (log (">> - " +:+ capitalize ext query));;
      cur_guideline_docs ← retriever_retrieve (retrieve ext query);
      mret (dict_update guideline_docs_dict (docs_by_id cur_guideline_docs)))
    queries [].

Definition handle_guideline_match (bundle : ConditionBundle)
  : Step (option Event) :=
  v ← ctx_get "patient_info";
  patient_info ← as_patient_info v;
  guideline_queries ←
    astructured_predict
      (predict_queries ext (demographic_str patient_info)
         (dump_condition_bundle ext bundle));
  log "## ❓ Generating Queries";;
  qs ← match guideline_queries with
       | InstanceOf q => mret (queries q)
       | Other _ => raise AttributeError
       end;
  guideline_docs_dict ← fetch_guidelines qs;
  let guideline_docs := guideline_docs_dict.*2 in
  let guideline_text :=
    join (newline +:+ newline) (content <$> guideline_docs) in
  when (verbose self)
    (log "## 📃 Found Guidelines";;
     (* [guideline_text[:200]]: the first 200 characters, bytes here *)
     log (String.substring 0 200 guideline_text +:+ "..."));;
  guideline_rec ←
    astructured_predict
      (predict_recommendation ext (demographic_str patient_info)
         (dump_condition_bundle ext bundle) guideline_text);
  log "## ✅ Guidelines Recommendations";;
  when (verbose self)
    match guideline_rec with
    | InstanceOf r =>
        log (">> " +:+ newline +:+ "```json" +:+ newline
             +:+ pretty_recommendation ext r +:+ newline +:+ "```")
    | Other _ => raise AttributeError
    end;;
  match guideline_rec with
  | InstanceOf r => mret (Some (MatchGuidelineResultEvent bundle r))
  | Other raw => raise (ValueError ("Invalid guideline recommendation: " +:+ raw))
  end.

Definition gather_guideline_match (ev : Event) : Step (option Event) :=
  v ← ctx_get "num_conditions";
  num_conditions ← as_count v;
  events ← ctx_collect_events ev (replicate num_conditions TMatchGuidelineResultEvent);
  match events with
  | None => mret None
  | Some events =>
      match_results ←
        lift (mapM (λ e, match e with
                         | MatchGuidelineResultEvent b r => Ok (b, r)
                         | _ => Raise AttributeError
                         end) events);
      write_text recs_path
        (String.concat ""
           ((λ br, dump_recommendation ext br.2 +:+ newline) <$> match_results));;
      mret (Some (GenerateCaseSummaryEvent match_results))
  end.

Definition generate_output
    (condition_guideline_info : list (ConditionBundle * GuidelineRecommendation))
  : Step (option Event) :=
  when (verbose self) (log "## 👨‍⚕️ Case Summary");;
  v ← ctx_get "patient_info";
  patient_info ← as_patient_info v;
  let demographic_info := demographic_str patient_info in
  let condition_guideline_strs :=
    (λ br, generate_condition_guideline_str ext br.1 br.2)
      <$> condition_guideline_info in
  let condition_guideline_str :=
    join (newline +:+ newline) condition_guideline_strs in
  case_summary ←
    astructured_predict
      (predict_case_summary ext demographic_info condition_guideline_str);
  mret (Some (StopEvent case_summary)).

End Steps.

(** ** The step table *)

Inductive StepName :=
  | step_parse_patient_info
  | step_create_condition_bundles
  | step_dispatch_guideline_match
  | step_handle_guideline_match
  | step_gather_guideline_match
  | step_generate_output.

(** The event class each [@step] method declares for its [ev] parameter. *)
Definition accepts (s : StepName) : EventType :=
  match s with
  | step_parse_patient_info => TStartEvent
  | step_create_condition_bundles => TPatientInfoEvent
  | step_dispatch_guideline_match => TConditionBundleEvent
  | step_handle_guideline_match => TMatchGuidelineEvent
  | step_gather_guideline_match => TMatchGuidelineResultEvent
  | step_generate_output => TGenerateCaseSummaryEvent
  end.

(** The event class each [@step] method declares as its return type. *)
Definition produces (s : StepName) : EventType :=
  match s with
  | step_parse_patient_info => TPatientInfoEvent
  | step_create_condition_bundles => TConditionBundleEvent
  | step_dispatch_guideline_match => TMatchGuidelineEvent
  | step_handle_guideline_match => TMatchGuidelineResultEvent
  | step_gather_guideline_match => TGenerateCaseSummaryEvent
  | step_generate_output => TStopEvent
  end.

(** The methods of [GuidelineRecommendationWorkflow] marked [@step], in
    source order. *)
Definition workflow_steps : list StepName :=
  [step_parse_patient_info; step_create_condition_bundles;
   step_dispatch_guideline_match; step_handle_guideline_match;
   step_gather_guideline_match; step_generate_output].

Definition step_table : list (EventType * StepName) :=
  (λ s, (accepts s, s)) <$> workflow_steps.

(** The events that drive a step: all but the terminal and the log event. *)
Definition routed (t : EventType) : bool :=
  match t with
  | TStopEvent | TLogEvent => false
  | _ => true
  end.

Definition event_types : list EventType :=
  [TStartEvent; TPatientInfoEvent; TConditionBundleEvent; TMatchGuidelineEvent;
   TMatchGuidelineResultEvent; TGenerateCaseSummaryEvent; TStopEvent; TLogEvent].

(** Modelled from the spec: the Step Registry's [register] (section 4.1),
    part of the workflow library, which is not under src/. "Registration is
    validated eagerly: unknown or duplicate input-event-type bindings fail
    construction." A binding is unknown when its event drives no step. *)
Definition register (reg : gmap EventType StepName) (binding : EventType * StepName)
  : Result (gmap EventType StepName) :=
  if routed binding.1 then
    match reg !! binding.1 with
    | Some _ => Raise ConfigurationError
    | None => Ok (<[binding.1 := binding.2]> reg)
    end
  else Raise ConfigurationError.

(** Modelled from the spec: construction of the registry (sections 3 and
    4.1): the bindings are registered one by one, then every routed event
    must have found its step: "routing an event with zero or more-than-one
    matching steps is a configuration error detected at construction". *)
Definition construct (table : list (EventType * StepName))
  : Result (gmap EventType StepName) :=
  reg ← foldlM register table ∅;
  if forallb (λ t, negb (routed t) || bool_decide (is_Some (reg !! t))) event_types
  then Ok reg
  else Raise ConfigurationError.

(** How many bindings of [table] consume events of type [t]. *)
Definition consumers (t : EventType) (table : list (EventType * StepName)) : nat :=
  length (filter (λ b, b.1 = t) table).

(** ** Running the workflow *)

Section Scheduler.
Variable ext : Externals.
Variable self : Workflow.

(** The method behind a step name, applied to the event routed to it. *)
Definition handler (s : StepName) (ev : Event) : Step (option Event) :=
  match s, ev with
  | step_parse_patient_info, StartEvent patient_json_path =>
      parse_patient_info ext self patient_json_path
  | step_create_condition_bundles, PatientInfoEvent patient_info =>
      create_condition_bundles_step ext self patient_info
  | step_dispatch_guideline_match, ConditionBundleEvent bundles =>
      dispatch_guideline_match bundles
  | step_handle_guideline_match, MatchGuidelineEvent bundle =>
      handle_guideline_match ext self bundle
  | step_gather_guideline_match, MatchGuidelineResultEvent _ _ =>
      gather_guideline_match ext self ev
  | step_generate_output, GenerateCaseSummaryEvent condition_guideline_info =>
      generate_output ext self condition_guideline_info
  | _, _ => raise AttributeError
  end.

(** Modelled from the spec: a run of the Scheduler (sections 2 and 4.2),
    part of the workflow library, which is not under src/. A run holds
    the events waiting to be routed; it ends with the result carried by
    the terminal event, or with the error a handler raised. *)
Inductive Run :=
  | Running (w : World) (ctx : Context) (queue : list Event)
  | Completed (w : World) (ctx : Context) (result : Returned CaseSummary)
  | Failed (w : World) (ctx : Context) (e : PyError).

(** Modelled from the spec: routing one event (sections 2, 4.1, 4.2).
    "each step consumes one event ... and emits zero, one, or many events;
    emitted events re-enter the Router; a special terminal event stops the
    Scheduler and yields the final result"; "If a handler raises an error,
    the Scheduler transitions the run to Failed". *)
Definition deliver (reg : gmap EventType StepName) (ev : Event)
    (w : World) (ctx : Context) (rest : list Event) : Run :=
  match ev with
  | StopEvent result => Completed w ctx result
  | _ =>
      match reg !! type_of ev with
      | None => Running w ctx rest
      | Some s =>
          match run_step (handler s ev)
                  {| world := w; context := ctx; outbox := [] |} with
          | (st, Ok returned) =>
              Running (world st) (context st)
                (rest ++ outbox st ++ option_list returned)
          | (st, Raise e) => Failed (world st) (context st) e
          end
      end
  end.

(** Modelled from the spec: one scheduling decision (sections 4.2 and 5):
    the waiting event at position [i] is routed next. "across sibling
    fan-out instances, no ordering is guaranteed", so any position may be
    chosen. *)
Definition sched_step (reg : gmap EventType StepName) (r : Run) (i : nat) : Run :=
  match r with
  | Running w ctx queue =>
      match queue !! i with
      | Some ev => deliver reg ev w ctx (delete i queue)
      | None => r
      end
  | _ => r
  end.

(** Modelled from the spec: the scheduler working through the schedule
    [sched], one decision after the other. *)
Definition run_schedule (reg : gmap EventType StepName) (sched : list nat)
    (r : Run) : Run :=
  foldl (sched_step reg) r sched.

(** [workflow.run(patient_json_path=...)]: a fresh Context, the start
    event waiting. *)
Definition start (w : World) (patient_json_path : string) : Run :=
  Running w new_context [StartEvent patient_json_path].

(** A run with nothing left to route and no terminal event seen: with
    [timeout=None] nothing will ever resolve its handle. *)
Definition stalled (r : Run) : Prop :=
  match r with
  | Running _ _ [] => True
  | _ => False
  end.

(** The text of the log events on the stream. *)
Definition log_events (ctx : Context) : list string :=
  omap (λ ev, match ev with LogEvent msg _ => Some msg | _ => None end)
    (stream ctx).

(** What the caller of [run_workflow_async] gets. *)
Inductive Outcome :=
  | Returns (log_events : list string) (response : Returned CaseSummary)
  | Raises (e : PyError)
  | Awaiting.

Definition outcome (r : Run) : Outcome :=
  match r with
  | Completed _ ctx result => Returns (log_events ctx) result
  | Failed _ _ e => Raises e
  | Running _ _ _ => Awaiting
  end.

(** [run_workflow_async] under the schedule [sched]: the log messages are
    returned together with the awaited result; when the awaited handle
    raises, nothing is returned. *)
Definition run_workflow_async (sched : list nat) (w : World)
    (patient_json_path : string) : Outcome :=
  match construct step_table with
  | Ok reg => outcome (run_schedule reg sched (start w patient_json_path))
  | Raise e => Raises e
  end.

End Scheduler.

(** ** [CaseSummary.render] and [display_workflow] *)

(** The [lines] that [render] joins. *)
Definition render_lines (self : CaseSummary) : list string :=
  ["Patient Name: " +:+ patient_name self;
   "";
   "Patient Age: " +:+ pretty (age self) +:+ " years old";
   "";
   "Overall Assessment:";
   overall_assessment self;
   ""]
  ++ match condition_summaries self with
     | _ :: _ =>
         "Condition Summaries:"
         :: (csum ← condition_summaries self;
             ["- " +:+ condition_display csum +:+ ":"; "  " +:+ summary csum])
     | [] => ["No specific conditions were summarized."]
     end.

Definition render (self : CaseSummary) : string :=
  join newline (render_lines self).

(** The file [display_workflow] saves the upload to. *)
Definition uploaded_path : string := "uploaded_patient.json".

(** What [display_workflow] leaves on the page: what it passed to
    [st.write], oldest first, and how it ended. *)
Inductive Page :=
  | Shown (written : list string)
  | Broken (written : list string) (e : PyError)
  | Spinning.

Definition save_upload (w : World) (uploaded_file : string) : World :=
  {| files := <[uploaded_path := uploaded_file]> (files w);
     llm_calls := llm_calls w;
     retriever_calls := retriever_calls w |}.

(** [display_workflow(uploaded_file)], the run following schedule [sched]. *)
Definition display_workflow (ext : Externals) (sched : list nat) (w : World)
    (uploaded_file : string) : Page :=
  match run_workflow_async ext workflow sched (save_upload w uploaded_file)
          uploaded_path with
  | Returns log_events (InstanceOf case_summary) =>
      Shown (log_events ++ [render case_summary])
  | Returns log_events (Other _) =>
      (* a response that is no [CaseSummary] has no [render] *)
      Broken log_events AttributeError
  | Raises e => Broken [] e
  | Awaiting => Spinning
  end.

(** ** Notions used to state the properties of the steps *)

(** [wp m Q st]: whenever [m], started in [st], returns [a] in state [st'],
    [Q st' a] holds. *)
Definition wp {A} (m : Step A) (Q : St → A → Prop) (st : St) : Prop :=
  ∀ st' a, run_step m st = (st', Ok a) → Q st' a.

(** [effect llm ret st st']: from [st] to [st'] the Context keys, the event
    buffer, the outbox and the files are untouched, [llm] structured
    predictions and [ret] retrievals were made (the stream may have grown). *)
Definition effect (llm ret : nat) (st st' : St) : Prop :=
  globals (context st') = globals (context st)
  ∧ events_buffer (context st') = events_buffer (context st)
  ∧ outbox st' = outbox st
  ∧ files (world st') = files (world st)
  ∧ llm_calls (world st') = llm_calls (world st) + llm
  ∧ retriever_calls (world st') = retriever_calls (world st) + ret.

(** The documents some query of [qs] retrieves. *)
Definition retrieved (ext : Externals) (qs : list string) (doc : NodeWithScore) : Prop :=
  ∃ q docs, q ∈ qs ∧ retrieve ext q = Ok docs ∧ doc ∈ docs.

(** What the loop over the queries leaves in its dict: one entry per
    document id, every entry a retrieved document under its own id, and
    every retrieved id present. *)
Definition deduplicated (ext : Externals) (qs : list string) (d : list (string * NodeWithScore)) : Prop :=
  NoDup d.*1
  ∧ (∀ k doc, (k, doc) ∈ d → id_ doc = k ∧ retrieved ext qs doc)
  ∧ (∀ doc, retrieved ext qs doc → id_ doc ∈ d.*1).

Section FanIn.
Variable ext : Externals.
Variable self : Workflow.

(** The result events reaching [gather_guideline_match] one after the
    other, in the order of the list; what each call returns. *)
Fixpoint arrive (evs : list Event) (st : St) : St * list (Result (option Event)) :=
  match evs with
  | [] => (st, [])
  | ev :: rest =>
      let '(st1, r) := run_step (gather_guideline_match ext self ev) st in
      let '(st2, rs) := arrive rest st1 in
      (st2, r :: rs)
  end.

Definition result_event (br : ConditionBundle * GuidelineRecommendation) : Event :=
  MatchGuidelineResultEvent br.1 br.2.

(** The state [gather_guideline_match] leaves when it releases
    [match_results]. *)
Definition gathered (ctx' : Context)
    (match_results : list (ConditionBundle * GuidelineRecommendation)) (st : St) : St :=
  {| world :=
       {| files :=
            <[recs_path self :=
                String.concat ""
                  ((λ br, dump_recommendation ext br.2 +:+ newline) <$> match_results)]>
              (files (world st));
          llm_calls := llm_calls (world st);
          retriever_calls := retriever_calls (world st) |};
     context := ctx';
     outbox := outbox st |}.

End FanIn.

(** The keys a step reads with [ctx.get] when it is handed an event of
    type [t]. *)
Definition keys_read (t : EventType) : list string :=
  match t with
  | TMatchGuidelineEvent => ["patient_info"]
  | TMatchGuidelineResultEvent => ["num_conditions"]
  | TGenerateCaseSummaryEvent => ["patient_info"]
  | _ => []
  end.

(** The keys set by the steps that ran before an event of type [t] can
    exist. *)
Definition keys_set_before (t : EventType) : list string :=
  match t with
  | TStartEvent | TLogEvent => []
  | TPatientInfoEvent | TConditionBundleEvent => ["patient_info"]
  | _ => ["patient_info"; "num_conditions"]
  end.

Definition ready (ctx : Context) (ev : Event) : Prop :=
  ∀ k, k ∈ keys_set_before (type_of ev) → is_Some (globals ctx !! k).

Definition all_ready (r : Run) : Prop :=
  match r with
  | Running _ ctx queue => Forall (ready ctx) queue
  | _ => True
  end.

(** ** Notions used to state further properties *)

(** [m.get("status") == "active"] *)
Definition active_request (m : json) : bool :=
  match py_get m "status" JNull with
  | Ok status => py_eq_str status "active"
  | Raise _ => false
  end.

(** [enc.get("period", {}).get("start")] *)
Definition encounter_start (enc : json) : Result json :=
  period ← py_get enc "period" (JObj []);
  py_get period "start" JNull.

(** A resource of none of the four kinds the entry loop collects. *)
Definition other_resource (r : json) : bool :=
  negb (has_type "Patient" r) && negb (has_type "Condition" r)
  && negb (has_type "Encounter" r) && negb (has_type "MedicationRequest" r).

(** Two worlds that differ at most in the content of the file [f]. *)
Definition same_but (f : string) (w1 w2 : World) : Prop :=
  delete f (files w1) = delete f (files w2)
  ∧ llm_calls w1 = llm_calls w2
  ∧ retriever_calls w1 = retriever_calls w2.

Definition St_same_but (f : string) (st1 st2 : St) : Prop :=
  same_but f (world st1) (world st2)
  ∧ context st1 = context st2
  ∧ outbox st1 = outbox st2.

(** [blind f m]: what [m] returns or raises, and what it does to the state,
    does not depend on the file [f]. *)
Definition blind (f : string) {A} (m : Step A) : Prop :=
  ∀ st1 st2, St_same_but f st1 st2 →
    St_same_but f (run_step m st1).1 (run_step m st2).1
    ∧ (run_step m st1).2 = (run_step m st2).2.

(** The start event has left the queue. *)
Definition started (queue : list Event) : Prop :=
  Forall (λ ev, type_of ev ≠ TStartEvent) queue.

(** Two runs that differ at most in the file [f], the start event gone. *)
Definition Run_same_but (f : string) (r1 r2 : Run) : Prop :=
  match r1, r2 with
  | Running w1 ctx1 queue1, Running w2 ctx2 queue2 =>
      same_but f w1 w2 ∧ ctx1 = ctx2 ∧ queue1 = queue2 ∧ started queue1
  | Completed w1 ctx1 result1, Completed w2 ctx2 result2 =>
      same_but f w1 w2 ∧ ctx1 = ctx2 ∧ result1 = result2
  | Failed w1 ctx1 e1, Failed w2 ctx2 e2 =>
      same_but f w1 w2 ∧ ctx1 = ctx2 ∧ e1 = e2
  | _, _ => False
  end.

(** The files a run has written by the time an event of type [t] exists. *)
Definition files_written_before (self : Workflow) (t : EventType) : list string :=
  match t with
  | TStartEvent | TLogEvent => []
  | TPatientInfoEvent => [patient_info_path self]
  | TConditionBundleEvent | TMatchGuidelineEvent | TMatchGuidelineResultEvent =>
      [patient_info_path self; condition_info_path self]
  | TGenerateCaseSummaryEvent | TStopEvent =>
      [patient_info_path self; condition_info_path self; recs_path self]
  end.

Definition backed (self : Workflow) (w : World) (ev : Event) : Prop :=
  ∀ path, path ∈ files_written_before self (type_of ev) →
          is_Some (files w !! path).

Definition all_backed (self : Workflow) (r : Run) : Prop :=
  match r with
  | Running w _ queue => Forall (backed self w) queue
  | Completed w _ _ =>
      ∀ path, path ∈ files_written_before self TStopEvent → is_Some (files w !! path)
  | Failed _ _ _ => True
  end.

(** Every capability that [handle_guideline_match] calls for [b] answers
    with an instance of the class asked for. *)
Definition matchable (ext : Externals) (p : PatientInfo) (b : ConditionBundle) : Prop :=
  ∃ q,
    predict_queries ext (demographic_str p) (dump_condition_bundle ext b)
      = Ok (InstanceOf q)
    ∧ (∀ query, query ∈ queries q → ∃ docs, retrieve ext query = Ok docs)
    ∧ ∀ guideline_text, ∃ r,
        predict_recommendation ext (demographic_str p)
          (dump_condition_bundle ext b) guideline_text = Ok (InstanceOf r).

(** [rec] is a recommendation predicted for the bundle [b]. *)
Definition recommended (ext : Externals) (p : PatientInfo)
    (br : ConditionBundle * GuidelineRecommendation) : Prop :=
  ∃ guideline_text,
    predict_recommendation ext (demographic_str p)
      (dump_condition_bundle ext br.1) guideline_text = Ok (InstanceOf br.2).

(** ** Concrete inputs

    Small bundles, files and capabilities on which the definitions above
    are evaluated. *)

Module Demo.

(** A date reader for the examples: the digits of the string, read as one
    number ("2021-03-04" is 20210304), as a naive datetime; no digit, no
    date. *)
Definition digit_of (c : ascii) : option Z :=
  let n := nat_of_ascii c in
  if (48 <=? n)%nat && (n <=? 57)%nat then Some (Z.of_nat (n - 48)) else None.

Fixpoint read_digits (s : string) (seen : bool) (acc : Z) : option Z :=
  match s with
  | EmptyString => if seen then Some acc else None
  | String c r =>
      match digit_of c with
      | Some d => read_digits r true (acc * 10 + d)
      | None => read_digits r seen acc
      end
  end.

Definition parse (s : string) : option datetime :=
  Naive <$> read_digits s false 0.

Definition obj_resource (kvs : list (string * json)) : json :=
  JObj [("resource", JObj kvs)].

Definition patient (given family : string) : json :=
  obj_resource
    [("resourceType", JStr "Patient");
     ("name", JArr [JObj [("given", JArr [JStr given]); ("family", JStr family)]]);
     ("birthDate", JStr "1980-01-01");
     ("gender", JStr "female")].

Definition coding (key value : string) : json :=
  JObj [("coding", JArr [JObj [(key, JStr value)]])].

Definition condition_entry (code display status : string) : json :=
  obj_resource
    [("resourceType", JStr "Condition");
     ("code", JObj [("coding", JArr [JObj [("code", JStr code);
                                           ("display", JStr display)]])]);
     ("clinicalStatus", coding "code" status)].

Definition encounter_entry (start type : string) : json :=
  obj_resource
    [("resourceType", JStr "Encounter");
     ("period", JObj [("start", JStr start)]);
     ("type", JArr [coding "display" type])].

(** Two Patient resources in one bundle. *)
Definition two_patients : json :=
  JObj [("entry", JArr [patient "Alice" "Adams"; patient "Bob" "Brown"])].

(** One patient, three conditions (one resolved, one excluded by display),
    four encounters out of date order. *)
Definition full_bundle : json :=
  JObj [("entry", JArr [
    patient "Alice" "Adams";
    condition_entry "195967001" "Asthma" "active";
    condition_entry "24079001" "Atopic dermatitis" "resolved";
    condition_entry "314529007" "Medication review due (situation)" "active";
    encounter_entry "2021-03-04" "Check up";
    encounter_entry "2019-01-01" "Asthma follow-up";
    encounter_entry "2022-07-15" "Emergency";
    encounter_entry "2020-12-24" "Wellness"])].

(** No Patient resource at all. *)
Definition no_patient : json :=
  JObj [("entry", JArr [condition_entry "195967001" "Asthma" "active"])].

(** A Patient resource whose gender is a number. *)
Definition odd_gender : json :=
  JObj [("entry", JArr [
    obj_resource [("resourceType", JStr "Patient"); ("gender", JNum 1)]])].

(** The text of each file stands for the document it holds. *)
Definition documents : list (string * json) :=
  [("<two patients>", two_patients);
   ("<odd gender>", odd_gender);
   ("<full bundle>", full_bundle);
   ("<no patient>", no_patient);
   ("<cached patient info>", JStr "patient_info");
   ("<cached bundles: asthma>", JStr "one bundle");
   ("<cached bundles: none>", JStr "no bundle")].

Definition json_loads (text : string) : option json :=
  dict_lookup text documents.

Definition uploads : gmap string string :=
  {[ "two.json" := "<two patients>";
     "full.json" := "<full bundle>";
     "none.json" := "<no patient>";
     "odd.json" := "<odd gender>" ]}.

(** *** Capabilities and worlds for the workflow *)

Definition asthma : ConditionInfo :=
  {| code := "195967001"; display := "Asthma"; clinical_status := "active" |}.

Definition eczema : ConditionInfo :=
  {| code := "24079001"; display := "Atopic dermatitis"; clinical_status := "active" |}.

Definition asthma_bundle : ConditionBundle :=
  {| condition := asthma; encounters := []; medications := [] |}.

Definition eczema_bundle : ConditionBundle :=
  {| condition := eczema; encounters := []; medications := [] |}.

Definition alice : PatientInfo :=
  {| given_name := "Alice"; family_name := "Adams"; birth_date := "1980-01-01";
     gender := "female"; conditions := [asthma; eczema];
     recent_encounters := []; current_medications := [] |}.

Definition advice (source : string) : GuidelineRecommendation :=
  {| guideline_source := source;
     recommendation_summary := "Follow stepwise therapy.";
     reference_section := None |}.

Definition case_summary : CaseSummary :=
  {| patient_name := "Alice Adams"; age := 45;
     overall_assessment := "Stable."; condition_summaries := [] |}.

Definition doc1 : NodeWithScore := {| id_ := "n1"; content := "Stepwise therapy" |}.
Definition doc2 : NodeWithScore := {| id_ := "n2"; content := "Inhaler technique" |}.
Definition doc3 : NodeWithScore := {| id_ := "n3"; content := "Trigger avoidance" |}.

(** Every capability answers; the two queries overlap on [doc2]. *)
Definition ext : Externals :=
  {| dateutil_parse := parse;
     json_load := json_loads;
     validate_patient_info :=
       λ j, if py_eq_str j "patient_info" then Some alice else None;
     validate_condition_bundles :=
       λ j, if py_eq_str j "one bundle" then Some {| bundles := [asthma_bundle] |}
            else if py_eq_str j "no bundle" then Some {| bundles := [] |}
            else None;
     dump_patient_info := λ _, "<cached patient info>";
     dump_condition_bundles :=
       λ b, match bundles b with
            | [] => "<cached bundles: none>"
            | _ :: _ => "<cached bundles: asthma>"
            end;
     dump_condition_bundle := λ b, display (condition b);
     dump_recommendation := guideline_source;
     pretty_patient_info := given_name;
     pretty_recommendation := guideline_source;
     capitalize := λ q, q;
     predict_condition_bundles :=
       λ _, Ok (InstanceOf {| bundles := [asthma_bundle; eczema_bundle] |});
     predict_queries :=
       λ _ _, Ok (InstanceOf {| queries := ["asthma control"; "inhaler use"] |});
     predict_recommendation := λ _ condition_info _, Ok (InstanceOf (advice condition_info));
     predict_case_summary := λ _ _, Ok (InstanceOf case_summary);
     retrieve :=
       λ q, if String.eqb q "asthma control" then Ok [doc1; doc2]
            else Ok [doc2; doc3] |}.

(** The same, but the recommendation for the second condition fails. *)
Definition ext_failing : Externals :=
  {| dateutil_parse := dateutil_parse ext;
     json_load := json_load ext;
     validate_patient_info := validate_patient_info ext;
     validate_condition_bundles := validate_condition_bundles ext;
     dump_patient_info := dump_patient_info ext;
     dump_condition_bundles := dump_condition_bundles ext;
     dump_condition_bundle := dump_condition_bundle ext;
     dump_recommendation := dump_recommendation ext;
     pretty_patient_info := pretty_patient_info ext;
     pretty_recommendation := pretty_recommendation ext;
     capitalize := capitalize ext;
     predict_condition_bundles := predict_condition_bundles ext;
     predict_queries := predict_queries ext;
     predict_recommendation :=
       λ _ condition_info _,
         if String.eqb condition_info "Atopic dermatitis"
         then Raise (CapabilityError "quota exceeded")
         else Ok (InstanceOf (advice condition_info));
     predict_case_summary := predict_case_summary ext;
     retrieve := retrieve ext |}.

(** Only the uploaded patient file: nothing cached. *)
Definition fresh_world : World :=
  {| files := uploads; llm_calls := 0; retriever_calls := 0 |}.

(** Every file a run writes is already there, with one condition bundle. *)
Definition cached_world : World :=
  {| files :=
       {[ "data_out/workflow_output/patient_info.json" := "<cached patient info>";
          "data_out/workflow_output/condition_bundles.json" := "<cached bundles: asthma>";
          "data_out/workflow_output/guideline_recommendations.jsonl" := "Asthma" ]};
     llm_calls := 0; retriever_calls := 0 |}.

(** The cached condition bundles are an empty list. *)
Definition no_condition_world : World :=
  {| files :=
       {[ "data_out/workflow_output/patient_info.json" := "<cached patient info>";
          "data_out/workflow_output/condition_bundles.json" := "<cached bundles: none>" ]};
     llm_calls := 0; retriever_calls := 0 |}.

(** Events are routed in the order they were queued. *)
Definition fifo (n : nat) : list nat := replicate n 0.

End Demo.

(** Further bundles, capabilities and states. *)
Module Examples.

Definition medication_entry (name status : string) : json :=
  Demo.obj_resource
    [("resourceType", JStr "MedicationRequest");
     ("status", JStr status);
     ("medicationCodeableConcept", Demo.coding "display" name);
     ("authoredOn", JStr "2021-03-04")].

Definition observation : json :=
  Demo.obj_resource [("resourceType", JStr "Observation"); ("status", JStr "final")].

(** A patient with one stopped and two active prescriptions, and an
    observation in between. *)
Definition with_medications : json :=
  JObj [("resourceType", JStr "Bundle");
        ("entry", JArr [
           Demo.patient "Alice" "Adams";
           medication_entry "Albuterol inhaler" "active";
           observation;
           medication_entry "Prednisone" "stopped";
           medication_entry "Hydrocortisone cream" "active"])].

(** The same without the observation. *)
Definition without_observation : json :=
  JObj [("resourceType", JStr "Bundle");
        ("entry", JArr [
           Demo.patient "Alice" "Adams";
           medication_entry "Albuterol inhaler" "active";
           medication_entry "Prednisone" "stopped";
           medication_entry "Hydrocortisone cream" "active"])].

(** An encounter that has a period but no start. *)
Definition encounter_without_start : json :=
  JObj [("resourceType", JStr "Encounter");
        ("period", JObj [("end", JStr "2021-03-04")])].

Definition no_start : json :=
  JObj [("entry", JArr [
    Demo.patient "Alice" "Adams";
    Demo.encounter_entry "2021-03-04" "Check up";
    JObj [("resource", encounter_without_start)]])].

(** A Patient resource without a name, and one whose name list is empty. *)
Definition nameless : json :=
  JObj [("entry", JArr [
    Demo.obj_resource [("resourceType", JStr "Patient"); ("gender", JStr "male")]])].

Definition empty_name : json :=
  JObj [("entry", JArr [
    Demo.obj_resource [("resourceType", JStr "Patient"); ("name", JArr [])]])].

Definition texts : list (string * json) :=
  [("<with medications>", with_medications);
   ("<no start>", no_start);
   ("<nameless>", nameless);
   ("<empty name>", empty_name)].

Definition loads (text : string) : option json :=
  dict_lookup text (texts ++ Demo.documents).

Definition uploaded : gmap string string :=
  {[ "meds.json" := "<with medications>";
     "nostart.json" := "<no start>";
     "nameless.json" := "<nameless>";
     "emptyname.json" := "<empty name>";
     "full.json" := "<full bundle>" ]}.

(** *** Capabilities and states for the workflow *)

(** The structured prediction of the condition bundles comes back as
    text. *)
Definition ext_refusing : Externals :=
  {| dateutil_parse := dateutil_parse Demo.ext;
     json_load := json_load Demo.ext;
     validate_patient_info := validate_patient_info Demo.ext;
     validate_condition_bundles := validate_condition_bundles Demo.ext;
     dump_patient_info := dump_patient_info Demo.ext;
     dump_condition_bundles := dump_condition_bundles Demo.ext;
     dump_condition_bundle := dump_condition_bundle Demo.ext;
     dump_recommendation := dump_recommendation Demo.ext;
     pretty_patient_info := pretty_patient_info Demo.ext;
     pretty_recommendation := pretty_recommendation Demo.ext;
     capitalize := capitalize Demo.ext;
     predict_condition_bundles := λ _, Ok (Other "I cannot help with that.");
     predict_queries := predict_queries Demo.ext;
     predict_recommendation := predict_recommendation Demo.ext;
     predict_case_summary := predict_case_summary Demo.ext;
     retrieve := retrieve Demo.ext |}.

(** The patient cache holds something that is no JSON document. *)
Definition garbled_world : World :=
  {| files :=
       <["data_out/workflow_output/patient_info.json" := "<html>"]> Demo.uploads;
     llm_calls := 0; retriever_calls := 0 |}.

Definition fresh : St :=
  {| world := Demo.fresh_world; context := new_context; outbox := [] |}.

(** The state in which the results of two conditions are awaited. *)
Definition awaiting_two : St :=
  {| world := Demo.fresh_world;
     context := Context_set new_context "num_conditions" (VInt 2);
     outbox := [] |}.

End Examples.

(** * Properties *)

(** ** Computations that may raise *)

Lemma bind_Ok {A B} (m : Result A) (f : A → Result B) (b : B) :
  m ≫= f = Ok b ↔ ∃ a, m = Ok a ∧ f a = Ok b.
Proof.
  destruct m as [a|e]; simpl; split.
  - eauto.
  - by intros (a' & [= ->] & ?).
  - discriminate.
  - by intros (? & ? & ?).
Qed.

Lemma bind_Raise {A B} (m : Result A) (f : A → Result B) (e : PyError) :
  m ≫= f = Raise e ↔ m = Raise e ∨ ∃ a, m = Ok a ∧ f a = Raise e.
Proof.
  destruct m as [a|e']; simpl; split.
  - intros Hf. right. by exists a.
  - intros [?|(a' & [= ->] & ?)]; [discriminate | done].
  - intros [= ->]. by left.
  - intros [[= ->]|(? & ? & ?)]; [done | discriminate].
Qed.

(** Inversion of a successful computation, bind by bind. *)
Ltac inv_ok :=
  repeat match goal with
  | H : (_ ≫= _) = Ok _ |- _ =>
      apply bind_Ok in H; destruct H as (? & ? & H)
  | H : context [@mret Result _ _ _] |- _ => unfold mret, Result_ret in H
  | H : Ok _ = Ok _ |- _ => injection H as H; try subst
  | H : Raise _ = Ok _ |- _ => discriminate H
  | H : (let '(_, _) := ?p in _) = Ok _ |- _ => destruct p
  end.

Lemma mapM_Ok_cons {A B} (f : A → Result B) x l ys :
  mapM f (x :: l) = Ok ys ↔
  ∃ y ys', f x = Ok y ∧ mapM f l = Ok ys' ∧ ys = y :: ys'.
Proof.
  simpl. split.
  - intros H. inv_ok. by eexists _, _.
  - intros (y & ys' & Hx & Hl & ->). rewrite bind_Ok. exists y. split; [done|].
    rewrite bind_Ok. eauto.
Qed.

Lemma mapM_Forall2 {A B} (f : A → Result B) l ys :
  mapM f l = Ok ys ↔ Forall2 (λ x y, f x = Ok y) l ys.
Proof.
  revert ys. induction l as [|x l IH]; intros ys.
  - split.
    + intros [= <-]. constructor.
    + by inversion 1.
  - rewrite mapM_Ok_cons. split.
    + intros (y & ys' & Hx & Hl & ->). constructor; [done | by apply IH].
    + inversion 1; subst. eexists _, _. split_and!; [done | by apply IH | done].
Qed.

Lemma mapM_length {A B} (f : A → Result B) l ys :
  mapM f l = Ok ys → length ys = length l.
Proof. rewrite mapM_Forall2. intros H. by apply Forall2_length in H. Qed.

(** ** The entry loop of [parse_synthea_patient] *)

Lemma py_eq_str_true t k : py_eq_str t k = true → t = JStr k.
Proof.
  destruct t; simpl; try discriminate.
  intros H. apply String.eqb_eq in H. by subst.
Qed.

Lemma filter_bool_cons {A} (p : A → bool) x l :
  filter (λ y, p y) (x :: l) = if p x then x :: filter (λ y, p y) l else filter (λ y, p y) l.
Proof.
  rewrite filter_cons. destruct (p x); by case_decide.
Qed.

Lemma has_type_get kind resource t :
  py_get resource "resourceType" JNull = Ok t →
  has_type kind resource = py_eq_str t kind.
Proof. unfold has_type. by intros ->. Qed.


Lemma scan_entry_spec st0 entry :
  match entry_resource entry with
  | Ok r => ∃ st, scan_entry st0 entry = Ok st ∧ scanned st0 [r] st
  | Raise e => scan_entry st0 entry = Raise e
  end.
Proof.
  unfold entry_resource, scan_entry.
  destruct (py_get entry "resource" (JObj [])) as [r|e]; simpl; [|done].
  destruct (py_get r "resourceType" JNull) as [t|e] eqn:Ht; simpl; [|done].
  eexists; split; [done|].
  unfold scanned. rewrite !filter_bool_cons, !filter_nil, !(has_type_get _ _ _ Ht).
  destruct (py_eq_str t "Patient") eqn:HP.
  { apply py_eq_str_true in HP as ->. simpl. by rewrite !app_nil_r. }
  destruct (py_eq_str t "Condition") eqn:HC.
  { apply py_eq_str_true in HC as ->. simpl. by rewrite !app_nil_r. }
  destruct (py_eq_str t "Encounter") eqn:HE.
  { apply py_eq_str_true in HE as ->. simpl. by rewrite !app_nil_r. }
  destruct (py_eq_str t "MedicationRequest") eqn:HM; simpl; by rewrite !app_nil_r.
Qed.

Lemma scanned_trans st0 st1 st r rs :
  scanned st0 [r] st1 → scanned st1 rs st → scanned st0 (r :: rs) st.
Proof.
  unfold scanned. rewrite !filter_bool_cons, !filter_nil.
  intros (HP1 & HC1 & HE1 & HM1) (HP & HC & HE & HM).
  rewrite HP, HC, HE, HM, HP1, HC1, HE1, HM1. clear.
  split_and!.
  - destruct (has_type "Patient" r); simpl; [|done].
    rewrite last_cons. by destruct (last _).
  - destruct (has_type "Condition" r); simpl; by rewrite <-?app_assoc.
  - destruct (has_type "Encounter" r); simpl; by rewrite <-?app_assoc.
  - destruct (has_type "MedicationRequest" r); simpl; by rewrite <-?app_assoc.
Qed.

Lemma scan_entries_spec entries st0 :
  match mapM entry_resource entries with
  | Ok rs => ∃ st, foldlM scan_entry entries st0 = Ok st ∧ scanned st0 rs st
  | Raise e => foldlM scan_entry entries st0 = Raise e
  end.
Proof.
  revert st0. induction entries as [|entry entries IH]; intros st0; simpl.
  - eexists; split; [done|]. unfold scanned; simpl. by rewrite !app_nil_r.
  - pose proof (scan_entry_spec st0 entry) as H1.
    destruct (entry_resource entry) as [r|e]; simpl.
    + destruct H1 as (st1 & -> & Hst1). simpl.
      specialize (IH st1).
      destruct (mapM entry_resource entries) as [rs|e]; simpl; [|done].
      destruct IH as (st & -> & Hst). eauto using scanned_trans.
    + by rewrite H1.
Qed.

Lemma scan_bundle_spec bundle :
  match bundle_resources bundle with
  | Ok rs => ∃ st, scan_bundle bundle = Ok st ∧ scanned empty_scan rs st
  | Raise e => scan_bundle bundle = Raise e
  end.
Proof.
  unfold bundle_resources, scan_bundle.
  destruct (py_get bundle "entry" (JArr [])) as [entry|e]; simpl; [|done].
  destruct (py_iter entry) as [entries|e]; simpl; [|done].
  apply scan_entries_spec.
Qed.

(** ** Which computations never raise a plain [ValueError] *)


Lemma benign_Ok {A} (a : A) : benign (Ok a).
Proof. by intros msg. Qed.

Lemma benign_bind {A B} (m : Result A) (f : A → Result B) :
  benign m → (∀ a, benign (f a)) → benign (m ≫= f).
Proof.
  intros Hm Hf msg. rewrite bind_Raise. intros [H|(a & _ & H)].
  - by apply (Hm msg).
  - by apply (Hf a msg).
Qed.

Lemma benign_foldlM {A B} (f : B → A → Result B) l b :
  (∀ b x, benign (f b x)) → benign (foldlM f l b).
Proof.
  intros Hf. revert b. induction l as [|x l IH]; intros b; simpl.
  - apply benign_Ok.
  - apply benign_bind; auto.
Qed.

Lemma benign_mapM {A B} (f : A → Result B) l :
  (∀ x, benign (f x)) → benign (mapM f l).
Proof.
  intros Hf. induction l as [|x l IH]; simpl.
  - apply benign_Ok.
  - apply benign_bind; [done|]. intros y.
    apply benign_bind; [done|]. intros ys. apply benign_Ok.
Qed.

Ltac benign :=
  repeat first
    [ apply benign_Ok
    | apply benign_bind; [|intros ?]
    | apply benign_foldlM; intros ? ?
    | apply benign_mapM; intros ?
    | match goal with
      | |- benign (Raise _) => by intros ? [=]
      | |- benign (if ?b then _ else _) => destruct b
      | |- benign (match ?x with _ => _ end) => destruct x
      end
    | progress unfold py_get, py_index0, py_iter, as_str, as_opt_str,
        not_in_excluded, get_first, new_ConditionInfo, new_EncounterInfo,
        new_MedicationInfo, new_PatientInfo, entry_resource, collect ].

Lemma benign_bundle_resources bundle : benign (bundle_resources bundle).
Proof. unfold bundle_resources. benign. Qed.

Lemma benign_demographics r : benign (demographics r).
Proof. unfold demographics. benign. Qed.

Lemma benign_condition_info fa c : benign (condition_info fa c).
Proof. unfold condition_info, condition_fields. benign. Qed.

Lemma benign_encounter_info e : benign (encounter_info e).
Proof. unfold encounter_info. benign. Qed.

Lemma benign_medication_info m : benign (medication_info m).
Proof. unfold medication_info. benign. Qed.

Lemma benign_sorted_encounters parse l : benign (sorted_encounters parse l).
Proof. unfold sorted_encounters, get_encounter_date. benign. Qed.

Lemma benign_load_json loads files path : benign (load_json loads files path).
Proof. unfold load_json. benign. Qed.

(** ** The shape of a successful parse *)

Lemma has_type_truthy kind r : has_type kind r = true → py_truthy r = true.
Proof.
  unfold has_type, py_get. destruct r as [| | | | |kvs]; try discriminate.
  by destruct kvs.
Qed.

Lemma last_filter_has_type kind rs r :
  last (filter (λ x, has_type kind x) rs) = Some r → has_type kind r = true.
Proof.
  intros H. apply last_Some_elem_of in H.
  apply list_elem_of_filter in H as [H _]. by apply Is_true_true.
Qed.

Lemma new_PatientInfo_Ok gn fn bd g cil eil mil p :
  new_PatientInfo gn fn bd g cil eil mil = Ok p →
  gn = JStr (given_name p) ∧ fn = JStr (family_name p)
  ∧ bd = JStr (birth_date p) ∧ g = JStr (gender p)
  ∧ conditions p = cil ∧ recent_encounters p = eil ∧ current_medications p = mil.
Proof.
  unfold new_PatientInfo, as_str. intros H.
  destruct gn, fn, bd, g; simpl in H; try discriminate.
  by injection H as <-.
Qed.

Lemma parse_bundle_Ok parse bundle filter_active p :
  parse_bundle parse bundle filter_active = Ok p →
  ∃ rs r sorted,
    bundle_resources bundle = Ok rs
    ∧ last (filter (λ x, has_type "Patient" x) rs) = Some r
    ∧ demographics r
      = Ok (JStr (given_name p), JStr (family_name p),
            JStr (birth_date p), JStr (gender p))
    ∧ collect (condition_info filter_active)
        (filter (λ x, has_type "Condition" x) rs) = Ok (conditions p)
    ∧ sorted_encounters parse (filter (λ x, has_type "Encounter" x) rs) = Ok sorted
    ∧ collect encounter_info (last3 sorted) = Ok (recent_encounters p)
    ∧ collect medication_info
        (filter (λ x, has_type "MedicationRequest" x) rs) = Ok (current_medications p).
Proof.
  unfold parse_bundle. intros H.
  pose proof (scan_bundle_spec bundle) as Hscan.
  destruct (bundle_resources bundle) as [rs|e].
  2: { rewrite Hscan in H. discriminate. }
  destruct Hscan as (st & Hst & HP & HC & HE & HM). rewrite Hst in H. simpl in H.
  rewrite HP, HC, HE, HM in H. simpl in H.
  destruct (last (filter _ rs)) as [r|] eqn:Hlast; simpl in H; [|discriminate].
  destruct (py_truthy r); simpl in H; [|discriminate].
  inv_ok.
  match goal with H : new_PatientInfo _ _ _ _ _ _ _ = Ok _ |- _ =>
    apply new_PatientInfo_Ok in H as (-> & -> & -> & -> & <- & <- & <-) end.
  eexists rs, r, _. split_and!; first [done | eassumption].
Qed.

Lemma filter_has_type_nil kind rs :
  filter (λ x, has_type kind x) rs = [] ↔ Forall (λ r, has_type kind r = false) rs.
Proof.
  induction rs as [|r rs IH]; [by split|].
  rewrite filter_bool_cons, Forall_cons.
  destruct (has_type kind r); [by split; [|intros [? _]] | by rewrite IH; split; [|intros [_ ?]]].
Qed.

Lemma parse_bundle_no_patient parse bundle filter_active :
  parse_bundle parse bundle filter_active = Raise (ValueError no_patient_msg)
  ↔ ∃ rs, bundle_resources bundle = Ok rs
        ∧ Forall (λ r, has_type "Patient" r = false) rs.
Proof.
  unfold parse_bundle.
  pose proof (scan_bundle_spec bundle) as Hscan.
  pose proof (benign_bundle_resources bundle) as Hbenign.
  destruct (bundle_resources bundle) as [rs|e].
  - destruct Hscan as (st & -> & HP & HC & HE & HM). simpl. rewrite HP.
    destruct (last (filter _ rs)) as [r|] eqn:Hlast; simpl.
    + rewrite (has_type_truthy "Patient" r) by by eapply last_filter_has_type.
      simpl. split.
      * intros H. exfalso. revert H.
        assert (benign
          ('(given_name, family_name, birth_date, gender) ← demographics r;
           condition_info_list ←
             collect (condition_info filter_active) (condition_resources st);
           encounters_sorted ← sorted_encounters parse (encounter_resources st);
           encounter_info_list ← collect encounter_info (last3 encounters_sorted);
           medication_info_list ← collect medication_info (medication_requests st);
           new_PatientInfo given_name family_name birth_date gender
             condition_info_list encounter_info_list medication_info_list)) as Hb;
          [|by apply Hb].
        apply benign_bind; [apply benign_demographics|]. intros [[[? ?] ?] ?].
        apply benign_bind;
          [apply benign_foldlM; intros; apply benign_bind;
             [apply benign_condition_info | intros; apply benign_Ok]|].
        intros ?. apply benign_bind; [apply benign_sorted_encounters|]. intros ?.
        apply benign_bind;
          [apply benign_foldlM; intros; apply benign_bind;
             [apply benign_encounter_info | intros; apply benign_Ok]|].
        intros ?. apply benign_bind;
          [apply benign_foldlM; intros; apply benign_bind;
             [apply benign_medication_info | intros; apply benign_Ok]|].
        intros ?. benign.
      * intros (rs' & [= <-] & Hall). apply filter_has_type_nil in Hall.
        rewrite Hall in Hlast. discriminate.
    + split; [|done]. intros _. exists rs. split; [done|].
      apply filter_has_type_nil. by apply last_None.
  - rewrite Hscan. simpl. split.
    + intros [= ->]. by destruct (Hbenign no_patient_msg).
    + by intros (? & ? & _).
Qed.

(** ** The stable sort *)

Section stable_sort.
Context {A : Type}.
Implicit Types (x : datetime * A) (l : list (datetime * A)).

Lemma insert_by_date_Permutation x l : insert_by_date x l ≡ₚ x :: l.
Proof.
  induction l as [|y l IH]; simpl; [done|].
  case_match; [|done]. by rewrite IH, Permutation_swap.
Qed.

Lemma stable_sort_Permutation l : stable_sort l ≡ₚ l.
Proof.
  induction l as [|x l IH]; simpl; [done|].
  by rewrite insert_by_date_Permutation, IH.
Qed.

Lemma insert_by_date_sorted x l :
  StronglySorted key_le l → StronglySorted key_le (insert_by_date x l).
Proof.
  induction 1 as [|y l Hl IH Hy]; simpl.
  - repeat constructor.
  - case_match eqn:Hlt.
    + apply Z.ltb_lt in Hlt. constructor; [done|].
      rewrite insert_by_date_Permutation. constructor; [|done].
      unfold key_le. lia.
    + apply Z.ltb_ge in Hlt. constructor; [by constructor|].
      constructor; [done|].
      eapply Forall_impl; [done|]. unfold key_le. intros z Hz. lia.
Qed.

Lemma stable_sort_sorted l : StronglySorted key_le (stable_sort l).
Proof.
  induction l as [|x l IH]; simpl; [constructor|].
  by apply insert_by_date_sorted.
Qed.

End stable_sort.

Lemma StronglySorted_with {A} (P : A → Prop) (R : relation A) l :
  Forall P l → StronglySorted R l →
  StronglySorted (λ x y, P x ∧ P y ∧ R x y) l.
Proof.
  intros HP. induction 1 as [|x l Hl IH Hx]; [constructor|].
  apply Forall_cons in HP as [Hpx HP].
  constructor; [by apply IH|].
  apply Forall_forall. intros y Hy. split_and!; [done| |].
  - by eapply Forall_forall in HP.
  - by eapply Forall_forall in Hx.
Qed.

Lemma zip_keys parse encs keys :
  Forall2 (λ e k, get_encounter_date parse e = Ok k) encs keys →
  Forall (λ ke, get_encounter_date parse ke.2 = Ok ke.1) (zip keys encs).
Proof. induction 1; simpl; by constructor. Qed.

Lemma sorted_encounters_spec parse encs sorted :
  sorted_encounters parse encs = Ok sorted →
  sorted ≡ₚ encs ∧ StronglySorted (date_le parse) sorted.
Proof.
  unfold sorted_encounters. intros H.
  destruct (mapM (get_encounter_date parse) encs) as [keys|] eqn:Hkeys;
    simpl in H; [|discriminate].
  destruct (comparable keys); [|discriminate]. injection H as <-.
  pose proof (mapM_length _ _ _ Hkeys) as Hlen.
  apply mapM_Forall2 in Hkeys. split.
  - rewrite stable_sort_Permutation. by rewrite snd_zip by lia.
  - apply (StronglySorted_fmap snd
      (λ x y, get_encounter_date parse x.2 = Ok x.1
              ∧ get_encounter_date parse y.2 = Ok y.1 ∧ key_le x y)).
    + intros [k1 e1] [k2 e2] (H1 & H2 & Hle). by exists k1, k2.
    + apply StronglySorted_with; [|apply stable_sort_sorted].
      rewrite stable_sort_Permutation. by apply zip_keys.
Qed.

(** ** Loops that collect *)

Lemma collect_from {A B} (body : A → Result (option B)) l acc out :
  foldlM (λ acc x, o ← body x; Ok (acc ++ option_list o)) l acc = Ok out ↔
  ∃ os, mapM body l = Ok os ∧ out = acc ++ omap id os.
Proof.
  revert acc. induction l as [|x l IH]; intros acc; simpl.
  - split.
    + intros [= <-]. exists []. by rewrite app_nil_r.
    + intros (os & [= <-] & ->). by rewrite app_nil_r.
  - rewrite bind_Ok. split.
    + intros (acc' & Hx & Hl). inv_ok. apply IH in Hl as (os & Hos & ->).
      match goal with H : body x = Ok ?o |- _ => exists (o :: os); rewrite H end.
      simpl. rewrite Hos. simpl. split; [done|].
      rewrite <-app_assoc. f_equal. by case_match.
    + intros (os & Hos & ->). inv_ok.
      match goal with H : body x = Ok ?o |- _ => exists (acc ++ option_list o); rewrite H end.
      simpl. split; [done|]. apply IH. eexists. split; [done|].
      rewrite <-app_assoc. f_equal. simpl. by case_match.
Qed.

Lemma collect_spec {A B} (body : A → Result (option B)) l out :
  collect body l = Ok out ↔ ∃ os, mapM body l = Ok os ∧ out = omap id os.
Proof. unfold collect. by rewrite collect_from. Qed.

Lemma collect_always {A B} (body : A → Result (option B)) l out :
  (∀ x o, body x = Ok o → is_Some o) →
  collect body l = Ok out → Forall2 (λ x y, body x = Ok (Some y)) l out.
Proof.
  intros Hsome. rewrite collect_spec. intros (os & Hos & ->).
  apply mapM_Forall2 in Hos. induction Hos as [|x o l os Hx Hl IH]; simpl.
  - constructor.
  - destruct (Hsome _ _ Hx) as [y ->]. simpl. by constructor.
Qed.

Lemma encounter_info_Some e o : encounter_info e = Ok o → is_Some o.
Proof. unfold encounter_info. intros H. inv_ok. eauto. Qed.

Lemma last3_suffix {A} (l : list A) :
  l = take (length l - 3) l ++ last3 l ∧ length (last3 l) = 3 `min` length l.
Proof.
  unfold last3. destruct (3 <? length l) eqn:Hlen.
  - apply Nat.ltb_lt in Hlen. rewrite take_drop, length_drop. split; [done|lia].
  - apply Nat.ltb_ge in Hlen.
    replace (length l - 3) with 0 by lia. rewrite take_0. split; [done|lia].
Qed.

Lemma parse_synthea_patient_Ok parse loads files path filter_active p :
  parse_synthea_patient parse loads files path filter_active = Ok p →
  ∃ bundle, load_json loads files path = Ok bundle
          ∧ parse_bundle parse bundle filter_active = Ok p.
Proof. unfold parse_synthea_patient. intros H. inv_ok. eauto. Qed.

(** ** Claims about [parse_synthea_patient] *)

(** C8, as amended. [parse_synthea_patient] raises its
    [ValueError("No Patient resource found in the provided file.")] exactly
    when the file loads, every entry's resource can be read, and none of
    them has resourceType "Patient". Whenever it returns a [PatientInfo],
    the four demographic fields are those of the last Patient resource of
    the bundle. *)
Theorem parse_synthea_patient_patient_resource
    parse loads files path filter_active :
  (parse_synthea_patient parse loads files path filter_active
     = Raise (ValueError no_patient_msg)
   ↔ ∃ bundle rs,
       load_json loads files path = Ok bundle
       ∧ bundle_resources bundle = Ok rs
       ∧ Forall (λ r, has_type "Patient" r = false) rs)
  ∧ (∀ p,
       parse_synthea_patient parse loads files path filter_active = Ok p →
       ∃ bundle rs r,
         load_json loads files path = Ok bundle
         ∧ bundle_resources bundle = Ok rs
         ∧ last (filter (λ x, has_type "Patient" x) rs) = Some r
         ∧ demographics r
           = Ok (JStr (given_name p), JStr (family_name p),
                 JStr (birth_date p), JStr (gender p))).
Proof.
  split.
  - unfold parse_synthea_patient. rewrite bind_Raise. split.
    + intros [H|(bundle & Hload & H)].
      * by destruct (benign_load_json loads files path no_patient_msg).
      * apply parse_bundle_no_patient in H as (rs & ? & ?). by exists bundle, rs.
    + intros (bundle & rs & Hload & Hrs & Hall). right. exists bundle.
      split; [done|]. apply parse_bundle_no_patient. eauto.
  - intros p H. apply parse_synthea_patient_Ok in H as (bundle & Hload & H).
    apply parse_bundle_Ok in H as (rs & r & sorted & ? & ? & ? & _).
    by exists bundle, rs, r.
Qed.

(** C8, as stated, fails. With two Patient resources in the bundle the
    result is built from the second one, not from the first. And a
    [ValueError] can be raised although a Patient resource is present: a
    gender that is not a string fails the validation of [PatientInfo], and
    the validation error is a [ValueError]. *)
Lemma parse_synthea_patient_takes_last_patient :
  (∃ first p,
     (rs ← bundle_resources Demo.two_patients;
      Ok (head (filter (λ x, has_type "Patient" x) rs))) = Ok (Some first)
     ∧ demographics first
       = Ok (JStr "Alice", JStr "Adams", JStr "1980-01-01", JStr "female")
     ∧ parse_synthea_patient Demo.parse Demo.json_loads Demo.uploads "two.json" true
       = Ok p
     ∧ given_name p = "Bob" ∧ family_name p = "Brown")
  ∧ (∃ rs e,
       bundle_resources Demo.odd_gender = Ok rs
       ∧ Exists (λ r, has_type "Patient" r = true) rs
       ∧ parse_synthea_patient Demo.parse Demo.json_loads Demo.uploads "odd.json" true
         = Raise e
       ∧ is_ValueError e = true).
Proof.
  split.
  - eexists _, _. split_and!; vm_compute; reflexivity.
  - eexists _, _. split_and!; [vm_compute; reflexivity| |vm_compute; reflexivity|done].
    by left.
Qed.

(** C9. When [parse_synthea_patient] returns, its [recent_encounters] are
    the min(3, number of Encounter resources) latest encounters in date
    order: the Encounter resources of the bundle, put in order of their
    start date, split into the older ones and the entries of
    [recent_encounters]. *)
Theorem recent_encounters_most_recent parse loads files path filter_active p :
  parse_synthea_patient parse loads files path filter_active = Ok p →
  ∃ bundle rs older recent,
    load_json loads files path = Ok bundle
    ∧ bundle_resources bundle = Ok rs
    ∧ older ++ recent ≡ₚ filter (λ x, has_type "Encounter" x) rs
    ∧ StronglySorted (date_le parse) (older ++ recent)
    ∧ length (recent_encounters p)
      = 3 `min` length (filter (λ x, has_type "Encounter" x) rs)
    ∧ Forall2 (λ e ei, encounter_info e = Ok (Some ei)) recent (recent_encounters p).
Proof.
  intros H. apply parse_synthea_patient_Ok in H as (bundle & Hload & H).
  apply parse_bundle_Ok in H as (rs & r & sorted & Hrs & _ & _ & _ & Hsort & Henc & _).
  apply sorted_encounters_spec in Hsort as [Hperm Hsorted].
  apply (collect_always _ _ _ encounter_info_Some) in Henc.
  destruct (last3_suffix sorted) as [Hsplit Hlen].
  exists bundle, rs, (take (length sorted - 3) sorted), (last3 sorted).
  rewrite <-Hsplit. split_and!; try done.
  apply Forall2_length in Henc. rewrite <-Henc, Hlen. by rewrite Hperm.
Qed.

Lemma recent_encounters_most_recent_witness :
  ∃ p,
    parse_synthea_patient Demo.parse Demo.json_loads Demo.uploads "full.json" true
      = Ok p
    ∧ date <$> recent_encounters p = ["2020-12-24"; "2021-03-04"; "2022-07-15"]
    ∧ ∃ bundle rs older recent,
        load_json Demo.json_loads Demo.uploads "full.json" = Ok bundle
        ∧ bundle_resources bundle = Ok rs
        ∧ older ++ recent ≡ₚ filter (λ x, has_type "Encounter" x) rs
        ∧ StronglySorted (date_le Demo.parse) (older ++ recent)
        ∧ length (recent_encounters p)
          = 3 `min` length (filter (λ x, has_type "Encounter" x) rs)
        ∧ Forall2 (λ e ei, encounter_info e = Ok (Some ei))
            recent (recent_encounters p).
Proof.
  eexists. split; [vm_compute; reflexivity|]. split; [reflexivity|].
  apply (recent_encounters_most_recent
           Demo.parse Demo.json_loads Demo.uploads "full.json" true).
  vm_compute; reflexivity.
Defined.

Lemma new_ConditionInfo_Ok cc cd cs ci :
  new_ConditionInfo cc cd cs = Ok ci →
  cc = JStr (code ci) ∧ cd = JStr (display ci) ∧ cs = JStr (clinical_status ci).
Proof.
  unfold new_ConditionInfo, as_str. intros H.
  destruct cc, cd, cs; simpl in H; try discriminate. by injection H as <-.
Qed.

Lemma condition_info_Some filter_active c ci :
  condition_info filter_active c = Ok (Some ci) →
  (display ci ∉ excluded_conditions)
  ∧ (filter_active = true → clinical_status ci = "active").
Proof.
  unfold condition_info. intros H. inv_ok.
  match goal with H : not_in_excluded ?d = Ok ?keep |- _ =>
    rename H into Hex; destruct keep end; [|discriminate].
  assert (∀ cc cd cs, not_in_excluded cd = Ok true →
            new_ConditionInfo cc cd cs = Ok ci → display ci ∉ excluded_conditions)
    as Hdisplay.
  { intros cc cd cs Hk Hnew. apply new_ConditionInfo_Ok in Hnew as (_ & -> & _).
    simpl in Hk. injection Hk as Hk. apply negb_true_iff in Hk.
    by apply bool_decide_eq_false in Hk. }
  destruct filter_active.
  - case_match eqn:Hactive; [|discriminate]. inv_ok.
    split; [by eapply Hdisplay|]. intros _.
    match goal with H : new_ConditionInfo _ _ _ = Ok _ |- _ =>
      apply new_ConditionInfo_Ok in H as (_ & _ & ->) end.
    simpl in Hactive. by apply String.eqb_eq in Hactive.
  - inv_ok. split; [by eapply Hdisplay|done].
Qed.

Lemma condition_info_any_status c cd d s :
  condition_fields c = Ok (JStr cd, JStr d, JStr s) →
  d ∉ excluded_conditions →
  condition_info false c
  = Ok (Some {| code := cd; display := d; clinical_status := s |}).
Proof.
  unfold condition_info. intros -> Hd. simpl.
  by rewrite bool_decide_eq_false_2.
Qed.

(** C10. Every condition of a returned [PatientInfo] has a display outside
    the excluded set; with [filter_active=True] every one is "active"; with
    [filter_active=False] every Condition resource whose display is not
    excluded is there, whatever its clinical status. *)
Theorem conditions_filtered parse loads files path filter_active p :
  parse_synthea_patient parse loads files path filter_active = Ok p →
  Forall (λ c, display c ∉ excluded_conditions) (conditions p)
  ∧ (filter_active = true →
     Forall (λ c, clinical_status c = "active") (conditions p))
  ∧ (filter_active = false →
     ∃ bundle rs,
       load_json loads files path = Ok bundle
       ∧ bundle_resources bundle = Ok rs
       ∧ ∀ c cd d s,
           c ∈ filter (λ x, has_type "Condition" x) rs →
           condition_fields c = Ok (JStr cd, JStr d, JStr s) →
           d ∉ excluded_conditions →
           {| code := cd; display := d; clinical_status := s |} ∈ conditions p).
Proof.
  intros H. apply parse_synthea_patient_Ok in H as (bundle & Hload & H).
  apply parse_bundle_Ok in H as (rs & r & sorted & Hrs & _ & _ & Hcond & _).
  apply collect_spec in Hcond as (os & Hos & Hp). apply mapM_Forall2 in Hos.
  assert (∀ ci, ci ∈ conditions p →
            ∃ c, condition_info filter_active c = Ok (Some ci)) as Hfrom.
  { intros ci. rewrite Hp, list_elem_of_omap. intros (o & Ho & Heq).
    simpl in Heq. subst o.
    apply list_elem_of_lookup in Ho as [i Ho].
    destruct (Forall2_lookup_r _ _ _ _ _ Hos Ho) as (c & _ & Hc). eauto. }
  split_and!.
  - apply Forall_forall. intros ci Hci.
    destruct (Hfrom ci Hci) as (c & Hc). by apply condition_info_Some in Hc as [? _].
  - intros ->. apply Forall_forall. intros ci Hci.
    destruct (Hfrom ci Hci) as (c & Hc). apply condition_info_Some in Hc as [_ Hc]. auto.
  - intros ->. exists bundle, rs. split_and!; [done..|].
    intros c cd d s Hc Hfields Hd.
    apply list_elem_of_lookup in Hc as [i Hc].
    destruct (Forall2_lookup_l _ _ _ _ _ Hos Hc) as (o & Ho & Hinfo).
    rewrite (condition_info_any_status c cd d s Hfields Hd) in Hinfo.
    injection Hinfo as <-. rewrite Hp, list_elem_of_omap.
    eexists. split; [by eapply list_elem_of_lookup_2|done].
Qed.

Lemma conditions_filtered_witness :
  ∃ p,
    parse_synthea_patient Demo.parse Demo.json_loads Demo.uploads "full.json" false
      = Ok p
    ∧ (λ c, (display c, clinical_status c)) <$> conditions p
      = [("Asthma", "active"); ("Atopic dermatitis", "resolved")]
    ∧ Forall (λ c, display c ∉ excluded_conditions) (conditions p)
    ∧ (false = true → Forall (λ c, clinical_status c = "active") (conditions p))
    ∧ (false = false →
       ∃ bundle rs,
         load_json Demo.json_loads Demo.uploads "full.json" = Ok bundle
         ∧ bundle_resources bundle = Ok rs
         ∧ ∀ c cd d s,
             c ∈ filter (λ x, has_type "Condition" x) rs →
             condition_fields c = Ok (JStr cd, JStr d, JStr s) →
             d ∉ excluded_conditions →
             {| code := cd; display := d; clinical_status := s |} ∈ conditions p).
Proof.
  eexists. split; [vm_compute; reflexivity|]. split; [reflexivity|].
  apply (conditions_filtered
           Demo.parse Demo.json_loads Demo.uploads "full.json" false).
  vm_compute; reflexivity.
Defined.

(** ** Steps: weakest preconditions for the results they return *)


Lemma run_bind {A B} (m : Step A) (f : A → Step B) st :
  run_step (m ≫= f) st
  = match run_step m st with
    | (st', Ok a) => run_step (f a) st'
    | (st', Raise e) => (st', Raise e)
    end.
Proof. reflexivity. Qed.

Lemma step_bind_Ok {A B} (m : Step A) (f : A → Step B) st st' b :
  run_step (m ≫= f) st = (st', Ok b) ↔
  ∃ st1 a, run_step m st = (st1, Ok a) ∧ run_step (f a) st1 = (st', Ok b).
Proof.
  rewrite run_bind. destruct (run_step m st) as [st1 [a|e]]; split.
  - eauto.
  - by intros (? & ? & [= <- <-] & ?).
  - discriminate.
  - by intros (? & ? & [=] & ?).
Qed.

Lemma wp_bind {A B} (m : Step A) (f : A → Step B) Q st :
  wp m (λ st1 a, wp (f a) Q st1) st → wp (m ≫= f) Q st.
Proof.
  intros H st' b. rewrite step_bind_Ok. intros (st1 & a & Hm & Hf).
  by eapply H.
Qed.

Lemma wp_mret {A} (a : A) (Q : St → A → Prop) st : Q st a → wp (mret a) Q st.
Proof. by intros H st' a' [= <- <-]. Qed.

Lemma wp_raise {A} e (Q : St → A → Prop) st : wp (raise e) Q st.
Proof. by intros st' a. Qed.

Lemma wp_lift {A} (r : Result A) (Q : St → A → Prop) st :
  (∀ a, r = Ok a → Q st a) → wp (lift r) Q st.
Proof. intros H st' a [= <- ->]. by apply H. Qed.

Lemma wp_when b m (Q : St → unit → Prop) st :
  (b = true → wp m Q st) → (b = false → Q st ()) → wp (when b m) Q st.
Proof. destruct b; simpl; intros H1 H2; [by apply H1 | by apply wp_mret, H2]. Qed.

Lemma wp_path_exists path (Q : St → bool → Prop) st :
  Q st (bool_decide (is_Some (files (world st) !! path))) → wp (path_exists path) Q st.
Proof. by intros H st' a [= <- <-]. Qed.

Lemma wp_read_text path (Q : St → string → Prop) st :
  (∀ text, files (world st) !! path = Some text → Q st text) →
  wp (read_text path) Q st.
Proof.
  intros H st' a. unfold read_text; simpl.
  destruct (files (world st) !! path); intros [= <- <-]. by apply H.
Qed.

Lemma wp_read_files {A} (f : gmap string string → Result A) (Q : St → A → Prop) st :
  (∀ a, f (files (world st)) = Ok a → Q st a) → wp (read_files f) Q st.
Proof. intros H st' a [= <- ?]. by apply H. Qed.

Lemma wp_write_text path text (Q : St → unit → Prop) st :
  Q (with_world (λ w, {| files := <[path := text]> (files w);
                         llm_calls := llm_calls w;
                         retriever_calls := retriever_calls w |}) st) () →
  wp (write_text path text) Q st.
Proof. by intros H st' a [= <- <-]. Qed.

Lemma wp_astructured_predict {A} (answer : Result (Returned A)) Q st :
  (∀ a, answer = Ok a →
     Q (with_world (λ w, {| files := files w; llm_calls := S (llm_calls w);
                            retriever_calls := retriever_calls w |}) st) a) →
  wp (astructured_predict answer) Q st.
Proof. intros H st' a [= <- ->]. by apply H. Qed.

Lemma wp_retriever_retrieve answer (Q : St → list NodeWithScore → Prop) st :
  (∀ a, answer = Ok a →
     Q (with_world (λ w, {| files := files w; llm_calls := llm_calls w;
                            retriever_calls := S (retriever_calls w) |}) st) a) →
  wp (retriever_retrieve answer) Q st.
Proof. intros H st' a [= <- ->]. by apply H. Qed.

Lemma wp_ctx_set key v (Q : St → unit → Prop) st :
  Q (with_context (λ ctx, Context_set ctx key v) st) () → wp (ctx_set key v) Q st.
Proof. by intros H st' a [= <- <-]. Qed.

Lemma wp_ctx_get key (Q : St → Value → Prop) st :
  (∀ v, Context_get (context st) key = Ok v → Q st v) → wp (ctx_get key) Q st.
Proof. intros H st' a [= <- ?]. by apply H. Qed.

Lemma wp_ctx_collect_events ev expected (Q : St → option (list Event) → Prop) st :
  Q (with_context (λ _, (collect_events (context st) ev expected).1) st)
    (collect_events (context st) ev expected).2 →
  wp (ctx_collect_events ev expected) Q st.
Proof.
  intros H st' a. unfold ctx_collect_events; simpl.
  destruct (collect_events (context st) ev expected). by intros [= <- <-].
Qed.

Lemma wp_write_event_to_stream ev (Q : St → unit → Prop) st :
  Q (with_context (λ ctx, {| globals := globals ctx;
                             events_buffer := events_buffer ctx;
                             stream := stream ctx ++ [ev] |}) st) () →
  wp (write_event_to_stream ev) Q st.
Proof. by intros H st' a [= <- <-]. Qed.

Lemma wp_log msg (Q : St → unit → Prop) st :
  Q (with_context (λ ctx, {| globals := globals ctx;
                             events_buffer := events_buffer ctx;
                             stream := stream ctx ++ [LogEvent msg false] |}) st) () →
  wp (log msg) Q st.
Proof. apply wp_write_event_to_stream. Qed.

Lemma wp_send_event ev (Q : St → unit → Prop) st :
  Q {| world := world st; context := context st; outbox := outbox st ++ [ev] |} () →
  wp (send_event ev) Q st.
Proof. by intros H st' a [= <- <-]. Qed.

Lemma wp_as_patient_info v (Q : St → PatientInfo → Prop) st :
  (∀ p, v = VPatientInfo p → Q st p) → wp (as_patient_info v) Q st.
Proof. destruct v; simpl; intros H; [by apply wp_mret, H | apply wp_raise]. Qed.

Lemma wp_as_count v (Q : St → nat → Prop) st :
  (∀ n, v = VInt n → Q st (Z.to_nat n)) → wp (as_count v) Q st.
Proof. destruct v; simpl; intros H; [apply wp_raise | by apply wp_mret, H]. Qed.

(** One step of symbolic execution. *)
Ltac wp_step :=
  first
    [ apply wp_bind
    | apply wp_mret
    | apply wp_raise
    | apply wp_path_exists
    | apply wp_read_text; intros ? ?
    | apply wp_read_files; intros ? ?
    | apply wp_write_text
    | apply wp_astructured_predict; intros ? ?
    | apply wp_retriever_retrieve; intros ? ?
    | apply wp_ctx_set
    | apply wp_ctx_get; intros ? ?
    | apply wp_ctx_collect_events
    | apply wp_log
    | apply wp_write_event_to_stream
    | apply wp_send_event
    | apply wp_as_patient_info; intros ? ?
    | apply wp_as_count; intros ? ?
    | apply wp_lift; intros ? ?
    | apply wp_when; intros ? ].

(** ** Insertion-ordered dicts *)

Section dict.
Context {V : Type}.
Implicit Types (d : list (string * V)) (k : string) (v : V).

Lemma dict_set_keys k v d :
  (dict_set k v d).*1 = if bool_decide (k ∈ d.*1) then d.*1 else d.*1 ++ [k].
Proof.
  induction d as [|[k' v'] d IH]; [done|].
  cbn [dict_set]. rewrite !fmap_cons. cbn [fst].
  destruct (String.eqb k k') eqn:Hk.
  - apply String.eqb_eq in Hk as ->. rewrite fmap_cons.
    by rewrite bool_decide_eq_true_2 by left.
  - apply String.eqb_neq in Hk. rewrite fmap_cons, IH. cbn [fst].
    destruct (bool_decide (k ∈ d.*1)) eqn:Hin.
    + apply bool_decide_eq_true in Hin.
      by rewrite bool_decide_eq_true_2 by by right.
    + apply bool_decide_eq_false in Hin.
      rewrite bool_decide_eq_false_2; [done|]. by intros [?|?]%elem_of_cons.
Qed.

Lemma dict_set_NoDup k v d : NoDup d.*1 → NoDup (dict_set k v d).*1.
Proof.
  intros Hd. rewrite dict_set_keys. case_bool_decide as Hin; [done|].
  apply NoDup_app. split_and!; [done| |apply NoDup_singleton].
  intros x Hx Hk. apply list_elem_of_singleton in Hk as ->. done.
Qed.

Lemma dict_set_key_in k v d : k ∈ (dict_set k v d).*1.
Proof.
  rewrite dict_set_keys. case_bool_decide; [done|].
  apply elem_of_app. right. by left.
Qed.

Lemma dict_set_keys_mono k v d k' : k' ∈ d.*1 → k' ∈ (dict_set k v d).*1.
Proof.
  rewrite dict_set_keys. case_bool_decide; [done|].
  intros ?. apply elem_of_app. by left.
Qed.

Lemma dict_set_elem_of k v d k' v' :
  (k', v') ∈ dict_set k v d → (k' = k ∧ v' = v) ∨ (k', v') ∈ d.
Proof.
  induction d as [|[k0 v0] d IH]; simpl.
  - intros [= -> ->]%list_elem_of_singleton. by left.
  - destruct (String.eqb k k0).
    + intros [[= -> ->]|?]%elem_of_cons; [by left|]. right. by right.
    + intros [[= -> ->]|?]%elem_of_cons; [right; by left|].
      destruct IH as [?|?]; [done|by left|]. right. by right.
Qed.

(** An invariant of the entries survives an update whose entries satisfy
    it. *)
Lemma dict_update_inv (P : string → V → Prop) d other :
  NoDup d.*1 → (∀ k v, (k, v) ∈ d → P k v) → (∀ k v, (k, v) ∈ other → P k v) →
  NoDup (dict_update d other).*1
  ∧ (∀ k v, (k, v) ∈ dict_update d other → P k v)
  ∧ (∀ k, k ∈ d.*1 ∨ k ∈ other.*1 → k ∈ (dict_update d other).*1).
Proof.
  unfold dict_update. revert d.
  induction other as [|[k0 v0] other IH]; intros d Hnd Hd Hother; simpl.
  - split_and!; [done..|]. intros k [?|[]%elem_of_nil]. done.
  - destruct (IH (dict_set k0 v0 d)) as (H1 & H2 & H3).
    + by apply dict_set_NoDup.
    + intros k v [[-> ->]|?]%dict_set_elem_of; [|by apply Hd].
      apply Hother. by left.
    + intros k v ?. apply Hother. by right.
    + split_and!; [done..|]. intros k [?|[->|?]%elem_of_cons].
      * apply H3. left. by apply dict_set_keys_mono.
      * apply H3. left. apply dict_set_key_in.
      * apply H3. by right.
Qed.

End dict.

Lemma docs_by_id_spec docs :
  NoDup (docs_by_id docs).*1
  ∧ (∀ k doc, (k, doc) ∈ docs_by_id docs → id_ doc = k ∧ doc ∈ docs)
  ∧ (∀ doc, doc ∈ docs → id_ doc ∈ (docs_by_id docs).*1).
Proof.
  unfold docs_by_id.
  pose proof (dict_update_inv (λ k doc, id_ doc = k ∧ doc ∈ docs) []
                ((λ doc, (id_ doc, doc)) <$> docs)) as H.
  assert (∀ d, foldl (λ d doc, dict_set (id_ doc) doc d) d docs
               = dict_update d ((λ doc, (id_ doc, doc)) <$> docs)) as ->.
  { unfold dict_update. clear H.
    induction docs as [|doc docs' IH]; intros d; simpl; [done|]. apply IH. }
  destruct H as (H1 & H2 & H3).
  - constructor.
  - by intros k v ?%elem_of_nil.
  - intros k v (doc & [= -> ->] & ?)%list_elem_of_fmap. done.
  - split_and!; [done..|]. intros doc Hdoc. apply H3. right.
    rewrite <-list_fmap_compose. apply list_elem_of_fmap. by exists doc.
Qed.

(** ** What a step leaves alone *)


Lemma effect_refl st : effect 0 0 st st.
Proof. unfold effect. split_and!; (done || lia). Qed.

Lemma effect_trans a b c d st st1 st2 :
  effect a b st st1 → effect c d st1 st2 → effect (a + c) (b + d) st st2.
Proof.
  unfold effect. intros (?&?&?&?&?&?) (?&?&?&?&?&?).
  split_and!; (congruence || lia).
Qed.

Ltac effect := unfold effect; simpl; split_and!; (done || lia).

Lemma for_each_cons {A B} (body : B → A → Step B) x l b :
  for_each body (x :: l) b = (b' ← body b x; for_each body l b').
Proof. reflexivity. Qed.

Section fetch.
Variable ext : Externals.
Variable self : Workflow.


Lemma fetch_loop (done_qs qs : list string) d0 st st' d :
  run_step
    (for_each (λ guideline_docs_dict query,
        when (verbose self) (log (">> - " +:+ capitalize ext query));;
        cur_guideline_docs ← retriever_retrieve (retrieve ext query);
        mret (dict_update guideline_docs_dict (docs_by_id cur_guideline_docs)))
      qs d0) st = (st', Ok d) →
  deduplicated ext done_qs d0 →
  deduplicated ext (done_qs ++ qs) d ∧ effect 0 (length qs) st st'.
Proof.
  revert done_qs d0 st. induction qs as [|q qs IH]; intros done_qs d0 st.
  - intros [= <- <-] Hd0. rewrite app_nil_r. split; [done|apply effect_refl].
  - rewrite for_each_cons, step_bind_Ok. intros (st1 & d1 & Hbody & Hrest) (Hnd & Hin & Hall).
    assert (∃ docs, retrieve ext q = Ok docs
                    ∧ d1 = dict_update d0 (docs_by_id docs)
                    ∧ effect 0 1 st st1) as (docs & Hq & -> & Heff).
    { revert Hbody. generalize st1 d1.
      change (wp (when (verbose self) (log (">> - " +:+ capitalize ext q));;
                  cur ← retriever_retrieve (retrieve ext q);
                  mret (dict_update d0 (docs_by_id cur)))
                (λ st1 d1, ∃ docs, retrieve ext q = Ok docs
                    ∧ d1 = dict_update d0 (docs_by_id docs)
                    ∧ effect 0 1 st st1) st).
      repeat wp_step; eexists; split_and!; try done; effect. }
    destruct (docs_by_id_spec docs) as (Hk1 & Hk2 & Hk3).
    destruct (dict_update_inv
                (λ k doc, id_ doc = k ∧ retrieved ext (done_qs ++ [q]) doc)
                d0 (docs_by_id docs)) as (H1 & H2 & H3); [done| | |].
    { intros k doc Hkd. destruct (Hin k doc Hkd) as [? (q' & docs' & ? & ? & ?)].
      split; [done|]. exists q', docs'. split_and!; [|done..].
      apply elem_of_app. by left. }
    { intros k doc Hkd. destruct (Hk2 k doc Hkd) as [? ?].
      split; [done|]. exists q, docs. split_and!; [|done..].
      apply elem_of_app. right. by left. }
    destruct (IH (done_qs ++ [q]) _ _ Hrest) as [Hded Heff'].
    { split_and!; [done..|]. intros doc (q' & docs' & Hq' & Hret & Hdoc).
      apply H3. apply elem_of_app in Hq' as [Hq'|Hq'].
      - left. apply Hall. by exists q', docs'.
      - apply list_elem_of_singleton in Hq' as ->.
        right. rewrite Hq in Hret. injection Hret as <-. by apply Hk3. }
    rewrite <-app_assoc in Hded. split; [done|].
    replace (S (length qs)) with (1 + length qs) by done.
    by apply (effect_trans 0 1 0 (length qs) st st1 st').
Qed.

Lemma wp_fetch_guidelines qs (Q : St → list (string * NodeWithScore) → Prop) st :
  (∀ st' d, deduplicated ext qs d → effect 0 (length qs) st st' → Q st' d) →
  wp (fetch_guidelines ext self qs) Q st.
Proof.
  intros H st' d Hrun. unfold fetch_guidelines in Hrun.
  apply (fetch_loop []) in Hrun as [? ?]; [by apply H|].
  split_and!; [constructor| |].
  - by intros k doc ?%elem_of_nil.
  - by intros doc (? & ? & ?%elem_of_nil & _).
Qed.

End fetch.

(** ** The steps, one by one *)

Ltac effect_of :=
  unfold effect in *; simpl in *; destruct_and?; split_and?;
  first [done | congruence | lia].

Ltac wp_auto :=
  repeat first
    [ wp_step
    | apply wp_fetch_guidelines; intros ? ? ? ?
    | progress lazy zeta
    | match goal with
      | |- wp (match ?x with _ => _ end) _ _ => destruct x eqn:?
      | |- wp (if ?b then _ else _) _ _ => destruct b eqn:?
      end ].

Section steps.
Variable ext : Externals.
Variable self : Workflow.

Lemma handle_guideline_match_spec bundle st :
  wp (handle_guideline_match ext self bundle)
    (λ st' returned,
       ∃ p q d r,
         Context_get (context st) "patient_info" = Ok (VPatientInfo p)
         ∧ predict_queries ext (demographic_str p)
             (dump_condition_bundle ext bundle) = Ok (InstanceOf q)
         ∧ deduplicated ext (queries q) d
         ∧ predict_recommendation ext (demographic_str p)
             (dump_condition_bundle ext bundle)
             (join (newline +:+ newline) (content <$> d.*2)) = Ok (InstanceOf r)
         ∧ returned = Some (MatchGuidelineResultEvent bundle r)
         ∧ effect 2 (length (queries q)) st st') st.
Proof.
  unfold handle_guideline_match. wp_auto.
  all: eexists _, _, _, _; split_and!; try done; effect_of.
Qed.

Lemma load_file_spec path (Q : St → json → Prop) st :
  (∀ text j, files (world st) !! path = Some text → json_load ext text = Some j →
     Q st j) →
  wp (load_file ext path) Q st.
Proof.
  intros H. unfold load_file. wp_auto. eauto.
Qed.

(** [parse_patient_info]: the patient record comes from the cache when the
    cache file exists, and from the uploaded file otherwise; no capability
    is called either way. *)
Lemma parse_patient_info_spec patient_json_path st :
  wp (parse_patient_info ext self patient_json_path)
    (λ st' returned,
       ∃ p,
         returned = Some (PatientInfoEvent p)
         ∧ globals (context st')
           = <["patient_info" := VPatientInfo p]> (globals (context st))
         ∧ events_buffer (context st') = events_buffer (context st)
         ∧ outbox st' = outbox st
         ∧ llm_calls (world st') = llm_calls (world st)
         ∧ retriever_calls (world st') = retriever_calls (world st)
         ∧ match files (world st) !! patient_info_path self with
           | Some text =>
               files (world st') = files (world st)
               ∧ ∃ j, json_load ext text = Some j
                      ∧ validate_patient_info ext j = Some p
           | None =>
               parse_synthea_patient (dateutil_parse ext) (json_load ext)
                 (files (world st)) patient_json_path true = Ok p
               ∧ files (world st')
                 = <[patient_info_path self := dump_patient_info ext p]>
                     (files (world st))
           end) st.
Proof.
  unfold parse_patient_info. wp_auto.
  all: simpl in *; eexists; split_and!; try done.
  all: match goal with
       | H : files (world _) !! _ = Some _ |- _ => rewrite H; eauto
       | H : bool_decide _ = false |- _ =>
           apply bool_decide_eq_false in H; apply eq_None_not_Some in H;
           rewrite H; eauto
       end.
Qed.

(** [create_condition_bundles]: from the cache when the cache file exists,
    otherwise from one structured prediction. *)
Lemma create_condition_bundles_step_spec patient_info st :
  wp (create_condition_bundles_step ext self patient_info)
    (λ st' returned,
       ∃ cb,
         returned = Some (ConditionBundleEvent cb)
         ∧ context st' = context st
         ∧ outbox st' = outbox st
         ∧ retriever_calls (world st') = retriever_calls (world st)
         ∧ match files (world st) !! condition_info_path self with
           | Some text =>
               world st' = world st
               ∧ ∃ j, json_load ext text = Some j
                      ∧ validate_condition_bundles ext j = Some cb
           | None =>
               predict_condition_bundles ext (dump_patient_info ext patient_info)
                 = Ok (InstanceOf cb)
               ∧ llm_calls (world st') = S (llm_calls (world st))
               ∧ files (world st')
                 = <[condition_info_path self := dump_condition_bundles ext cb]>
                     (files (world st))
           end) st.
Proof.
  unfold create_condition_bundles_step, create_condition_bundles. wp_auto.
  all: simpl in *; eexists; split_and!; try done.
  all: match goal with
       | H : files (world _) !! _ = Some _ |- _ => rewrite H; eauto
       | H : bool_decide _ = false |- _ =>
           apply bool_decide_eq_false in H; apply eq_None_not_Some in H;
           rewrite H; eauto
       end.
Qed.

Lemma send_all bundles st :
  run_step (for_each (λ _ bundle, send_event (MatchGuidelineEvent bundle)) bundles ()) st
  = ({| world := world st; context := context st;
        outbox := outbox st ++ (MatchGuidelineEvent <$> bundles) |}, Ok ()).
Proof.
  revert st. induction bundles as [|b bundles IH]; intros st.
  - simpl. rewrite app_nil_r. by destruct st.
  - rewrite for_each_cons, run_bind. simpl. rewrite IH. simpl.
    by rewrite <-app_assoc.
Qed.

(** [dispatch_guideline_match]: the number of bundles is published, one
    event per bundle is sent, and the step itself returns nothing. *)
Lemma dispatch_guideline_match_spec bs st :
  run_step (dispatch_guideline_match bs) st
  = ({| world := world st;
        context :=
          Context_set (context st) "num_conditions"
            (VInt (Z.of_nat (length (bundles bs))));
        outbox := outbox st ++ (MatchGuidelineEvent <$> bundles bs) |},
     Ok None).
Proof.
  unfold dispatch_guideline_match. rewrite !run_bind. simpl.
  by rewrite send_all.
Qed.

(** [generate_output]: one structured prediction, whose answer is the
    result of the run. *)
Lemma generate_output_spec info st :
  wp (generate_output ext self info)
    (λ st' returned,
       ∃ p answer,
         Context_get (context st) "patient_info" = Ok (VPatientInfo p)
         ∧ predict_case_summary ext (demographic_str p)
             (join (newline +:+ newline)
                ((λ br, generate_condition_guideline_str ext br.1 br.2) <$> info))
           = Ok answer
         ∧ returned = Some (StopEvent answer)
         ∧ effect 1 0 st st') st.
Proof.
  unfold generate_output. wp_auto.
  all: subst; eexists _, _; split_and!; try done; first [by unfold Context_get in * | effect_of].
Qed.

(** [gather_guideline_match]: the event is submitted to the collector; the
    step emits the gathered results when the collector releases them and
    nothing otherwise. *)
Lemma gather_guideline_match_spec ev st :
  wp (gather_guideline_match ext self ev)
    (λ st' returned,
       ∃ n,
         Context_get (context st) "num_conditions" = Ok (VInt n)
         ∧ context st'
           = (collect_events (context st) ev
                (replicate (Z.to_nat n) TMatchGuidelineResultEvent)).1
         ∧ outbox st' = outbox st
         ∧ llm_calls (world st') = llm_calls (world st)
         ∧ retriever_calls (world st') = retriever_calls (world st)
         ∧ match (collect_events (context st) ev
                    (replicate (Z.to_nat n) TMatchGuidelineResultEvent)).2 with
           | None => returned = None ∧ world st' = world st
           | Some events =>
               ∃ match_results,
                 Forall2 (λ e br, e = MatchGuidelineResultEvent br.1 br.2)
                   events match_results
                 ∧ returned = Some (GenerateCaseSummaryEvent match_results)
           end) st.
Proof.
  unfold gather_guideline_match. wp_auto.
  all: subst; simpl in *; eexists; split_and!; try done.
  - match goal with H : _ = Some _ |- _ => rewrite H end.
    eexists. split; [|done].
    match goal with H : mapM _ _ = Ok _ |- _ => apply mapM_Forall2 in H end.
    eapply Forall2_impl; [done|]. intros e [b r]; simpl.
    destruct e; by intros [= -> ->].
  - match goal with H : _ = None |- _ => by rewrite H end.
Qed.

End steps.

(** ** The collector *)

Lemma buffered_insert_eq buffer t l : buffered (<[t := l]> buffer) t = l.
Proof. unfold buffered. by rewrite lookup_insert_eq. Qed.

Lemma take_expected_replicate n t buffer retval :
  ∃ buffer',
    take_expected (replicate n t) buffer retval
      = (buffer', retval ++ take n (buffered buffer t))
    ∧ buffered buffer' t = drop n (buffered buffer t)
    ∧ ∀ t', t' ≠ t → buffer' !! t' = buffer !! t'.
Proof.
  revert buffer retval. induction n as [|n IH]; intros buffer retval; simpl.
  - exists buffer. by rewrite take_0, drop_0, app_nil_r.
  - destruct (buffered buffer t) as [|e waiting] eqn:Hbuf.
    + destruct (IH buffer retval) as (buffer' & -> & Hdrop & Hother).
      exists buffer'. rewrite Hbuf in *. by rewrite take_nil, drop_nil in *.
    + destruct (IH (<[t := waiting]> buffer) (retval ++ [e]))
        as (buffer' & -> & Hdrop & Hother).
      exists buffer'. rewrite buffered_insert_eq in *. split_and!.
      * by rewrite <-app_assoc.
      * done.
      * intros t' Ht'. rewrite Hother by done. by rewrite lookup_insert_ne.
Qed.

Lemma put_back_same_type t buffer retval :
  Forall (λ e, type_of e = t) retval →
  buffered (put_back buffer retval) t = buffered buffer t ++ retval
  ∧ ∀ t', t' ≠ t → put_back buffer retval !! t' = buffer !! t'.
Proof.
  unfold put_back. revert buffer.
  induction retval as [|e retval IH]; intros buffer Hty; simpl.
  - by rewrite app_nil_r.
  - apply Forall_cons in Hty as [<- Hty].
    destruct (IH (<[type_of e := buffered buffer (type_of e) ++ [e]]> buffer) Hty)
      as [-> Hother].
    rewrite buffered_insert_eq, <-app_assoc. split; [done|].
    intros t' Ht'. rewrite Hother by done. by rewrite lookup_insert_ne.
Qed.

(** The collector on [n] expected events of the submitted event's type:
    with [l] the events of that type received so far, this one included,
    the first [n] are released once [n] of them are there, and nothing
    changes hands before. *)
Lemma collect_events_replicate ctx ev n :
  let t := type_of ev in
  let l := buffered (events_buffer ctx) t ++ [ev] in
  Forall (λ e, type_of e = t) l →
  globals (collect_events ctx ev (replicate n t)).1 = globals ctx
  ∧ stream (collect_events ctx ev (replicate n t)).1 = stream ctx
  ∧ if decide (n ≤ length l) then
      (collect_events ctx ev (replicate n t)).2 = Some (take n l)
      ∧ buffered (events_buffer (collect_events ctx ev (replicate n t)).1) t
        = drop n l
    else
      (collect_events ctx ev (replicate n t)).2 = None
      ∧ buffered (events_buffer (collect_events ctx ev (replicate n t)).1) t = l.
Proof.
  intros t l Hty. unfold collect_events. fold t.
  destruct (take_expected_replicate n t
              (<[t := buffered (events_buffer ctx) t ++ [ev]]> (events_buffer ctx)) [])
    as (buffer' & -> & Hdrop & Hother).
  rewrite buffered_insert_eq in *. fold l in Hdrop |- *. simpl.
  rewrite length_take, length_replicate.
  destruct (decide (n ≤ length l)) as [Hn|Hn].
  - rewrite (proj2 (Nat.eqb_eq _ _)) by lia. simpl. done.
  - rewrite (proj2 (Nat.eqb_neq _ _)) by lia. simpl. split_and!; [done..|].
    destruct (put_back_same_type t buffer' (take n l)) as [-> _].
    { by apply Forall_take. }
    rewrite Hdrop. rewrite drop_ge, take_ge by lia. done.
Qed.

(** ** Fan-in *)

Section fan_in.
Variable ext : Externals.
Variable self : Workflow.


Lemma mapM_result_events results :
  mapM (λ e, match e with
             | MatchGuidelineResultEvent b r => Ok (b, r)
             | _ => Raise AttributeError
             end) (result_event <$> results) = Ok results.
Proof.
  induction results as [|[b r] results IH]; [done|].
  cbn [fmap list_fmap mapM]. simpl. rewrite IH. done.
Qed.

(** With [n] conditions published and [received] result events waiting,
    one more result is either buffered or completes the collection. *)
Lemma gather_guideline_match_run n received br st :
  Context_get (context st) "num_conditions" = Ok (VInt (Z.of_nat n)) →
  buffered (events_buffer (context st)) TMatchGuidelineResultEvent
    = result_event <$> received →
  ∃ ctx',
    globals ctx' = globals (context st)
    ∧ if decide (n = S (length received)) then
        run_step (gather_guideline_match ext self (result_event br)) st
          = (gathered ext self ctx' (received ++ [br]) st,
             Ok (Some (GenerateCaseSummaryEvent (received ++ [br]))))
        ∧ buffered (events_buffer ctx') TMatchGuidelineResultEvent = []
      else if decide (n ≤ length received) then True
      else
        run_step (gather_guideline_match ext self (result_event br)) st
          = ({| world := world st; context := ctx'; outbox := outbox st |}, Ok None)
        ∧ buffered (events_buffer ctx') TMatchGuidelineResultEvent
          = result_event <$> (received ++ [br]).
Proof.
  intros Hn Hbuf.
  pose proof (collect_events_replicate (context st) (result_event br) n) as Hc.
  simpl in Hc. rewrite Hbuf in Hc.
  replace ((result_event <$> received) ++ [result_event br])
    with (result_event <$> (received ++ [br])) in Hc by by rewrite fmap_app.
  destruct Hc as (Hg & _ & Hc).
  { apply Forall_fmap, Forall_forall. by intros [b r] _. }
  exists (collect_events (context st) (result_event br)
            (replicate n TMatchGuidelineResultEvent)).1.
  split; [done|].
  unfold gather_guideline_match.
  rewrite length_fmap, length_app in Hc. simpl in Hc.
  destruct (decide (n = S (length received))) as [->|Hne].
  - rewrite decide_True in Hc by lia. destruct Hc as [Hsome Hdrop].
    rewrite take_ge in Hsome by (rewrite length_fmap, length_app; simpl; lia).
    rewrite drop_ge in Hdrop by (rewrite length_fmap, length_app; simpl; lia).
    split; [|done].
    rewrite !run_bind. unfold ctx_get. simpl. rewrite Hn. simpl.
    rewrite Nat2Z.id.
    destruct (collect_events _ _ _) as [ctx' events]. simpl in *. subst events.
    simpl. by rewrite mapM_result_events.
  - destruct (decide (n ≤ length received)) as [|Hgt]; [done|].
    rewrite decide_False in Hc by lia. destruct Hc as [Hnone Hkeep].
    split; [|done].
    rewrite !run_bind. unfold ctx_get. simpl. rewrite Hn. simpl.
    rewrite Nat2Z.id.
    destruct (collect_events _ _ _) as [ctx' events]. simpl in *. by subst events.
Qed.

End fan_in.

Section fan_in_all.
Variable ext : Externals.
Variable self : Workflow.

Lemma arrive_cons ev rest st :
  arrive ext self (ev :: rest) st
  = let '(st1, r) := run_step (gather_guideline_match ext self ev) st in
    let '(st2, rs) := arrive ext self rest st1 in
    (st2, r :: rs).
Proof. reflexivity. Qed.

Lemma arrive_pending n received pending st :
  Context_get (context st) "num_conditions" = Ok (VInt (Z.of_nat n)) →
  buffered (events_buffer (context st)) TMatchGuidelineResultEvent
    = result_event <$> received →
  n = length received + length pending →
  pending ≠ [] →
  (arrive ext self (result_event <$> pending) st).2
  = replicate (length pending - 1) (Ok None)
    ++ [Ok (Some (GenerateCaseSummaryEvent (received ++ pending)))].
Proof.
  revert received st. induction pending as [|br pending IH]; [done|].
  intros received st Hn Hbuf Hlen _.
  destruct (gather_guideline_match_run ext self n received br st Hn Hbuf)
    as (ctx' & Hglobals & Hrun).
  rewrite fmap_cons, arrive_cons.
  destruct pending as [|br' pending].
  - rewrite decide_True in Hrun by (simpl in Hlen; lia).
    destruct Hrun as [-> _]. done.
  - rewrite decide_False in Hrun by (simpl in Hlen; lia).
    rewrite decide_False in Hrun by (simpl in Hlen; lia).
    destruct Hrun as [-> Hbuf'].
    specialize (IH (received ++ [br])
                  {| world := world st; context := ctx'; outbox := outbox st |}).
    destruct (arrive ext self (result_event <$> br' :: pending) _) as [st2 rs].
    simpl in IH |- *. rewrite IH.
    + rewrite Nat.sub_0_r. by rewrite <-app_assoc.
    + unfold Context_get in *. by rewrite Hglobals.
    + done.
    + rewrite length_app. simpl in *. lia.
    + done.
Qed.

(** As long as fewer results than published conditions have arrived,
    every call returns nothing. *)
Lemma arrive_short n received pending st :
  Context_get (context st) "num_conditions" = Ok (VInt (Z.of_nat n)) →
  buffered (events_buffer (context st)) TMatchGuidelineResultEvent
    = result_event <$> received →
  length received + length pending < n →
  (arrive ext self (result_event <$> pending) st).2
  = replicate (length pending) (Ok None).
Proof.
  revert received st. induction pending as [|br pending IH]; [done|].
  intros received st Hn Hbuf Hlen.
  destruct (gather_guideline_match_run ext self n received br st Hn Hbuf)
    as (ctx' & Hglobals & Hrun).
  rewrite fmap_cons, arrive_cons.
  rewrite decide_False in Hrun by (simpl in Hlen; lia).
  rewrite decide_False in Hrun by (simpl in Hlen; lia).
  destruct Hrun as [-> Hbuf'].
  specialize (IH (received ++ [br])
                {| world := world st; context := ctx'; outbox := outbox st |}).
  destruct (arrive ext self (result_event <$> pending) _) as [st2 rs].
  simpl in IH |- *. rewrite IH; [done| | |].
  - unfold Context_get in *. by rewrite Hglobals.
  - done.
  - rewrite length_app. simpl in *. lia.
Qed.

End fan_in_all.

(** ** The step registry *)

Lemma register_Ok reg binding reg' :
  register reg binding = Ok reg' →
  routed binding.1 = true ∧ reg !! binding.1 = None
  ∧ reg' = <[binding.1 := binding.2]> reg.
Proof.
  unfold register. destruct (routed binding.1); [|discriminate].
  destruct (reg !! binding.1); [discriminate|]. by intros [= <-].
Qed.

Lemma consumers_cons t binding table :
  consumers t (binding :: table)
  = (if decide (binding.1 = t) then 1 else 0) + consumers t table.
Proof. unfold consumers. rewrite filter_cons. by case_decide. Qed.

(** After a successful registration of [table] on top of [reg0], an event
    type bound before has no binding in [table], and one that was free has
    at most one, and is bound exactly when it has one. *)
Lemma registered table reg0 reg t :
  foldlM register table reg0 = Ok reg →
  (consumers t table = 0 ∧ reg !! t = reg0 !! t)
  ∨ (consumers t table = 1 ∧ reg0 !! t = None ∧ is_Some (reg !! t)).
Proof.
  revert reg0. induction table as [|binding table IH]; intros reg0; simpl.
  - intros [= <-]. by left.
  - intros H. inv_ok.
    match goal with H : register _ _ = Ok _ |- _ =>
      apply register_Ok in H as (_ & Hfree & ->) end.
    rewrite consumers_cons.
    destruct (IH _ H) as [[Hc Hreg]|(Hc & Hnone & Hsome)]; case_decide; subst.
    + right. rewrite Hc, Hreg, lookup_insert_eq. eauto.
    + left. rewrite Hc, Hreg. by rewrite lookup_insert_ne.
    + by rewrite lookup_insert_eq in Hnone.
    + right. rewrite lookup_insert_ne in Hnone by done. eauto.
Qed.

Lemma construct_Ok table reg :
  construct table = Ok reg →
  ∀ t, routed t = true → consumers t table = 1 ∧ is_Some (reg !! t).
Proof.
  unfold construct. intros H t Ht. inv_ok.
  match goal with H : (if ?b then _ else _) = Ok _ |- _ =>
    destruct b eqn:Hall; [|discriminate] end.
  inv_ok.
  match goal with H : foldlM register _ _ = Ok _ |- _ =>
    destruct (registered _ _ _ t H) as [[_ Hreg]|(? & _ & ?)]; [|done] end.
  rewrite forallb_forall in Hall. specialize (Hall t).
  rewrite Ht, lookup_empty in *. simpl in Hall.
  rewrite bool_decide_eq_true, Hreg in Hall.
  destruct Hall as [? [=]].
  destruct t; simpl; auto 10.
Qed.

Lemma construct_Raise table e : construct table = Raise e → e = ConfigurationError.
Proof.
  unfold construct. rewrite bind_Raise. intros [H|(reg & _ & H)].
  - revert H. generalize (∅ : gmap EventType StepName).
    induction table as [|binding table IH]; intros reg0; simpl; [done|].
    rewrite bind_Raise. intros [H|(reg1 & _ & H)]; [|by eapply IH].
    unfold register in H. repeat case_match; congruence.
  - case_match; congruence.
Qed.

(** The registry the workflow's own table produces. *)
Lemma construct_step_table : construct step_table = Ok (list_to_map step_table).
Proof. vm_compute. reflexivity. Qed.

(** C6. Each of the six event types that drive a step (all but the
    terminal and the log event) has exactly one consuming step in the
    workflow's table, and the table is accepted; a table in which such an
    event type has no or several consuming steps is refused when the
    registry is constructed; and with a constructed registry every such
    event finds its step when it is routed. *)
Theorem step_table_routes_each_event_once :
  (∀ t, routed t = true ↔
        t ∈ [TPatientInfoEvent; TConditionBundleEvent; TMatchGuidelineEvent;
             TMatchGuidelineResultEvent; TGenerateCaseSummaryEvent; TStartEvent])
  ∧ (∀ t, routed t = true → consumers t step_table = 1)
  ∧ (∃ reg, construct step_table = Ok reg)
  ∧ (∀ table t, routed t = true → consumers t table ≠ 1 →
       construct table = Raise ConfigurationError)
  ∧ (∀ table reg ev, construct table = Ok reg → routed (type_of ev) = true →
       is_Some (reg !! type_of ev)).
Proof.
  split_and!.
  - intros t. rewrite !elem_of_cons, elem_of_nil. destruct t; simpl; intuition discriminate.
  - intros t Ht. by destruct t.
  - eexists. apply construct_step_table.
  - intros table t Ht Hc. destruct (construct table) as [reg|e] eqn:Hcon.
    + by destruct (construct_Ok _ _ Hcon t Ht).
    + by rewrite (construct_Raise _ _ Hcon).
  - intros table reg ev Hcon Ht. by destruct (construct_Ok _ _ Hcon _ Ht).
Qed.

(** ** Runs *)


Section runs.
Variable ext : Externals.
Variable self : Workflow.


Lemma run_schedule_app reg sched1 sched2 r :
  run_schedule ext self reg (sched1 ++ sched2) r
  = run_schedule ext self reg sched2 (run_schedule ext self reg sched1 r).
Proof. unfold run_schedule. by rewrite foldl_app. Qed.

Lemma run_schedule_invariant (P : Run → Prop) reg :
  (∀ r i, P r → P (sched_step ext self reg r i)) →
  ∀ sched r, P r → P (run_schedule ext self reg sched r).
Proof.
  intros Hstep sched. unfold run_schedule.
  induction sched as [|i sched IH]; intros r Hr; simpl; [done|].
  by apply IH, Hstep.
Qed.

Lemma run_schedule_fixed reg r :
  (∀ i, sched_step ext self reg r i = r) →
  ∀ sched, run_schedule ext self reg sched r = r.
Proof.
  intros Hfix sched. apply (run_schedule_invariant (λ r', r' = r)); [|done].
  intros r' i ->. apply Hfix.
Qed.

Lemma run_schedule_Failed reg sched w ctx e :
  run_schedule ext self reg sched (Failed w ctx e) = Failed w ctx e.
Proof. by apply run_schedule_fixed. Qed.

Lemma run_schedule_stalled reg sched w ctx :
  run_schedule ext self reg sched (Running w ctx []) = Running w ctx [].
Proof. by apply run_schedule_fixed. Qed.

Lemma registry_of_event ev :
  (list_to_map step_table : gmap EventType StepName) !! type_of ev
  = match ev with
    | StartEvent _ => Some step_parse_patient_info
    | PatientInfoEvent _ => Some step_create_condition_bundles
    | ConditionBundleEvent _ => Some step_dispatch_guideline_match
    | MatchGuidelineEvent _ => Some step_handle_guideline_match
    | MatchGuidelineResultEvent _ _ => Some step_gather_guideline_match
    | GenerateCaseSummaryEvent _ => Some step_generate_output
    | StopEvent _ | LogEvent _ _ => None
    end.
Proof. by destruct ev. Qed.

Lemma collect_events_globals ctx ev expected :
  globals (collect_events ctx ev expected).1 = globals ctx.
Proof.
  unfold collect_events. destruct (take_expected _ _ _). by case_match.
Qed.

Lemma ready_mono ctx ctx' ev :
  (∀ k, is_Some (globals ctx !! k) → is_Some (globals ctx' !! k)) →
  ready ctx ev → ready ctx' ev.
Proof. intros Hsub Hev k Hk. by apply Hsub, Hev. Qed.

Lemma ready_same ctx ctx' ev :
  globals ctx' = globals ctx → ready ctx ev → ready ctx' ev.
Proof. intros Heq. apply ready_mono. by rewrite Heq. Qed.

#[local] Arguments parse_patient_info : simpl never.
#[local] Arguments create_condition_bundles_step : simpl never.
#[local] Arguments dispatch_guideline_match : simpl never.
#[local] Arguments handle_guideline_match : simpl never.
#[local] Arguments gather_guideline_match : simpl never.
#[local] Arguments generate_output : simpl never.

Lemma sched_step_ready r i :
  all_ready r → all_ready (sched_step ext self (list_to_map step_table) r i).
Proof.
  destruct r as [w ctx queue| |]; [|done..]. simpl. intros Hq.
  destruct (queue !! i) as [ev|] eqn:Hev; [|done].
  pose proof (Forall_lookup_1 _ _ _ _ Hq Hev) as Hready.
  assert (Forall (ready ctx) (delete i queue)) as Hrest.
  { by apply Forall_delete. }
  unfold deliver. rewrite registry_of_event.
  destruct ev as [path|p|bs|b|b rec|info|result|msg delta]; try done.
  - (* StartEvent *)
    cbv beta iota delta [handler].
    destruct (run_step _ _) as [st [returned|e]] eqn:Hrun; [|done].
    apply parse_patient_info_spec in Hrun
      as (p & -> & Hg & _ & -> & _). simpl in *.
    rewrite ?app_nil_l. apply Forall_app. split.
    + eapply Forall_impl; [done|]. intros ev. apply ready_mono.
      intros k. rewrite Hg. rewrite lookup_insert_is_Some'. by right.
    + repeat constructor. intros k [->|[]%elem_of_nil]%elem_of_cons.
      by rewrite Hg, lookup_insert_eq.
  - (* PatientInfoEvent *)
    cbv beta iota delta [handler].
    destruct (run_step _ _) as [st [returned|e]] eqn:Hrun; [|done].
    apply create_condition_bundles_step_spec in Hrun
      as (cb & -> & -> & -> & _). simpl in *.
    rewrite ?app_nil_l. apply Forall_app. split; [done|].
    repeat constructor. exact Hready.
  - (* ConditionBundleEvent *)
    cbv beta iota delta [handler].
    rewrite dispatch_guideline_match_spec. unfold Context_set. simpl.
    rewrite app_nil_r. apply Forall_app. split.
    + eapply Forall_impl; [done|]. intros ev. apply ready_mono.
      intros k. simpl. rewrite lookup_insert_is_Some'. by right.
    + apply Forall_fmap, Forall_forall. intros b _.
      intros k [->|[->|[]%elem_of_nil]%elem_of_cons]%elem_of_cons; simpl.
      * rewrite lookup_insert_ne by done. apply Hready. by left.
      * by rewrite lookup_insert_eq.
  - (* MatchGuidelineEvent *)
    cbv beta iota delta [handler].
    destruct (run_step _ _) as [st [returned|e]] eqn:Hrun; [|done].
    apply handle_guideline_match_spec in Hrun
      as (p & q & d & r & _ & _ & _ & _ & -> & (Hg & _ & -> & _)). simpl in *.
    rewrite ?app_nil_l. apply Forall_app. split.
    + eapply Forall_impl; [done|]. intros ev. by apply ready_same.
    + repeat constructor. by eapply ready_same.
  - (* MatchGuidelineResultEvent *)
    cbv beta iota delta [handler].
    destruct (run_step _ _) as [st [returned|e]] eqn:Hrun; [|done].
    apply gather_guideline_match_spec in Hrun
      as (n & _ & Hctx & -> & _ & _ & Hret). simpl in *.
    assert (globals (context st) = globals ctx) as Hg.
    { rewrite Hctx. apply collect_events_globals. }
    rewrite ?app_nil_l. apply Forall_app. split.
    + eapply Forall_impl; [done|]. intros ev. by apply ready_same.
    + destruct (collect_events _ _ _).2.
      * destruct Hret as (results & _ & ->). repeat constructor.
        by eapply ready_same.
      * destruct Hret as [-> _]. constructor.
  - (* GenerateCaseSummaryEvent *)
    cbv beta iota delta [handler].
    destruct (run_step _ _) as [st [returned|e]] eqn:Hrun; [|done].
    apply generate_output_spec in Hrun
      as (p & answer & _ & _ & -> & (Hg & _ & -> & _)). simpl in *.
    rewrite ?app_nil_l. apply Forall_app. split.
    + eapply Forall_impl; [done|]. intros ev. by apply ready_same.
    + repeat constructor. by eapply ready_same.
Qed.

End runs.

(** ** Claims about the Context *)

(** C5. Reading a key that was never set is a usage error, and a value comes
    back only for a key that was set: there is no default. In a run of the
    workflow the error cannot happen: whenever an event waits for a step
    that reads a key ("patient_info" for [handle_guideline_match] and
    [generate_output], "num_conditions" for [gather_guideline_match]), the
    step that sets the key has run and the key is there. *)
Theorem Context_get_missing_key :
  (∀ ctx key, globals ctx !! key = None →
     Context_get ctx key = Raise (UsageError key))
  ∧ (∀ ctx key v, Context_get ctx key = Ok v ↔ globals ctx !! key = Some v)
  ∧ (∀ ctx key v, Context_get (Context_set ctx key v) key = Ok v)
  ∧ (∀ ext self sched w patient_json_path,
       match run_schedule ext self (list_to_map step_table) sched
               (start w patient_json_path) with
       | Running _ ctx queue =>
           ∀ ev key, ev ∈ queue → key ∈ keys_read (type_of ev) →
                     ∃ v, Context_get ctx key = Ok v
       | _ => True
       end).
Proof.
  split_and!.
  - intros ctx key H. unfold Context_get. by rewrite H.
  - intros ctx key v. unfold Context_get.
    destruct (globals ctx !! key); split; congruence.
  - intros ctx key v. unfold Context_get, Context_set. simpl.
    by rewrite lookup_insert_eq.
  - intros ext self sched w path.
    assert (all_ready (start w path)) as Hstart.
    { simpl. repeat constructor. by intros k ?%elem_of_nil. }
    pose proof (run_schedule_invariant ext self all_ready _
                  (sched_step_ready ext self) sched _ Hstart) as Hinv.
    destruct (run_schedule _ _ _ _ _) as [w' ctx queue| |]; [|done..].
    intros ev key Hev Hkey. simpl in Hinv. rewrite Forall_forall in Hinv.
    destruct (Hinv ev Hev key) as [v Hv].
    { destruct ev; simpl in Hkey |- *; try (by apply elem_of_nil in Hkey);
        apply list_elem_of_singleton in Hkey as ->; repeat constructor. }
    exists v. unfold Context_get. by rewrite Hv.
Qed.

(** ** Claims about fan-out and fan-in *)

(** C3 fails on the code. When the condition-bundle list is empty,
    [dispatch_guideline_match] publishes a count of 0, sends no event and
    returns none: nothing is left to route, [gather_guideline_match] is
    never called, and whatever the scheduler does next the caller keeps
    waiting. *)
Theorem empty_fan_out_stalls ext self w ctx sched :
  let r :=
    sched_step ext self (list_to_map step_table)
      (Running w ctx [ConditionBundleEvent {| bundles := [] |}]) 0 in
  r = Running w (Context_set ctx "num_conditions" (VInt 0)) []
  ∧ stalled r
  ∧ outcome (run_schedule ext self (list_to_map step_table) sched r) = Awaiting.
Proof.
  assert (sched_step ext self (list_to_map step_table)
            (Running w ctx [ConditionBundleEvent {| bundles := [] |}]) 0
          = Running w (Context_set ctx "num_conditions" (VInt 0)) []) as Hr.
  { change (sched_step ext self (list_to_map step_table)
              (Running w ctx [ConditionBundleEvent {| bundles := [] |}]) 0)
      with (deliver ext self (list_to_map step_table)
              (ConditionBundleEvent {| bundles := [] |}) w ctx []).
    unfold deliver.
    rewrite (registry_of_event (ConditionBundleEvent {| bundles := [] |})).
    cbv beta iota delta [handler]. by rewrite dispatch_guideline_match_spec. }
  cbv zeta. rewrite Hr. split_and!; [done..|].
  by rewrite run_schedule_stalled.
Qed.

(** The same on a whole run: the cache holds a patient record and an empty
    list of condition bundles; under every schedule [run_workflow_async]
    is left waiting. *)
Lemma run_without_conditions_never_returns sched :
  run_workflow_async Demo.ext workflow sched Demo.no_condition_world "full.json"
  = Awaiting.
Proof.
  unfold run_workflow_async. rewrite construct_step_table.
  set (reg := list_to_map step_table : gmap EventType StepName).
  set (s0 := start Demo.no_condition_world "full.json").
  set (s1 := sched_step Demo.ext workflow reg s0 0).
  set (s2 := sched_step Demo.ext workflow reg s1 0).
  set (s3 := sched_step Demo.ext workflow reg s2 0).
  assert (∀ r, r ∈ [s0; s1; s2; s3] → outcome r = Awaiting) as Hout.
  { intros r Hr. repeat (apply elem_of_cons in Hr as [->|Hr]); [done..|].
    by apply elem_of_nil in Hr. }
  apply Hout.
  apply (run_schedule_invariant Demo.ext workflow (λ r, r ∈ [s0; s1; s2; s3]));
    [|by left].
  intros r i Hr.
  assert (∀ r', r' ∈ [s0; s1; s2; s3] →
                sched_step Demo.ext workflow reg r' 0 ∈ [s0; s1; s2; s3]) as H0.
  { intros r' Hr'. repeat (apply elem_of_cons in Hr' as [->|Hr']).
    - right. by left.
    - do 2 right. by left.
    - do 3 right. by left.
    - do 3 right. by left.
    - by apply elem_of_nil in Hr'. }
  destruct i as [|i]; [by apply H0|].
  repeat (apply elem_of_cons in Hr as [->|Hr]).
  - by left.
  - right. by left.
  - do 2 right. by left.
  - do 3 right. by left.
  - by apply elem_of_nil in Hr.
Qed.

(** C1 holds for one bundle or more and fails for none. After
    [dispatch_guideline_match] on [bs], let the results of the bundles reach
    [gather_guideline_match] in any order [results]. With at least one
    bundle every call but the last returns nothing and the last returns the
    one [GenerateCaseSummaryEvent], carrying exactly the [results], one pair
    per bundle. With no bundle nothing is sent, no call is made, and no
    [GenerateCaseSummaryEvent] is emitted at all. *)
Theorem gathered_results_event ext self bs results st :
  buffered (events_buffer (context st)) TMatchGuidelineResultEvent = [] →
  results.*1 ≡ₚ bundles bs →
  let st1 := (run_step (dispatch_guideline_match bs) st).1 in
  let returned := (arrive ext self (result_event <$> results) st1).2 in
  outbox st1 = outbox st ++ (MatchGuidelineEvent <$> bundles bs)
  ∧ (bundles bs ≠ [] →
     returned
     = replicate (length (bundles bs) - 1) (Ok None)
       ++ [Ok (Some (GenerateCaseSummaryEvent results))])
  ∧ (bundles bs = [] → returned = []).
Proof.
  intros Hbuf Hperm. cbv zeta. rewrite dispatch_guideline_match_spec. simpl.
  pose proof (Permutation_length Hperm) as Hlen. rewrite length_fmap in Hlen.
  split_and!; [done| |].
  - intros Hne. rewrite <-Hlen.
    apply (arrive_pending ext self (length results) []); simpl.
    + unfold Context_get. simpl. by rewrite lookup_insert_eq.
    + done.
    + done.
    + intros ->. simpl in Hlen. by destruct (bundles bs).
  - intros Hnil. rewrite Hnil in Hlen. by destruct results.
Qed.

Lemma gathered_results_event_witness :
  let results := [(Demo.eczema_bundle, Demo.advice "Atopic dermatitis");
                  (Demo.asthma_bundle, Demo.advice "Asthma")] in
  let st := {| world := Demo.fresh_world; context := new_context; outbox := [] |} in
  let bs := {| bundles := [Demo.asthma_bundle; Demo.eczema_bundle] |} in
  let st1 := (run_step (dispatch_guideline_match bs) st).1 in
  let returned := (arrive Demo.ext workflow (result_event <$> results) st1).2 in
  outbox st1 = outbox st ++ (MatchGuidelineEvent <$> bundles bs)
  ∧ (bundles bs ≠ [] →
     returned
     = replicate (length (bundles bs) - 1) (Ok None)
       ++ [Ok (Some (GenerateCaseSummaryEvent results))])
  ∧ (bundles bs = [] → returned = []).
Proof.
  apply (gathered_results_event Demo.ext workflow).
  - reflexivity.
  - simpl. apply Permutation_swap.
Defined.

(** ** Claims about failure *)

(** C4. If, at any point of a run, a [handle_guideline_match] invocation
    raises, [run_workflow_async] raises that error, whatever the scheduler
    would have done next: the caller gets no log, no result, and nothing
    of what the sibling invocations had already produced. Nor can the
    siblings' results alone ever make a case summary: as long as fewer
    results than published conditions have reached
    [gather_guideline_match], it returns nothing. *)
Theorem failing_child_aborts_run ext self :
  (∀ before i after w patient_json_path w1 ctx1 queue bundle st' e,
     run_schedule ext self (list_to_map step_table) before
       (start w patient_json_path) = Running w1 ctx1 queue →
     queue !! i = Some (MatchGuidelineEvent bundle) →
     run_step (handle_guideline_match ext self bundle)
       {| world := w1; context := ctx1; outbox := [] |} = (st', Raise e) →
     run_workflow_async ext self (before ++ i :: after) w patient_json_path
       = Raises e
     ∧ ∀ log_events response,
         run_workflow_async ext self (before ++ i :: after) w patient_json_path
         ≠ Returns log_events response)
  ∧ (∀ n completed st,
       Context_get (context st) "num_conditions" = Ok (VInt (Z.of_nat n)) →
       buffered (events_buffer (context st)) TMatchGuidelineResultEvent = [] →
       length completed < n →
       (arrive ext self (result_event <$> completed) st).2
       = replicate (length completed) (Ok None)).
Proof.
  split.
  - intros before i after w patient_json_path w1 ctx1 queue bundle st' e
      Hbefore Hi Hraise.
    assert (run_workflow_async ext self (before ++ i :: after) w patient_json_path
            = Raises e) as Hrun.
    { unfold run_workflow_async. rewrite construct_step_table.
      rewrite run_schedule_app, Hbefore.
      change (run_schedule ext self (list_to_map step_table) (i :: after)
                (Running w1 ctx1 queue))
        with (run_schedule ext self (list_to_map step_table) after
                (sched_step ext self (list_to_map step_table)
                   (Running w1 ctx1 queue) i)).
      cbn [sched_step]. rewrite Hi. unfold deliver.
      rewrite (registry_of_event (MatchGuidelineEvent bundle)).
      cbv beta iota delta [handler]. rewrite Hraise.
      by rewrite run_schedule_Failed. }
    split; [done|]. intros ? ?. by rewrite Hrun.
  - intros n completed st Hn Hbuf Hlen.
    by apply (arrive_short ext self n []).
Qed.

Lemma failing_child_aborts_run_witness :
  run_workflow_async Demo.ext_failing workflow ([0; 0; 0; 0] ++ 0 :: [0; 0])
    Demo.fresh_world "full.json"
  = Raises (CapabilityError "quota exceeded")
  ∧ ∀ log_events response,
      run_workflow_async Demo.ext_failing workflow ([0; 0; 0; 0] ++ 0 :: [0; 0])
        Demo.fresh_world "full.json"
      ≠ Returns log_events response.
Proof.
  eapply (proj1 (failing_child_aborts_run Demo.ext_failing workflow)
            [0; 0; 0; 0] 0 [0; 0]
            Demo.fresh_world "full.json" _ _ _ Demo.eczema_bundle).
  - vm_compute. reflexivity.
  - reflexivity.
  - vm_compute. reflexivity.
Defined.

(** ** Claims about the cache and the capabilities *)

Lemma parse_patient_info_cached ext self patient_json_path st text j p :
  files (world st) !! patient_info_path self = Some text →
  json_load ext text = Some j →
  validate_patient_info ext j = Some p →
  ∃ st', run_step (parse_patient_info ext self patient_json_path) st
         = (st', Ok (Some (PatientInfoEvent p)))
         ∧ world st' = world st.
Proof.
  intros Hfile Hj Hp. unfold parse_patient_info, load_file.
  rewrite !run_bind. unfold path_exists. simpl.
  rewrite Hfile. rewrite bool_decide_eq_true_2 by eauto.
  destruct (verbose self); simpl; rewrite Hfile; simpl; rewrite Hj; simpl;
    rewrite Hp; simpl; eauto.
Qed.

Lemma create_condition_bundles_cached ext self patient_info st text j cb :
  files (world st) !! condition_info_path self = Some text →
  json_load ext text = Some j →
  validate_condition_bundles ext j = Some cb →
  run_step (create_condition_bundles_step ext self patient_info) st
  = (st, Ok (Some (ConditionBundleEvent cb))).
Proof.
  intros Hfile Hj Hcb. unfold create_condition_bundles_step, load_file.
  rewrite !run_bind. unfold path_exists. simpl.
  rewrite Hfile. rewrite bool_decide_eq_true_2 by eauto.
  simpl. rewrite Hfile. simpl. rewrite Hj. simpl. rewrite Hcb. simpl.
  by destruct st.
Qed.

(** C2, as amended. The two stages that consult the cache skip their work
    when their cache file is there and valid: [parse_patient_info] and
    [create_condition_bundles] return the cached value and leave the files
    and the call counters as they were. The other stages consult no cache:
    a [handle_guideline_match] that returns has made two structured
    predictions and one retrieval per generated query, and a
    [generate_output] that returns has made one structured prediction. *)
Theorem cached_stages_skip_recomputation ext self :
  (∀ patient_json_path st text j p,
     files (world st) !! patient_info_path self = Some text →
     json_load ext text = Some j →
     validate_patient_info ext j = Some p →
     ∃ st', run_step (parse_patient_info ext self patient_json_path) st
            = (st', Ok (Some (PatientInfoEvent p)))
            ∧ world st' = world st)
  ∧ (∀ patient_info st text j cb,
       files (world st) !! condition_info_path self = Some text →
       json_load ext text = Some j →
       validate_condition_bundles ext j = Some cb →
       run_step (create_condition_bundles_step ext self patient_info) st
       = (st, Ok (Some (ConditionBundleEvent cb))))
  ∧ (∀ bundle st st' returned,
       run_step (handle_guideline_match ext self bundle) st = (st', Ok returned) →
       ∃ p q,
         Context_get (context st) "patient_info" = Ok (VPatientInfo p)
         ∧ predict_queries ext (demographic_str p)
             (dump_condition_bundle ext bundle) = Ok (InstanceOf q)
         ∧ llm_calls (world st') = llm_calls (world st) + 2
         ∧ retriever_calls (world st')
           = retriever_calls (world st) + length (queries q))
  ∧ (∀ info st st' returned,
       run_step (generate_output ext self info) st = (st', Ok returned) →
       llm_calls (world st') = llm_calls (world st) + 1
       ∧ retriever_calls (world st') = retriever_calls (world st)).
Proof.
  split_and!.
  - apply parse_patient_info_cached.
  - apply create_condition_bundles_cached.
  - intros bundle st st' returned Hrun.
    apply handle_guideline_match_spec in Hrun
      as (p & q & d & r & ? & ? & _ & _ & _ & (_ & _ & _ & _ & ? & ?)).
    by exists p, q.
  - intros info st st' returned Hrun.
    apply generate_output_spec in Hrun
      as (p & answer & _ & _ & _ & (_ & _ & _ & _ & ? & ?)).
    split; [done|lia].
Qed.

(** C2, as stated, fails: every file the workflow writes is in the output
    directory and valid, and the run still makes three structured
    predictions and two retrievals. *)
Lemma cached_rerun_calls_capabilities :
  (∃ pi cb,
     (text ← Demo.cached_world.(files) !! patient_info_path workflow;
      j ← json_load Demo.ext text; validate_patient_info Demo.ext j) = Some pi
     ∧ (text ← Demo.cached_world.(files) !! condition_info_path workflow;
        j ← json_load Demo.ext text; validate_condition_bundles Demo.ext j) = Some cb
     ∧ is_Some (Demo.cached_world.(files) !! recs_path workflow))
  ∧ ∃ w ctx result,
      run_schedule Demo.ext workflow (list_to_map step_table) (Demo.fifo 7)
        (start Demo.cached_world "full.json") = Completed w ctx result
      ∧ llm_calls w = 3 ∧ retriever_calls w = 2.
Proof.
  split.
  - eexists _, _. split_and!; [vm_compute; reflexivity..|]. vm_compute. eauto.
  - eexists _, _, _. split_and!; vm_compute; reflexivity.
Qed.

Lemma cached_stages_skip_recomputation_witness :
  (∃ st', run_step (parse_patient_info Demo.ext workflow "full.json")
            {| world := Demo.cached_world; context := new_context; outbox := [] |}
          = (st', Ok (Some (PatientInfoEvent Demo.alice)))
          ∧ world st' = Demo.cached_world)
  ∧ (∃ st' returned,
       run_step (handle_guideline_match Demo.ext workflow Demo.asthma_bundle)
         {| world := Demo.cached_world;
            context := Context_set new_context "patient_info" (VPatientInfo Demo.alice);
            outbox := [] |} = (st', Ok returned)
       ∧ llm_calls (world st') = 2 ∧ retriever_calls (world st') = 2).
Proof.
  split.
  - eapply (proj1 (cached_stages_skip_recomputation Demo.ext workflow)).
    + reflexivity.
    + reflexivity.
    + reflexivity.
  - eexists _, _. split; [vm_compute; reflexivity|]. split; reflexivity.
Defined.

(** C7. The documents [handle_guideline_match] puts into the guideline
    text for the recommendation prompt are the retrieved ones with one
    entry per document id: no id occurs twice, every document comes from
    some query's retrieval, and every retrieved id is there. *)
Theorem guideline_docs_deduplicated ext self bundle st st' returned :
  run_step (handle_guideline_match ext self bundle) st = (st', Ok returned) →
  ∃ p q guideline_docs r,
    predict_queries ext (demographic_str p) (dump_condition_bundle ext bundle)
      = Ok (InstanceOf q)
    ∧ NoDup (id_ <$> guideline_docs)
    ∧ (∀ doc, doc ∈ guideline_docs → retrieved ext (queries q) doc)
    ∧ (∀ doc, retrieved ext (queries q) doc → id_ doc ∈ id_ <$> guideline_docs)
    ∧ predict_recommendation ext (demographic_str p)
        (dump_condition_bundle ext bundle)
        (join (newline +:+ newline) (content <$> guideline_docs))
      = Ok (InstanceOf r)
    ∧ returned = Some (MatchGuidelineResultEvent bundle r).
Proof.
  intros Hrun.
  apply handle_guideline_match_spec in Hrun
    as (p & q & d & r & _ & Hq & (Hnd & Hin & Hall) & Hr & -> & _).
  assert (id_ <$> d.*2 = d.*1) as Hids.
  { rewrite <-list_fmap_compose. apply list_fmap_ext. intros i [k doc] Hi.
    simpl. apply list_elem_of_lookup_2 in Hi. by destruct (Hin k doc Hi). }
  exists p, q, d.*2, r. rewrite Hids. split_and!; try done.
  intros doc (kd & -> & Hkd)%list_elem_of_fmap. destruct kd as [k doc].
  by destruct (Hin k doc Hkd).
Qed.

Lemma guideline_docs_deduplicated_witness :
  ∃ docs,
    (retrieve Demo.ext "asthma control" = Ok [Demo.doc1; Demo.doc2]
     ∧ retrieve Demo.ext "inhaler use" = Ok [Demo.doc2; Demo.doc3])
    ∧ docs ≡ₚ [Demo.doc1; Demo.doc2; Demo.doc3]
    ∧ ∃ p q guideline_docs r,
        predict_queries Demo.ext (demographic_str p)
          (dump_condition_bundle Demo.ext Demo.asthma_bundle) = Ok (InstanceOf q)
        ∧ NoDup (id_ <$> guideline_docs)
        ∧ (∀ doc, doc ∈ guideline_docs → retrieved Demo.ext (queries q) doc)
        ∧ (∀ doc, retrieved Demo.ext (queries q) doc →
                  id_ doc ∈ id_ <$> guideline_docs)
        ∧ predict_recommendation Demo.ext (demographic_str p)
            (dump_condition_bundle Demo.ext Demo.asthma_bundle)
            (join (newline +:+ newline) (content <$> guideline_docs))
          = Ok (InstanceOf r)
        ∧ Some (MatchGuidelineResultEvent Demo.asthma_bundle
                  (Demo.advice "Asthma"))
          = Some (MatchGuidelineResultEvent Demo.asthma_bundle r).
Proof.
  exists [Demo.doc1; Demo.doc2; Demo.doc3]. split; [by split|]. split; [done|].
  eapply (guideline_docs_deduplicated Demo.ext workflow Demo.asthma_bundle
            {| world := Demo.cached_world;
               context := Context_set new_context "patient_info"
                            (VPatientInfo Demo.alice);
               outbox := [] |}).
  vm_compute. reflexivity.
Defined.

(** ** Further properties of [parse_synthea_patient] *)

Lemma foldlM_app {A B} (f : B → A → Result B) l1 l2 b :
  foldlM f (l1 ++ l2) b = (b' ← foldlM f l1 b; foldlM f l2 b').
Proof.
  revert b. induction l1 as [|x l1 IH]; intros b; simpl; [done|].
  destruct (f b x); simpl; [apply IH|done].
Qed.

(** The parse, spelled out on the resources of the bundle, once the last
    Patient resource is known. *)
Lemma parse_bundle_resources parse bundle filter_active rs r :
  bundle_resources bundle = Ok rs →
  last (filter (λ x, has_type "Patient" x) rs) = Some r →
  parse_bundle parse bundle filter_active
  = ('(given_name, family_name, birth_date, gender) ← demographics r;
     condition_info_list ←
       collect (condition_info filter_active)
         (filter (λ x, has_type "Condition" x) rs);
     encounters_sorted ←
       sorted_encounters parse (filter (λ x, has_type "Encounter" x) rs);
     encounter_info_list ← collect encounter_info (last3 encounters_sorted);
     medication_info_list ←
       collect medication_info (filter (λ x, has_type "MedicationRequest" x) rs);
     new_PatientInfo given_name family_name birth_date gender
       condition_info_list encounter_info_list medication_info_list).
Proof.
  intros Hrs Hlast. unfold parse_bundle.
  pose proof (scan_bundle_spec bundle) as Hscan. rewrite Hrs in Hscan.
  destruct Hscan as (st & -> & HP & HC & HE & HM). simpl.
  rewrite HP, HC, HE, HM, Hlast. simpl.
  by rewrite (has_type_truthy "Patient" r) by by eapply last_filter_has_type.
Qed.

Lemma medication_info_active m o :
  medication_info m = Ok o →
  if active_request m then is_Some o else o = None.
Proof.
  unfold medication_info, active_request. intros H.
  destruct (py_get m "status" JNull) as [status|]; simpl in *; [|done].
  destruct (py_eq_str status "active"); inv_ok; eauto.
Qed.

Lemma collect_filtered {A B} (body : A → Result (option B)) (keep : A → bool) l out :
  (∀ x o, body x = Ok o → if keep x then is_Some o else o = None) →
  collect body l = Ok out →
  Forall2 (λ x y, body x = Ok (Some y)) (filter (λ x, keep x) l) out.
Proof.
  intros Hkeep. rewrite collect_spec. intros (os & Hos & ->).
  apply mapM_Forall2 in Hos. induction Hos as [|x o l os Hx Hl IH]; simpl.
  - constructor.
  - rewrite filter_bool_cons. specialize (Hkeep _ _ Hx).
    destruct (keep x).
    + destruct Hkeep as [y ->]. simpl. by constructor.
    + by subst o.
Qed.

(** X1. The medications of a returned [PatientInfo] are those of the
    MedicationRequest resources whose status is "active", one entry each, in
    bundle order; requests with any other status leave no entry. *)
Theorem current_medications_active parse loads files path filter_active p :
  parse_synthea_patient parse loads files path filter_active = Ok p →
  ∃ bundle rs,
    load_json loads files path = Ok bundle
    ∧ bundle_resources bundle = Ok rs
    ∧ Forall2 (λ m mi, medication_info m = Ok (Some mi))
        (filter (λ m, active_request m)
           (filter (λ x, has_type "MedicationRequest" x) rs))
        (current_medications p).
Proof.
  intros H. apply parse_synthea_patient_Ok in H as (bundle & Hload & H).
  apply parse_bundle_Ok in H as (rs & r & sorted & Hrs & _ & _ & _ & _ & _ & Hmed).
  exists bundle, rs. split_and!; [done..|].
  by apply (collect_filtered _ _ _ _ medication_info_active).
Qed.

Lemma get_encounter_date_Ok parse enc d :
  get_encounter_date parse enc = Ok d →
  ∃ s, encounter_start enc = Ok (JStr s) ∧ s ≠ "" ∧ parse s = Some d.
Proof.
  unfold get_encounter_date, encounter_start. intros H.
  destruct (py_get enc "period" (JObj [])) as [period|]; simpl in *; [|done].
  destruct (py_get period "start" JNull) as [start|]; simpl in *; [|done].
  destruct (py_truthy start) eqn:Htruthy; [|done].
  destruct start as [| | |s| |]; try done.
  destruct (parse s) as [d'|] eqn:Hparse; [|done]. injection H as ->.
  exists s. split_and!; [done| |done].
  intros ->. done.
Qed.

Lemma get_encounter_date_no_start parse enc start :
  encounter_start enc = Ok start → py_truthy start = false →
  get_encounter_date parse enc = Raise AttributeError.
Proof.
  unfold get_encounter_date, encounter_start. intros H Hfalsy.
  destruct (py_get enc "period" (JObj [])) as [period|]; simpl in *; [|done].
  rewrite H. simpl. by rewrite Hfalsy.
Qed.

(** X2. [parse_synthea_patient] returns only when every Encounter resource
    has a non-empty [period.start] string that the date parser reads, all of
    them timezone-aware or all of them naive. An encounter whose start is
    missing, null or empty never gets the intended [datetime.min]: computing
    its sort key raises [AttributeError]. *)
Theorem encounters_need_start parse loads files path filter_active :
  (∀ enc start, encounter_start enc = Ok start → py_truthy start = false →
     get_encounter_date parse enc = Raise AttributeError)
  ∧ (∀ p,
       parse_synthea_patient parse loads files path filter_active = Ok p →
       ∃ bundle rs keys,
         load_json loads files path = Ok bundle
         ∧ bundle_resources bundle = Ok rs
         ∧ Forall2 (λ enc d, ∃ s, encounter_start enc = Ok (JStr s)
                                  ∧ s ≠ "" ∧ parse s = Some d)
             (filter (λ x, has_type "Encounter" x) rs) keys
         ∧ (Forall (λ d, is_aware d = true) keys
            ∨ Forall (λ d, is_aware d = false) keys)).
Proof.
  split; [apply get_encounter_date_no_start|].
  intros p H. apply parse_synthea_patient_Ok in H as (bundle & Hload & H).
  apply parse_bundle_Ok in H as (rs & r & sorted & Hrs & _ & _ & _ & Hsort & _).
  unfold sorted_encounters in Hsort.
  destruct (mapM _ _) as [keys|] eqn:Hkeys; simpl in Hsort; [|done].
  destruct (comparable keys) eqn:Hcmp; [|done].
  exists bundle, rs, keys. split_and!; [done..| |].
  - apply mapM_Forall2 in Hkeys. eapply Forall2_impl; [done|].
    intros enc d. apply get_encounter_date_Ok.
  - unfold comparable in Hcmp. apply orb_true_iff in Hcmp as [Hc|Hc];
      [left|right]; apply Forall_forall; intros d Hd;
      rewrite forallb_forall in Hc; apply list_elem_of_In, Hc in Hd.
    + done.
    + by apply negb_true_iff.
Qed.

Lemma scan_entry_other st entry r :
  entry_resource entry = Ok r → other_resource r = true →
  scan_entry st entry = Ok st.
Proof.
  unfold entry_resource, scan_entry, other_resource, has_type. intros H Hother.
  destruct (py_get entry "resource" (JObj [])) as [r'|]; simpl in *; [|done].
  destruct (py_get r' "resourceType" JNull) as [t|] eqn:Ht; simpl in *; [|done].
  injection H as ->. rewrite Ht in Hother.
  repeat (apply andb_true_iff in Hother as [Hother ?]).
  repeat match goal with H : negb _ = true |- _ => apply negb_true_iff in H end.
  by repeat match goal with H : py_eq_str _ _ = false |- _ => rewrite H; clear H end.
Qed.

(** X3. Entries whose resource is of another type than Patient, Condition,
    Encounter and MedicationRequest play no part: wherever such an entry
    stands in the bundle, the result (a [PatientInfo] or an error) is the
    same as without it. *)
Theorem other_resources_ignored
    parse kvs kvs' before entry after filter_active r :
  dict_lookup "entry" kvs = Some (JArr (before ++ entry :: after)) →
  dict_lookup "entry" kvs' = Some (JArr (before ++ after)) →
  entry_resource entry = Ok r →
  other_resource r = true →
  parse_bundle parse (JObj kvs) filter_active
  = parse_bundle parse (JObj kvs') filter_active.
Proof.
  intros Hkvs Hkvs' Hr Hother. unfold parse_bundle, scan_bundle. simpl.
  rewrite Hkvs, Hkvs'. simpl. rewrite !foldlM_app. simpl.
  destruct (foldlM scan_entry before empty_scan) as [st|]; simpl; [|done].
  by rewrite (scan_entry_other st entry r).
Qed.

Lemma condition_info_filter c o :
  condition_info false c = Ok o →
  condition_info true c
  = Ok (o ≫= λ ci, if decide (clinical_status ci = "active") then Some ci else None).
Proof.
  unfold condition_info. intros H.
  destruct (condition_fields c) as [[[cc cd] cs]|]; simpl in *; [|done].
  destruct (not_in_excluded cd) as [[]|]; simpl in *; [| |done].
  - inv_ok.
    match goal with H : new_ConditionInfo _ _ _ = Ok ?ci |- _ =>
      pose proof (new_ConditionInfo_Ok _ _ _ _ H) as (-> & -> & ->);
      rewrite H end.
    simpl. destruct (String.eqb (clinical_status _) "active") eqn:Heq.
    + apply String.eqb_eq in Heq. simpl. by rewrite decide_True.
    + apply String.eqb_neq in Heq. simpl. by rewrite decide_False.
  - by injection H as <-.
Qed.

Lemma collect_condition_info_filter l out :
  collect (condition_info false) l = Ok out →
  collect (condition_info true) l
  = Ok (filter (λ ci, clinical_status ci = "active") out).
Proof.
  rewrite collect_spec. intros (os & Hos & ->).
  apply collect_spec.
  exists ((λ o, o ≫= λ ci, if decide (clinical_status ci = "active")
                          then Some ci else None) <$> os).
  split.
  - apply mapM_Forall2. apply mapM_Forall2 in Hos.
    apply Forall2_fmap_r. eapply Forall2_impl; [done|].
    intros c o. apply condition_info_filter.
  - clear Hos. induction os as [|[ci|] os IH]; csimpl; [done| |done].
    rewrite filter_cons. case_decide; csimpl; by rewrite IH.
Qed.

(** X4. [filter_active] only selects: if the call with
    [filter_active=False] returns a [PatientInfo], the call with
    [filter_active=True] returns the same one with its conditions reduced to
    those whose clinical status is "active", in the same order. *)
Theorem filter_active_selects parse loads files path p :
  parse_synthea_patient parse loads files path false = Ok p →
  parse_synthea_patient parse loads files path true
  = Ok {| given_name := given_name p; family_name := family_name p;
          birth_date := birth_date p; gender := gender p;
          conditions := filter (λ ci, clinical_status ci = "active") (conditions p);
          recent_encounters := recent_encounters p;
          current_medications := current_medications p |}.
Proof.
  intros H. apply parse_synthea_patient_Ok in H as (bundle & Hload & H).
  unfold parse_synthea_patient. rewrite Hload. simpl.
  apply parse_bundle_Ok in H
    as (rs & r & sorted & Hrs & Hlast & Hdemo & Hcond & Hsort & Henc & Hmed).
  rewrite (parse_bundle_resources parse bundle true rs r Hrs Hlast).
  rewrite Hdemo. simpl.
  rewrite (collect_condition_info_filter _ _ Hcond). simpl.
  rewrite Hsort. simpl. rewrite Henc. simpl. rewrite Hmed. simpl. done.
Qed.

(** X5. The patient's name has defaults only for missing keys. When the
    Patient resource that is used has no "name", the given and the family
    name of a returned [PatientInfo] are empty strings; when its "name" is
    an empty list, the call raises [IndexError], whatever else the bundle
    holds. *)
Theorem patient_name_edge_cases parse bundle filter_active rs kvs :
  bundle_resources bundle = Ok rs →
  last (filter (λ x, has_type "Patient" x) rs) = Some (JObj kvs) →
  (dict_lookup "name" kvs = None →
   ∀ p, parse_bundle parse bundle filter_active = Ok p →
        given_name p = "" ∧ family_name p = "")
  ∧ (dict_lookup "name" kvs = Some (JArr []) →
     parse_bundle parse bundle filter_active = Raise IndexError).
Proof.
  intros Hrs Hlast. split.
  - intros Hname p Hp.
    apply parse_bundle_Ok in Hp as (rs' & r & _ & Hrs' & Hlast' & Hdemo & _).
    rewrite Hrs in Hrs'. injection Hrs' as <-.
    rewrite Hlast in Hlast'. injection Hlast' as <-.
    unfold demographics, get_first in Hdemo. simpl in Hdemo.
    rewrite Hname in Hdemo. simpl in Hdemo. by injection Hdemo as <- <- _ _.
  - intros Hname. rewrite (parse_bundle_resources _ _ _ _ _ Hrs Hlast).
    unfold demographics, get_first. simpl. by rewrite Hname.
Qed.

Lemma current_medications_active_witness :
  ∃ p,
    parse_synthea_patient Demo.parse Examples.loads Examples.uploaded
      "meds.json" true = Ok p
    ∧ name <$> current_medications p = ["Albuterol inhaler"; "Hydrocortisone cream"]
    ∧ ∃ bundle rs,
        load_json Examples.loads Examples.uploaded "meds.json" = Ok bundle
        ∧ bundle_resources bundle = Ok rs
        ∧ Forall2 (λ m mi, medication_info m = Ok (Some mi))
            (filter (λ m, active_request m)
               (filter (λ x, has_type "MedicationRequest" x) rs))
            (current_medications p).
Proof.
  eexists. split; [vm_compute; reflexivity|]. split; [reflexivity|].
  apply (current_medications_active Demo.parse Examples.loads
           Examples.uploaded "meds.json" true).
  vm_compute; reflexivity.
Defined.

Lemma encounters_need_start_witness :
  get_encounter_date Demo.parse Examples.encounter_without_start
    = Raise AttributeError
  ∧ parse_synthea_patient Demo.parse Examples.loads Examples.uploaded
      "nostart.json" true = Raise AttributeError.
Proof.
  split; [|vm_compute; reflexivity].
  apply (proj1 (encounters_need_start Demo.parse Examples.loads
                  Examples.uploaded "nostart.json" true) _ JNull); reflexivity.
Defined.

Lemma other_resources_ignored_witness :
  parse_bundle Demo.parse Examples.with_medications true
  = parse_bundle Demo.parse Examples.without_observation true.
Proof.
  apply (other_resources_ignored Demo.parse _ _
           [Demo.patient "Alice" "Adams";
            Examples.medication_entry "Albuterol inhaler" "active"]
           Examples.observation
           [Examples.medication_entry "Prednisone" "stopped";
            Examples.medication_entry "Hydrocortisone cream" "active"]
           true
           (JObj [("resourceType", JStr "Observation"); ("status", JStr "final")]));
    reflexivity.
Defined.

Lemma filter_active_selects_witness :
  ∃ p,
    parse_synthea_patient Demo.parse Demo.json_loads Demo.uploads "full.json" false
      = Ok p
    ∧ length (conditions p) = 2
    ∧ parse_synthea_patient Demo.parse Demo.json_loads Demo.uploads "full.json" true
      = Ok {| given_name := given_name p; family_name := family_name p;
              birth_date := birth_date p; gender := gender p;
              conditions :=
                filter (λ ci, clinical_status ci = "active") (conditions p);
              recent_encounters := recent_encounters p;
              current_medications := current_medications p |}.
Proof.
  eexists. split; [vm_compute; reflexivity|]. split; [reflexivity|].
  apply (filter_active_selects Demo.parse Demo.json_loads Demo.uploads "full.json").
  vm_compute; reflexivity.
Defined.

Lemma patient_name_edge_cases_witness :
  (∃ p, parse_bundle Demo.parse Examples.nameless true = Ok p
        ∧ given_name p = "" ∧ family_name p = "")
  ∧ parse_bundle Demo.parse Examples.empty_name true = Raise IndexError.
Proof.
  split.
  - eexists. split; [vm_compute; reflexivity|].
    apply (proj1 (patient_name_edge_cases Demo.parse Examples.nameless true
                    [JObj [("resourceType", JStr "Patient"); ("gender", JStr "male")]]
                    [("resourceType", JStr "Patient"); ("gender", JStr "male")]
                    eq_refl eq_refl) eq_refl).
    vm_compute; reflexivity.
  - apply (proj2 (patient_name_edge_cases Demo.parse Examples.empty_name true
                    [JObj [("resourceType", JStr "Patient"); ("name", JArr [])]]
                    [("resourceType", JStr "Patient"); ("name", JArr [])]
                    eq_refl eq_refl) eq_refl).
Defined.

(** ** Steps: what they do when they fail *)

Section step_failures.
Variable ext : Externals.
Variable self : Workflow.

(** X6. When there is no patient cache and reading the uploaded file
    fails, [parse_patient_info] raises the parser's error and leaves
    everything as it was: no cache file is written, no capability is called,
    "patient_info" is not set and nothing is sent. *)
Theorem failed_parse_writes_no_cache patient_json_path st e :
  files (world st) !! patient_info_path self = None →
  parse_synthea_patient (dateutil_parse ext) (json_load ext) (files (world st))
    patient_json_path true = Raise e →
  ∃ st',
    run_step (parse_patient_info ext self patient_json_path) st = (st', Raise e)
    ∧ world st' = world st
    ∧ globals (context st') = globals (context st)
    ∧ outbox st' = outbox st.
Proof.
  intros Hfile Hparse. unfold parse_patient_info.
  rewrite !run_bind. unfold path_exists. cbn [run_step]. rewrite Hfile.
  rewrite bool_decide_eq_false_2 by (by intros [? [=]]).
  destruct (verbose self); cbn; rewrite Hparse; eexists; split_and!; reflexivity.
Qed.

(** X7. A patient cache that cannot be read is never replaced. When the
    cache file exists but its text does not load as JSON, or loads and does
    not validate as a [PatientInfo], [parse_patient_info] raises
    [JSONDecodeError], respectively [ValidationError], whatever file was
    uploaded, and leaves the files, the call counters, the Context keys and
    the outbox as they were. *)
Theorem unreadable_patient_cache_is_final patient_json_path st text :
  files (world st) !! patient_info_path self = Some text →
  (j ← json_load ext text; validate_patient_info ext j) = None →
  ∃ st',
    run_step (parse_patient_info ext self patient_json_path) st
    = (st', Raise match json_load ext text with
             | Some _ => ValidationError
             | None => JSONDecodeError
             end)
    ∧ world st' = world st
    ∧ globals (context st') = globals (context st)
    ∧ outbox st' = outbox st.
Proof.
  intros Hfile Hbad. unfold parse_patient_info, load_file.
  rewrite !run_bind. unfold path_exists. cbn [run_step]. rewrite Hfile.
  rewrite bool_decide_eq_true_2 by eauto.
  destruct (json_load ext text) as [j|] eqn:Hj; simpl in Hbad.
  - destruct (verbose self); cbn; rewrite Hfile; cbn; rewrite Hj; cbn;
      rewrite Hbad; eexists; split_and!; reflexivity.
  - destruct (verbose self); cbn; rewrite Hfile; cbn; rewrite Hj; cbn;
      eexists; split_and!; reflexivity.
Qed.

(** X8. An answer that is no [ConditionBundles] spoils the cache. When
    there is no bundle cache and the structured prediction hands back
    another object, the step has opened the cache file for writing before
    the dump fails: it raises [AttributeError] after its one prediction and
    leaves an empty cache file behind. If the empty text is no JSON
    document, every later invocation on these files raises
    [JSONDecodeError] and changes nothing, the capability is not asked
    again. *)
Theorem refused_bundles_poison_cache patient_info st raw :
  files (world st) !! condition_info_path self = None →
  predict_condition_bundles ext (dump_patient_info ext patient_info) = Ok (Other raw) →
  json_load ext "" = None →
  ∃ st',
    run_step (create_condition_bundles_step ext self patient_info) st
    = (st', Raise AttributeError)
    ∧ files (world st') = <[condition_info_path self := ""]> (files (world st))
    ∧ llm_calls (world st') = S (llm_calls (world st))
    ∧ ∀ patient_info' ctx outbox,
        run_step (create_condition_bundles_step ext self patient_info')
          {| world := world st'; context := ctx; outbox := outbox |}
        = ({| world := world st'; context := ctx; outbox := outbox |},
           Raise JSONDecodeError).
Proof.
  intros Hfile Hanswer Hempty.
  unfold create_condition_bundles_step, create_condition_bundles, load_file.
  rewrite !run_bind. unfold path_exists. cbn [run_step]. rewrite Hfile.
  rewrite bool_decide_eq_false_2 by (by intros [? [=]]).
  cbn. rewrite Hanswer. cbn. eexists. split_and!; [reflexivity..|].
  intros p' ctx out. rewrite !run_bind. cbn.
  rewrite lookup_insert_eq. rewrite bool_decide_eq_true_2 by eauto.
  cbn. rewrite lookup_insert_eq. cbn. by rewrite Hempty.
Qed.

(** The loop over the queries runs to its end when every retrieval
    answers. *)
Lemma fetch_loop_total qs d0 st :
  (∀ q, q ∈ qs → ∃ docs, retrieve ext q = Ok docs) →
  ∃ st' d,
    run_step
      (for_each (λ guideline_docs_dict query,
          when (verbose self) (log (">> - " +:+ capitalize ext query));;
          cur_guideline_docs ← retriever_retrieve (retrieve ext query);
          mret (dict_update guideline_docs_dict (docs_by_id cur_guideline_docs)))
        qs d0) st = (st', Ok d).
Proof.
  revert d0 st. induction qs as [|q qs IH]; intros d0 st Hqs.
  - by eexists _, _.
  - destruct (Hqs q) as [docs Hq]; [by left|].
    rewrite for_each_cons, !run_bind.
    destruct (verbose self); simpl; rewrite Hq; simpl; apply IH;
      intros q' Hq'; apply Hqs; by right.
Qed.

Lemma fetch_guidelines_total qs st :
  (∀ q, q ∈ qs → ∃ docs, retrieve ext q = Ok docs) →
  ∃ st' d,
    run_step (fetch_guidelines ext self qs) st = (st', Ok d)
    ∧ deduplicated ext qs d
    ∧ effect 0 (length qs) st st'.
Proof.
  intros Hqs. destruct (fetch_loop_total qs [] st Hqs) as (st' & d & Hrun).
  exists st', d. split; [done|].
  revert Hrun. generalize st' d.
  change (wp (fetch_guidelines ext self qs)
            (λ st' d, deduplicated ext qs d ∧ effect 0 (length qs) st st') st).
  apply wp_fetch_guidelines. done.
Qed.

Lemma handle_guideline_match_run bundle st p q :
  Context_get (context st) "patient_info" = Ok (VPatientInfo p) →
  predict_queries ext (demographic_str p) (dump_condition_bundle ext bundle)
    = Ok (InstanceOf q) →
  (∀ query, query ∈ queries q → ∃ docs, retrieve ext query = Ok docs) →
  ∃ st' d,
    deduplicated ext (queries q) d
    ∧ effect 2 (length (queries q)) st st'
    ∧ run_step (handle_guideline_match ext self bundle) st
      = (st',
         match predict_recommendation ext (demographic_str p)
                 (dump_condition_bundle ext bundle)
                 (join (newline +:+ newline) (content <$> d.*2)) with
         | Ok (InstanceOf r) => Ok (Some (MatchGuidelineResultEvent bundle r))
         | Ok (Other raw) =>
             Raise (if verbose self then AttributeError
                    else ValueError ("Invalid guideline recommendation: " +:+ raw))
         | Raise e => Raise e
         end).
Proof.
  intros Hp Hq Hqs.
  unfold handle_guideline_match.
  rewrite run_bind. unfold ctx_get at 1. cbn [run_step]. rewrite Hp.
  cbn [as_patient_info]. rewrite run_bind. cbn [run_step mret Step_ret].
  rewrite run_bind. unfold astructured_predict at 1. cbn [run_step]. rewrite Hq.
  rewrite run_bind. unfold log at 1, write_event_to_stream at 1. cbn [run_step].
  rewrite run_bind. cbn [run_step mret Step_ret].
  rewrite run_bind.
  match goal with |- context [run_step (fetch_guidelines ext self _) ?s] =>
    destruct (fetch_guidelines_total (queries q) s Hqs) as (st1 & d & -> & Hd & He)
  end.
  cbn beta iota zeta.
  destruct (predict_recommendation ext (demographic_str p)
              (dump_condition_bundle ext bundle)
              (join (newline +:+ newline) (content <$> d.*2)))
    as [[r|raw]|e] eqn:Hr;
    destruct (verbose self) eqn:Hv;
    eexists _, d; (split; [done|]); apply and_comm;
    (split; [cbn; rewrite ?Hr; cbn; reflexivity | effect_of]).
Qed.

(** X9. What [handle_guideline_match] does once its queries are there.
    With "patient_info" set, the query prediction answered by an instance
    and every retrieval answering, the step makes two structured predictions
    and one retrieval per query, leaves the Context keys, the event buffer,
    the outbox and the files alone, and ends according to the second
    prediction: it returns the result event when the recommendation is an
    instance; it raises the capability's error when the prediction raises;
    and when the recommendation is some other object it raises
    [AttributeError] if the workflow is verbose, where the pretty-printing
    comes before the [isinstance] check, and the check's [ValueError]
    otherwise. *)
Theorem handle_guideline_match_total bundle st p q :
  Context_get (context st) "patient_info" = Ok (VPatientInfo p) →
  predict_queries ext (demographic_str p) (dump_condition_bundle ext bundle)
    = Ok (InstanceOf q) →
  (∀ query, query ∈ queries q → ∃ docs, retrieve ext query = Ok docs) →
  ∃ st' d,
    deduplicated ext (queries q) d
    ∧ effect 2 (length (queries q)) st st'
    ∧ run_step (handle_guideline_match ext self bundle) st
      = (st',
         match predict_recommendation ext (demographic_str p)
                 (dump_condition_bundle ext bundle)
                 (join (newline +:+ newline) (content <$> d.*2)) with
         | Ok (InstanceOf r) => Ok (Some (MatchGuidelineResultEvent bundle r))
         | Ok (Other raw) =>
             Raise (if verbose self then AttributeError
                    else ValueError ("Invalid guideline recommendation: " +:+ raw))
         | Raise e => Raise e
         end).
Proof. apply handle_guideline_match_run. Qed.

Lemma arrive_short_world n received pending st :
  Context_get (context st) "num_conditions" = Ok (VInt (Z.of_nat n)) →
  buffered (events_buffer (context st)) TMatchGuidelineResultEvent
    = result_event <$> received →
  length received + length pending < n →
  world (arrive ext self (result_event <$> pending) st).1 = world st.
Proof.
  revert received st. induction pending as [|br pending IH]; [done|].
  intros received st Hn Hbuf Hlen.
  destruct (gather_guideline_match_run ext self n received br st Hn Hbuf)
    as (ctx' & Hglobals & Hrun).
  rewrite fmap_cons, arrive_cons.
  rewrite decide_False in Hrun by (simpl in Hlen; lia).
  rewrite decide_False in Hrun by (simpl in Hlen; lia).
  destruct Hrun as [-> Hbuf'].
  specialize (IH (received ++ [br])
                {| world := world st; context := ctx'; outbox := outbox st |}).
  destruct (arrive ext self (result_event <$> pending) _) as [st2 rs].
  simpl in IH |- *. rewrite IH; [done| | |].
  - unfold Context_get in *. by rewrite Hglobals.
  - done.
  - rewrite length_app. simpl in *. lia.
Qed.

Lemma arrive_pending_world n received pending st :
  Context_get (context st) "num_conditions" = Ok (VInt (Z.of_nat n)) →
  buffered (events_buffer (context st)) TMatchGuidelineResultEvent
    = result_event <$> received →
  n = length received + length pending →
  pending ≠ [] →
  world (arrive ext self (result_event <$> pending) st).1
  = world (gathered ext self (context st) (received ++ pending) st).
Proof.
  revert received st. induction pending as [|br pending IH]; [done|].
  intros received st Hn Hbuf Hlen _.
  destruct (gather_guideline_match_run ext self n received br st Hn Hbuf)
    as (ctx' & Hglobals & Hrun).
  rewrite fmap_cons, arrive_cons.
  destruct pending as [|br' pending].
  - rewrite decide_True in Hrun by (simpl in Hlen; lia).
    destruct Hrun as [-> _]. done.
  - rewrite decide_False in Hrun by (simpl in Hlen; lia).
    rewrite decide_False in Hrun by (simpl in Hlen; lia).
    destruct Hrun as [-> Hbuf'].
    specialize (IH (received ++ [br])
                  {| world := world st; context := ctx'; outbox := outbox st |}).
    destruct (arrive ext self (result_event <$> br' :: pending) _) as [st2 rs].
    simpl in IH |- *. rewrite IH.
    + by rewrite <-app_assoc.
    + unfold Context_get in *. by rewrite Hglobals.
    + done.
    + rewrite length_app. simpl in *. lia.
    + done.
Qed.

(** X10. The recommendations file is written when the collection is
    released, not before. With [n] conditions published and no result
    buffered, let the results reach [gather_guideline_match] one after the
    other. While fewer than [n] have arrived the files and the call counters
    are as they were; once all [n] have arrived ([n] at least 1) the file
    holds the dumped recommendations, one line each, in the order of
    arrival, and nothing else in the world has changed. *)
Theorem recommendations_saved_on_release n results st :
  Context_get (context st) "num_conditions" = Ok (VInt (Z.of_nat n)) →
  buffered (events_buffer (context st)) TMatchGuidelineResultEvent = [] →
  let st' := (arrive ext self (result_event <$> results) st).1 in
  (length results < n → world st' = world st)
  ∧ (length results = n → n ≠ 0 →
     files (world st')
     = <[recs_path self :=
           String.concat ""
             ((λ br, dump_recommendation ext br.2 +:+ newline) <$> results)]>
         (files (world st))
     ∧ llm_calls (world st') = llm_calls (world st)
     ∧ retriever_calls (world st') = retriever_calls (world st)).
Proof.
  intros Hn Hbuf. cbv zeta. split.
  - intros Hlen. by apply (arrive_short_world n []).
  - intros Hlen Hn0.
    rewrite (arrive_pending_world n [] results st); [done..| |].
    + simpl. lia.
    + intros ->. simpl in Hlen. lia.
Qed.

End step_failures.

(** ** Steps that do not look at a file *)

Ltac solve_same_but :=
  unfold St_same_but, same_but in *; simpl in *; destruct_and?; split_and!;
  congruence.

Section blind.
Variable f : string.

Lemma same_but_lookup w1 w2 k :
  same_but f w1 w2 → k ≠ f → files w1 !! k = files w2 !! k.
Proof.
  intros (Hfiles & _) Hk.
  rewrite <-(lookup_delete_ne (files w1) f k), <-(lookup_delete_ne (files w2) f k)
    by done.
  by rewrite Hfiles.
Qed.

Lemma same_but_insert w1 w2 k v :
  same_but f w1 w2 →
  same_but f
    {| files := <[k := v]> (files w1); llm_calls := llm_calls w1;
       retriever_calls := retriever_calls w1 |}
    {| files := <[k := v]> (files w2); llm_calls := llm_calls w2;
       retriever_calls := retriever_calls w2 |}.
Proof.
  intros (Hfiles & ? & ?). split_and!; [|done..]. simpl.
  destruct (decide (k = f)) as [->|Hk].
  - by rewrite !delete_insert_eq.
  - by rewrite !delete_insert_ne, Hfiles.
Qed.

Lemma blind_bind {A B} (m : Step A) (k : A → Step B) :
  blind f m → (∀ a, blind f (k a)) → blind f (m ≫= k).
Proof.
  intros Hm Hk st1 st2 Hst. rewrite !run_bind.
  destruct (Hm st1 st2 Hst) as [Hst' Hr].
  destruct (run_step m st1) as [st1' r1], (run_step m st2) as [st2' r2].
  simpl in *. subst r2. destruct r1 as [a|e]; [by apply Hk|done].
Qed.

Lemma blind_mret {A} (a : A) : blind f (mret a).
Proof. by intros st1 st2 Hst. Qed.

Lemma blind_raise {A} e : blind f (raise e : Step A).
Proof. by intros st1 st2 Hst. Qed.

Lemma blind_lift {A} (r : Result A) : blind f (lift r).
Proof. by intros st1 st2 Hst. Qed.

Lemma blind_when b m : blind f m → blind f (when b m).
Proof. destruct b; [done|]. intros _. apply blind_mret. Qed.

Lemma blind_for_each {A B} (body : B → A → Step B) l b :
  (∀ b x, blind f (body b x)) → blind f (for_each body l b).
Proof.
  intros Hbody. revert b. induction l as [|x l IH]; intros b.
  - apply blind_mret.
  - rewrite for_each_cons. by apply blind_bind.
Qed.

Lemma blind_path_exists path : path ≠ f → blind f (path_exists path).
Proof.
  intros Hp st1 st2 Hst. split; [done|]. simpl.
  by rewrite (same_but_lookup _ _ path (proj1 Hst) Hp).
Qed.

Lemma blind_read_text path : path ≠ f → blind f (read_text path).
Proof.
  intros Hp st1 st2 Hst. unfold read_text. simpl.
  rewrite (same_but_lookup _ _ path (proj1 Hst) Hp).
  by destruct (files (world st2) !! path).
Qed.

Lemma blind_write_text path text : blind f (write_text path text).
Proof.
  intros st1 st2 (Hw & Hc & Ho). split; [|done]. split_and!; [|done..].
  by apply same_but_insert.
Qed.

Lemma blind_astructured_predict {A} (answer : Result (Returned A)) :
  blind f (astructured_predict answer).
Proof.
  intros st1 st2 ((Hfiles & Hl & Hr) & Hc & Ho). split; [|done].
  solve_same_but.
Qed.

Lemma blind_retriever_retrieve answer : blind f (retriever_retrieve answer).
Proof.
  intros st1 st2 ((Hfiles & Hl & Hr) & Hc & Ho). split; [|done].
  solve_same_but.
Qed.

Lemma blind_ctx_set key v : blind f (ctx_set key v).
Proof.
  intros st1 st2 (Hw & Hc & Ho). split; [|done]. solve_same_but.
Qed.

Lemma blind_ctx_get key : blind f (ctx_get key).
Proof.
  intros st1 st2 (Hw & Hc & Ho). split; [done|]. simpl. congruence.
Qed.

Lemma blind_ctx_collect_events ev expected :
  blind f (ctx_collect_events ev expected).
Proof.
  intros st1 st2 (Hw & Hc & Ho). unfold ctx_collect_events. simpl.
  rewrite Hc. destruct (collect_events _ _ _). by split.
Qed.

Lemma blind_log msg : blind f (log msg).
Proof.
  intros st1 st2 (Hw & Hc & Ho). split; [|done]. solve_same_but.
Qed.

Lemma blind_send_event ev : blind f (send_event ev).
Proof.
  intros st1 st2 (Hw & Hc & Ho). split; [|done]. solve_same_but.
Qed.

Lemma blind_as_patient_info v : blind f (as_patient_info v).
Proof. destruct v; [apply blind_mret|apply blind_raise]. Qed.

Lemma blind_as_count v : blind f (as_count v).
Proof. destruct v; [apply blind_raise|apply blind_mret]. Qed.

End blind.

Ltac blind_step :=
  first
    [ apply blind_bind; [|intros ?]
    | apply blind_mret
    | apply blind_raise
    | apply blind_lift
    | apply blind_when
    | apply blind_for_each; intros ? ?
    | apply blind_path_exists; done
    | apply blind_read_text; done
    | apply blind_write_text
    | apply blind_astructured_predict
    | apply blind_retriever_retrieve
    | apply blind_ctx_set
    | apply blind_ctx_get
    | apply blind_ctx_collect_events
    | apply blind_log
    | apply blind_send_event
    | apply blind_as_patient_info
    | apply blind_as_count
    | progress lazy zeta
    | match goal with
      | |- blind _ (match ?x with _ => _ end) => destruct x
      | |- blind _ (if ?b then _ else _) => destruct b
      end ].

Section blind_steps.
Variable ext : Externals.
Variable self : Workflow.
Variable f : string.
Hypothesis not_patient_info : f ≠ patient_info_path self.
Hypothesis not_condition_info : f ≠ condition_info_path self.

Lemma blind_create_condition_bundles_step patient_info :
  blind f (create_condition_bundles_step ext self patient_info).
Proof.
  unfold create_condition_bundles_step, create_condition_bundles, load_file.
  repeat blind_step.
Qed.

Lemma blind_dispatch_guideline_match bs : blind f (dispatch_guideline_match bs).
Proof. unfold dispatch_guideline_match. repeat blind_step. Qed.

Lemma blind_handle_guideline_match bundle :
  blind f (handle_guideline_match ext self bundle).
Proof. unfold handle_guideline_match, fetch_guidelines. repeat blind_step. Qed.

Lemma blind_gather_guideline_match ev :
  blind f (gather_guideline_match ext self ev).
Proof. unfold gather_guideline_match. repeat blind_step. Qed.

Lemma blind_generate_output info : blind f (generate_output ext self info).
Proof. unfold generate_output. repeat blind_step. Qed.

(** With the patient cache in place, [parse_patient_info] looks neither at
    the path it is given nor at the file [f]. *)
Lemma parse_patient_info_cached_blind path1 path2 st1 st2 :
  St_same_but f st1 st2 →
  is_Some (files (world st1) !! patient_info_path self) →
  St_same_but f (run_step (parse_patient_info ext self path1) st1).1
    (run_step (parse_patient_info ext self path2) st2).1
  ∧ (run_step (parse_patient_info ext self path1) st1).2
    = (run_step (parse_patient_info ext self path2) st2).2.
Proof.
  intros Hst Hcached.
  assert (is_Some (files (world st2) !! patient_info_path self)) as Hcached2.
  { by rewrite <-(same_but_lookup f _ _ _ (proj1 Hst)). }
  set (cached :=
    patient_info ←
      (when (verbose self) (log "## 🙍 Patient Info");;
       patient_info_dict ← load_file ext (patient_info_path self);
       match validate_patient_info ext patient_info_dict with
       | Some p => mret p
       | None => raise ValidationError
       end);
    when (verbose self)
      (log (">> " +:+ newline +:+ "```json" +:+ newline
            +:+ pretty_patient_info ext patient_info +:+ newline +:+ "```"));;
    ctx_set "patient_info" (VPatientInfo patient_info);;
    mret (Some (PatientInfoEvent patient_info))).
  assert (∀ path st, is_Some (files (world st) !! patient_info_path self) →
            run_step (parse_patient_info ext self path) st = run_step cached st)
    as Heq.
  { intros path st Hst'. unfold parse_patient_info. rewrite run_bind.
    unfold path_exists. cbn [run_step]. by rewrite bool_decide_eq_true_2. }
  rewrite !Heq by done.
  assert (blind f cached) as Hblind.
  { unfold cached, load_file. repeat blind_step. }
  by apply Hblind.
Qed.

(** The handler of every event but the start event is blind. *)
Lemma blind_handler s ev :
  type_of ev ≠ TStartEvent → blind f (handler ext self s ev).
Proof using not_patient_info not_condition_info.
  intros Hev. destruct s, ev; try done; cbv beta iota delta [handler];
    first [ apply blind_raise
          | by apply blind_create_condition_bundles_step
          | apply blind_dispatch_guideline_match
          | apply blind_handle_guideline_match
          | apply blind_gather_guideline_match
          | apply blind_generate_output ].
Qed.

(** No step sends or returns a start event. *)
Lemma handler_emits_no_start s ev st st' returned :
  run_step (handler ext self s ev) st = (st', Ok returned) →
  started (outbox st) →
  started (outbox st' ++ option_list returned).
Proof.
  unfold started. intros Hrun Hout.
  destruct s, ev; cbv beta iota delta [handler] in Hrun; try discriminate.
  - apply parse_patient_info_spec in Hrun as (p & -> & _ & _ & -> & _).
    apply Forall_app. split; [done|]. by repeat constructor.
  - apply create_condition_bundles_step_spec in Hrun as (cb & -> & _ & -> & _).
    apply Forall_app. split; [done|]. by repeat constructor.
  - rewrite dispatch_guideline_match_spec in Hrun. injection Hrun as <- <-.
    simpl. rewrite app_nil_r. apply Forall_app. split; [done|].
    by apply Forall_fmap, Forall_forall.
  - apply handle_guideline_match_spec in Hrun
      as (p & q & d & r & _ & _ & _ & _ & -> & (_ & _ & -> & _)).
    apply Forall_app. split; [done|]. by repeat constructor.
  - apply gather_guideline_match_spec in Hrun
      as (n & _ & _ & -> & _ & _ & Hret).
    apply Forall_app. split; [done|].
    destruct (collect_events _ _ _).2.
    + destruct Hret as (results & _ & ->). by repeat constructor.
    + destruct Hret as [-> _]. constructor.
  - apply generate_output_spec in Hrun
      as (p & answer & _ & _ & -> & (_ & _ & -> & _)).
    apply Forall_app. split; [done|]. by repeat constructor.
Qed.

End blind_steps.

Section blind_runs.
Variable ext : Externals.
Variable self : Workflow.
Variable f : string.
Hypothesis not_patient_info : f ≠ patient_info_path self.
Hypothesis not_condition_info : f ≠ condition_info_path self.

Lemma deliver_same_but reg ev w1 w2 ctx rest :
  same_but f w1 w2 →
  type_of ev ≠ TStartEvent →
  started rest →
  Run_same_but f (deliver ext self reg ev w1 ctx rest)
    (deliver ext self reg ev w2 ctx rest).
Proof using not_patient_info not_condition_info.
  intros Hw Hev Hrest. unfold deliver.
  destruct (reg !! type_of ev) as [s|] eqn:Hs.
  - pose proof (blind_handler ext self f not_patient_info not_condition_info
                  s ev Hev
                  {| world := w1; context := ctx; outbox := [] |}
                  {| world := w2; context := ctx; outbox := [] |}) as Hblind.
    destruct Hblind as [(Hw' & Hc' & Ho') Hr]; [done|].
    pose proof (handler_emits_no_start ext self s ev
                  {| world := w1; context := ctx; outbox := [] |}) as Hemit.
    destruct (run_step (handler ext self s ev)
                {| world := w1; context := ctx; outbox := [] |}) as [st1 r1].
    destruct (run_step (handler ext self s ev)
                {| world := w2; context := ctx; outbox := [] |}) as [st2 r2].
    simpl in *. subst r2.
    destruct ev; try done; destruct r1 as [returned|e]; simpl; try done.
    all: rewrite <-Ho'; split_and!; try done.
    all: apply Forall_app; split; [done|].
    all: apply (Hemit st1 returned eq_refl); constructor.
  - destruct ev; done.
Qed.

Lemma sched_step_same_but reg r1 r2 i :
  Run_same_but f r1 r2 →
  Run_same_but f (sched_step ext self reg r1 i) (sched_step ext self reg r2 i).
Proof using not_patient_info not_condition_info.
  destruct r1 as [w1 ctx1 queue1| |], r2 as [w2 ctx2 queue2| |]; try done.
  intros (Hw & <- & <- & Hq). simpl.
  destruct (queue1 !! i) as [ev|] eqn:Hev; [|done].
  apply deliver_same_but; [done| |].
  - unfold started in Hq. rewrite Forall_lookup in Hq. by eapply Hq.
  - by apply Forall_delete.
Qed.

Lemma run_schedule_same_but reg sched r1 r2 :
  Run_same_but f r1 r2 →
  Run_same_but f (run_schedule ext self reg sched r1)
    (run_schedule ext self reg sched r2).
Proof using not_patient_info not_condition_info.
  revert r1 r2. unfold run_schedule.
  induction sched as [|i sched IH]; intros r1 r2 Hr; [done|]. simpl.
  by apply IH, sched_step_same_but.
Qed.

Lemma outcome_same_but r1 r2 : Run_same_but f r1 r2 → outcome r1 = outcome r2.
Proof.
  destruct r1, r2; try done; simpl.
  - by intros (_ & -> & ->).
  - by intros (_ & _ & ->).
Qed.

Lemma run_workflow_async_same_but sched w1 w2 path1 path2 :
  same_but f w1 w2 →
  is_Some (files w1 !! patient_info_path self) →
  run_workflow_async ext self sched w1 path1
  = run_workflow_async ext self sched w2 path2.
Proof using not_patient_info not_condition_info.
  intros Hw Hcached. unfold run_workflow_async. rewrite construct_step_table.
  assert (∀ sched,
            (run_schedule ext self (list_to_map step_table) sched (start w1 path1)
               = start w1 path1
             ∧ run_schedule ext self (list_to_map step_table) sched (start w2 path2)
               = start w2 path2)
            ∨ Run_same_but f
                (run_schedule ext self (list_to_map step_table) sched (start w1 path1))
                (run_schedule ext self (list_to_map step_table) sched (start w2 path2)))
    as Hinv.
  { clear sched. intros sched. induction sched as [|i sched IH] using rev_ind.
    { by left. }
    rewrite !run_schedule_app. destruct IH as [[-> ->]|IH].
    - destruct i as [|i]; [|by left]. right.
      change (Run_same_but f
                (deliver ext self (list_to_map step_table) (StartEvent path1)
                   w1 new_context [])
                (deliver ext self (list_to_map step_table) (StartEvent path2)
                   w2 new_context [])).
      unfold deliver.
      rewrite (registry_of_event (StartEvent path1)),
        (registry_of_event (StartEvent path2)).
      cbv beta iota delta [handler].
      destruct (parse_patient_info_cached_blind ext self f not_patient_info
                  path1 path2
                  {| world := w1; context := new_context; outbox := [] |}
                  {| world := w2; context := new_context; outbox := [] |})
        as [(Hw' & Hc' & Ho') Hr]; [done..|].
      pose proof (handler_emits_no_start ext self step_parse_patient_info
                    (StartEvent path1)
                    {| world := w1; context := new_context; outbox := [] |})
        as Hemit.
      cbv beta iota delta [handler] in Hemit.
      destruct (run_step (parse_patient_info ext self path1) _) as [st1 r1].
      destruct (run_step (parse_patient_info ext self path2) _) as [st2 r2].
      simpl in *. subst r2. destruct r1 as [returned|e]; simpl; [|done].
      rewrite <-Ho'. split_and!; try done.
      apply (Hemit st1 returned eq_refl). constructor.
    - right. by apply sched_step_same_but. }
  destruct (Hinv sched) as [[-> ->]|Hsame]; [done|].
  by apply outcome_same_but.
Qed.

(** X11. Once the patient cache exists the upload is ignored. Take two
    worlds that differ at most in the content of one file [f], which is
    neither of the two cache files, and let the patient cache exist. Under
    every schedule [run_workflow_async] ends the same way on both (the same
    log and result, the same error, or waiting in both), whichever paths it
    is given. *)
Theorem cached_patient_hides_upload sched w1 w2 path1 path2 :
  same_but f w1 w2 →
  is_Some (files w1 !! patient_info_path self) →
  run_workflow_async ext self sched w1 path1
  = run_workflow_async ext self sched w2 path2.
Proof using not_patient_info not_condition_info.
  apply run_workflow_async_same_but.
Qed.

End blind_runs.

(** ** The files a run leaves behind *)

Section backed.
Variable ext : Externals.
Variable self : Workflow.

(** A [gather_guideline_match] that returns an event has saved the
    recommendations; no step removes a file. *)
Lemma gather_guideline_match_files ev st :
  wp (gather_guideline_match ext self ev)
    (λ st' returned,
       (∀ path, is_Some (files (world st) !! path) →
                is_Some (files (world st') !! path))
       ∧ (is_Some returned → is_Some (files (world st') !! recs_path self))) st.
Proof.
  unfold gather_guideline_match. wp_auto.
  all: simpl; split.
  - intros path Hpath. rewrite lookup_insert_is_Some'. by right.
  - intros _. by rewrite lookup_insert_eq.
  - done.
  - by intros [? [=]].
Qed.

Lemma backed_mono w w' ev :
  (∀ path, is_Some (files w !! path) → is_Some (files w' !! path)) →
  backed self w ev → backed self w' ev.
Proof. intros Hsub Hev path Hpath. by apply Hsub, Hev. Qed.

Lemma sched_step_backed r i :
  all_backed self r →
  all_backed self (sched_step ext self (list_to_map step_table) r i).
Proof.
  destruct r as [w ctx queue| |]; [|done..]. simpl. intros Hq.
  destruct (queue !! i) as [ev|] eqn:Hev; [|done].
  pose proof (Forall_lookup_1 _ _ _ _ Hq Hev) as Hbacked.
  assert (Forall (backed self w) (delete i queue)) as Hrest.
  { by apply Forall_delete. }
  unfold deliver. rewrite registry_of_event.
  destruct ev as [path|p|bs|b|b rec|info|result|msg delta]; try done.
  - (* StartEvent *)
    cbv beta iota delta [handler].
    destruct (run_step _ _) as [st [returned|e]] eqn:Hrun; [|done].
    apply parse_patient_info_spec in Hrun
      as (p & -> & _ & _ & -> & _ & _ & Hfiles). simpl in *.
    assert (is_Some (files (world st) !! patient_info_path self)
            ∧ ∀ path, is_Some (files w !! path) → is_Some (files (world st) !! path))
      as [Hnew Hsub].
    { destruct (files w !! patient_info_path self) as [text|] eqn:Hpi.
      - destruct Hfiles as [-> _]. by rewrite Hpi.
      - destruct Hfiles as [_ ->]. rewrite lookup_insert_eq. split; [done|].
        intros path' ?. rewrite lookup_insert_is_Some'. by right. }
    rewrite ?app_nil_l. apply Forall_app. split.
    + eapply Forall_impl; [done|]. intros ev. by apply backed_mono.
    + repeat constructor. by intros k [->|[]%elem_of_nil]%elem_of_cons.
  - (* PatientInfoEvent *)
    cbv beta iota delta [handler].
    destruct (run_step _ _) as [st [returned|e]] eqn:Hrun; [|done].
    apply create_condition_bundles_step_spec in Hrun
      as (cb & -> & _ & -> & _ & Hfiles). simpl in *.
    assert (is_Some (files (world st) !! condition_info_path self)
            ∧ ∀ path, is_Some (files w !! path) → is_Some (files (world st) !! path))
      as [Hnew Hsub].
    { destruct (files w !! condition_info_path self) as [text|] eqn:Hci.
      - destruct Hfiles as [-> _]. by rewrite Hci.
      - destruct Hfiles as (_ & _ & ->). rewrite lookup_insert_eq. split; [done|].
        intros path' ?. rewrite lookup_insert_is_Some'. by right. }
    rewrite ?app_nil_l. apply Forall_app. split.
    + eapply Forall_impl; [done|]. intros ev. by apply backed_mono.
    + repeat constructor.
      intros k [->|[->|[]%elem_of_nil]%elem_of_cons]%elem_of_cons; [|done].
      apply Hsub, Hbacked. by left.
  - (* ConditionBundleEvent *)
    cbv beta iota delta [handler].
    rewrite dispatch_guideline_match_spec. simpl.
    rewrite app_nil_r. apply Forall_app. split; [done|].
    apply Forall_fmap, Forall_forall. intros b _. exact Hbacked.
  - (* MatchGuidelineEvent *)
    cbv beta iota delta [handler].
    destruct (run_step _ _) as [st [returned|e]] eqn:Hrun; [|done].
    apply handle_guideline_match_spec in Hrun
      as (p & q & d & r & _ & _ & _ & _ & -> & (_ & _ & -> & Hfiles & _)).
    simpl in *.
    assert (∀ ev, backed self w ev → backed self (world st) ev) as Hsame.
    { intros ev Hb path Hpath. rewrite Hfiles. by apply Hb. }
    rewrite ?app_nil_l. apply Forall_app. split.
    + eapply Forall_impl; [done|]. exact Hsame.
    + repeat constructor. by apply (Hsame (MatchGuidelineEvent b)).
  - (* MatchGuidelineResultEvent *)
    cbv beta iota delta [handler].
    destruct (run_step _ _) as [st [returned|e]] eqn:Hrun; [|done].
    pose proof Hrun as Hrun'.
    apply gather_guideline_match_files in Hrun' as [Hsub Hrecs].
    apply gather_guideline_match_spec in Hrun
      as (n & _ & _ & -> & _ & _ & Hret). simpl in *.
    rewrite ?app_nil_l. apply Forall_app. split.
    + eapply Forall_impl; [done|]. intros ev. by apply backed_mono.
    + destruct (collect_events _ _ _).2.
      * destruct Hret as (results & _ & ->). repeat constructor.
        intros k [->|[->|[->|[]%elem_of_nil]%elem_of_cons]%elem_of_cons]%elem_of_cons.
        -- apply Hsub, Hbacked. by left.
        -- apply Hsub, Hbacked. right. by left.
        -- by apply Hrecs.
      * destruct Hret as [-> _]. constructor.
  - (* GenerateCaseSummaryEvent *)
    cbv beta iota delta [handler].
    destruct (run_step _ _) as [st [returned|e]] eqn:Hrun; [|done].
    apply generate_output_spec in Hrun
      as (p & answer & _ & _ & -> & (_ & _ & -> & Hfiles & _)). simpl in *.
    assert (∀ ev, backed self w ev → backed self (world st) ev) as Hsame.
    { intros ev Hb path Hpath. rewrite Hfiles. by apply Hb. }
    rewrite ?app_nil_l. apply Forall_app. split.
    + eapply Forall_impl; [done|]. exact Hsame.
    + repeat constructor. by apply (Hsame (GenerateCaseSummaryEvent info)).
Qed.

(** X12. A run that completes has written its three output files: when
    the run reaches the terminal event, the patient cache, the bundle cache
    and the recommendations file all exist, under every schedule and from
    every initial world. *)
Theorem completed_run_leaves_files sched w patient_json_path w' ctx result :
  run_schedule ext self (list_to_map step_table) sched (start w patient_json_path)
    = Completed w' ctx result →
  is_Some (files w' !! patient_info_path self)
  ∧ is_Some (files w' !! condition_info_path self)
  ∧ is_Some (files w' !! recs_path self).
Proof.
  intros Hrun.
  assert (all_backed self (start w patient_json_path)) as Hstart.
  { simpl. repeat constructor. by intros k ?%elem_of_nil. }
  pose proof (run_schedule_invariant ext self (all_backed self) _
                sched_step_backed sched _ Hstart) as Hinv.
  rewrite Hrun in Hinv. simpl in Hinv.
  split_and!; apply Hinv; set_solver.
Qed.

End backed.

(** ** A whole run, events routed in the order they were queued *)

Lemma append_inj_r (s a b : string) : s +:+ a = s +:+ b → a = b.
Proof. induction s as [|c s IH]; simpl; [done|]. intros [= H]. by apply IH. Qed.

Section fifo.
Variable ext : Externals.
Variable self : Workflow.

Lemma sched_step_head ev rest w ctx :
  sched_step ext self (list_to_map step_table) (Running w ctx (ev :: rest)) 0
  = deliver ext self (list_to_map step_table) ev w ctx rest.
Proof. reflexivity. Qed.

Lemma run_schedule_cons i sched r :
  run_schedule ext self (list_to_map step_table) (i :: sched) r
  = run_schedule ext self (list_to_map step_table) sched (sched_step ext self (list_to_map step_table) r i).
Proof. reflexivity. Qed.

Lemma run_schedule_head ev rest w ctx :
  run_schedule ext self (list_to_map step_table) [0] (Running w ctx (ev :: rest))
  = deliver ext self (list_to_map step_table) ev w ctx rest.
Proof. reflexivity. Qed.

Lemma parse_patient_info_fresh patient_json_path st p :
  files (world st) !! patient_info_path self = None →
  parse_synthea_patient (dateutil_parse ext) (json_load ext) (files (world st))
    patient_json_path true = Ok p →
  ∃ st',
    run_step (parse_patient_info ext self patient_json_path) st
    = (st', Ok (Some (PatientInfoEvent p)))
    ∧ files (world st')
      = <[patient_info_path self := dump_patient_info ext p]> (files (world st))
    ∧ globals (context st')
      = <["patient_info" := VPatientInfo p]> (globals (context st))
    ∧ events_buffer (context st') = events_buffer (context st)
    ∧ outbox st' = outbox st.
Proof.
  intros Hfile Hparse. unfold parse_patient_info.
  rewrite !run_bind. unfold path_exists. cbn [run_step]. rewrite Hfile.
  rewrite bool_decide_eq_false_2 by (by intros [? [=]]).
  destruct (verbose self); cbn; rewrite Hparse; cbn; eexists; split_and!;
    reflexivity.
Qed.

Lemma create_condition_bundles_fresh patient_info st cb :
  files (world st) !! condition_info_path self = None →
  predict_condition_bundles ext (dump_patient_info ext patient_info)
    = Ok (InstanceOf cb) →
  ∃ st',
    run_step (create_condition_bundles_step ext self patient_info) st
    = (st', Ok (Some (ConditionBundleEvent cb)))
    ∧ context st' = context st
    ∧ outbox st' = outbox st.
Proof.
  intros Hfile Hanswer.
  unfold create_condition_bundles_step, create_condition_bundles.
  rewrite !run_bind. unfold path_exists. cbn [run_step]. rewrite Hfile.
  rewrite bool_decide_eq_false_2 by (by intros [? [=]]).
  cbn. rewrite Hanswer. cbn. eexists. split_and!; reflexivity.
Qed.

Lemma generate_output_total info st p answer :
  Context_get (context st) "patient_info" = Ok (VPatientInfo p) →
  predict_case_summary ext (demographic_str p)
    (join (newline +:+ newline)
       ((λ br, generate_condition_guideline_str ext br.1 br.2) <$> info))
    = Ok answer →
  ∃ st',
    run_step (generate_output ext self info) st = (st', Ok (Some (StopEvent answer)))
    ∧ outbox st' = outbox st.
Proof.
  intros Hp Hanswer. unfold generate_output.
  rewrite run_bind.
  assert (∀ st0 : St, context st0 = context st ∨
            (∃ msg, context st0 = {| globals := globals (context st);
                                events_buffer := events_buffer (context st);
                                stream := stream (context st) ++ [msg] |}) →
            Context_get (context st0) "patient_info" = Ok (VPatientInfo p)) as Hp'.
  { intros st0 [->|[msg ->]]; [done|]. exact Hp. }
  destruct (verbose self); cbn [when run_step log write_event_to_stream mret Step_ret];
    rewrite run_bind; unfold ctx_get at 1; cbn [run_step];
    (rewrite Hp'; [|simpl; eauto]);
    cbn [as_patient_info]; rewrite !run_bind; cbn [run_step mret Step_ret];
    unfold astructured_predict; cbn [run_step]; rewrite Hanswer;
    eexists; split; reflexivity.
Qed.

Section handle.
Variable p : PatientInfo.

Lemma handle_phase todo waiting w ctx :
  Context_get ctx "patient_info" = Ok (VPatientInfo p) →
  Forall (matchable ext p) todo →
  ∃ w' ctx' results,
    run_schedule ext self (list_to_map step_table) (replicate (length todo) 0)
      (Running w ctx ((MatchGuidelineEvent <$> todo) ++ waiting))
    = Running w' ctx' (waiting ++ (result_event <$> results))
    ∧ results.*1 = todo
    ∧ Forall (recommended ext p) results
    ∧ globals ctx' = globals ctx
    ∧ events_buffer ctx' = events_buffer ctx.
Proof.
  revert waiting w ctx. induction todo as [|b todo IH]; intros waiting w ctx Hp Hall.
  - exists w, ctx, []. simpl. by rewrite app_nil_r.
  - apply Forall_cons in Hall as [(q & Hq & Hqs & Hrec) Hall].
    destruct (handle_guideline_match_run ext self b
                {| world := w; context := ctx; outbox := [] |} p q Hp Hq Hqs)
      as (st' & d & _ & (Hg & Hb & Ho & _) & Hrun).
    destruct (Hrec (join (newline +:+ newline) (content <$> d.*2))) as [r Hr].
    rewrite Hr in Hrun. simpl in Hg, Hb, Ho.
    rewrite fmap_cons. cbn [length replicate app]. rewrite run_schedule_cons.
    rewrite sched_step_head. unfold deliver.
    rewrite (registry_of_event (MatchGuidelineEvent b)).
    cbv beta iota delta [handler]. rewrite Hrun, Ho. simpl (option_list _).
    cbn [app].
    rewrite <-app_assoc.
    destruct (IH (waiting ++ [MatchGuidelineResultEvent b r]) (world st') (context st'))
      as (w' & ctx' & results & -> & Hres & Hrecs & Hg' & Hb'); [|done|].
    { unfold Context_get in *. by rewrite Hg. }
    exists w', ctx', ((b, r) :: results). split_and!.
    + by rewrite <-app_assoc.
    + rewrite fmap_cons. by rewrite Hres.
    + constructor; [|done]. by eexists.
    + congruence.
    + congruence.
Qed.

End handle.

Lemma deliver_result_event br w ctx rest :
  deliver ext self (list_to_map step_table) (result_event br) w ctx rest
  = match run_step (gather_guideline_match ext self (result_event br))
            {| world := w; context := ctx; outbox := [] |} with
    | (st, Ok returned) =>
        Running (world st) (context st) (rest ++ outbox st ++ option_list returned)
    | (st, Raise e) => Failed (world st) (context st) e
    end.
Proof. by destruct br. Qed.

Lemma gather_phase n pending received w ctx :
  Context_get ctx "num_conditions" = Ok (VInt (Z.of_nat n)) →
  buffered (events_buffer ctx) TMatchGuidelineResultEvent
    = result_event <$> received →
  n = length received + length pending →
  pending ≠ [] →
  ∃ w' ctx',
    run_schedule ext self (list_to_map step_table) (replicate (length pending) 0)
      (Running w ctx (result_event <$> pending))
    = Running w' ctx' [GenerateCaseSummaryEvent (received ++ pending)]
    ∧ globals ctx' = globals ctx.
Proof.
  revert received w ctx. induction pending as [|br pending IH]; [done|].
  intros received w ctx Hn Hbuf Hlen _.
  destruct (gather_guideline_match_run ext self n received br
              {| world := w; context := ctx; outbox := [] |} Hn Hbuf)
    as (ctx1 & Hglobals & Hrun).
  rewrite fmap_cons. cbn [length replicate]. rewrite run_schedule_cons.
  rewrite sched_step_head, deliver_result_event.
  destruct pending as [|br' pending].
  - rewrite decide_True in Hrun by (simpl in Hlen; lia).
    destruct Hrun as [-> _]. simpl. by eexists _, _.
  - rewrite decide_False in Hrun by (simpl in Hlen; lia).
    rewrite decide_False in Hrun by (simpl in Hlen; lia).
    destruct Hrun as [-> Hbuf']. cbn [world context outbox]. simpl (option_list _).
    rewrite !app_nil_r.
    destruct (IH (received ++ [br]) w ctx1) as (w' & ctx' & Hrun & Hg).
    + unfold Context_get in *. by rewrite Hglobals.
    + done.
    + rewrite length_app. simpl in *. lia.
    + done.
    + exists w', ctx'. rewrite <-app_assoc in Hrun. simpl in Hglobals.
      split; [done|congruence].
Qed.

(** X13. A run completes when every capability answers and there is
    something to match. Start without caches, with an uploaded file that
    parses to [p]; let the bundle prediction answer with the bundles [cb],
    at least one, let the query and recommendation predictions answer with
    instances and every retrieval answer for each bundle, and let the case
    summary prediction answer. Routing the events in the order they were
    queued, [run_workflow_async] returns after [2 * n + 5] deliveries for
    [n] bundles. The response is the case-summary capability's answer on the
    gathered results, which pair the bundles, in bundle order, with a
    recommendation predicted for each. *)
Theorem fifo_run_returns_summary w patient_json_path p cb :
  files w !! patient_info_path self = None →
  files w !! condition_info_path self = None →
  parse_synthea_patient (dateutil_parse ext) (json_load ext) (files w)
    patient_json_path true = Ok p →
  predict_condition_bundles ext (dump_patient_info ext p) = Ok (InstanceOf cb) →
  bundles cb ≠ [] →
  Forall (matchable ext p) (bundles cb) →
  (∀ info, ∃ answer, predict_case_summary ext (demographic_str p) info = Ok answer) →
  ∃ log_events results answer,
    run_workflow_async ext self (replicate (2 * length (bundles cb) + 5) 0)
      w patient_json_path = Returns log_events answer
    ∧ results.*1 = bundles cb
    ∧ Forall (recommended ext p) results
    ∧ predict_case_summary ext (demographic_str p)
        (join (newline +:+ newline)
           ((λ br, generate_condition_guideline_str ext br.1 br.2) <$> results))
      = Ok answer.
Proof.
  intros Hpi Hci Hparse Hcb Hne Hall Hsum.
  unfold run_workflow_async. rewrite construct_step_table.
  replace (2 * length (bundles cb) + 5)
    with (1 + (1 + (1 + (length (bundles cb) + (length (bundles cb) + (1 + 1))))))
    by lia.
  rewrite !replicate_add. cbn [replicate]. rewrite !run_schedule_app.
  (* parse_patient_info *)
  unfold start. rewrite run_schedule_head. unfold deliver.
  rewrite (registry_of_event (StartEvent patient_json_path)).
  cbv beta iota delta [handler].
  destruct (parse_patient_info_fresh patient_json_path
              {| world := w; context := new_context; outbox := [] |} p Hpi Hparse)
    as (st1 & -> & Hf1 & Hg1 & Hb1 & Ho1).
  rewrite Ho1. simpl (option_list _). cbn [outbox app].
  (* create_condition_bundles *)
  rewrite run_schedule_head. unfold deliver.
  rewrite (registry_of_event (PatientInfoEvent p)).
  cbv beta iota delta [handler].
  destruct (create_condition_bundles_fresh p
              {| world := world st1; context := context st1; outbox := [] |} cb)
    as (st2 & -> & Hc2 & Ho2); [|done|].
  { simpl. rewrite Hf1, lookup_insert_ne; [done|].
    unfold patient_info_path, condition_info_path. by intros ?%append_inj_r. }
  rewrite Ho2, Hc2. simpl (option_list _). cbn [outbox context app].
  (* dispatch_guideline_match *)
  rewrite run_schedule_head. unfold deliver.
  rewrite (registry_of_event (ConditionBundleEvent cb)).
  cbv beta iota delta [handler]. rewrite dispatch_guideline_match_spec.
  simpl (option_list _). cbn [world context outbox app].
  rewrite app_nil_r.
  (* handle_guideline_match, once per bundle *)
  rewrite <-(app_nil_r (MatchGuidelineEvent <$> bundles cb)).
  destruct (handle_phase p (bundles cb) [] (world st2)
              (Context_set (context st1) "num_conditions"
                 (VInt (Z.of_nat (length (bundles cb))))))
    as (w3 & ctx3 & results & -> & Hres & Hrecs & Hg3 & Hb3); [|done|].
  { unfold Context_get, Context_set. simpl.
    rewrite lookup_insert_ne by done. by rewrite Hg1, lookup_insert_eq. }
  cbn [app].
  (* gather_guideline_match, once per result *)
  assert (length results = length (bundles cb)) as Hlen.
  { by rewrite <-Hres, length_fmap. }
  rewrite <-Hlen.
  destruct (gather_phase (length results) results [] w3 ctx3)
    as (w4 & ctx4 & -> & Hg4); [| |done| |].
  { unfold Context_get. rewrite Hg3. simpl. rewrite lookup_insert_eq.
    by rewrite Hlen. }
  { rewrite Hb3. simpl. by rewrite Hb1. }
  { intros ->. destruct (bundles cb); [done|discriminate]. }
  cbn [app].
  (* generate_output *)
  destruct (Hsum (join (newline +:+ newline)
                    ((λ br, generate_condition_guideline_str ext br.1 br.2)
                       <$> results))) as [answer Hanswer].
  rewrite run_schedule_head. unfold deliver.
  rewrite (registry_of_event (GenerateCaseSummaryEvent results)).
  cbv beta iota delta [handler].
  destruct (generate_output_total results
              {| world := w4; context := ctx4; outbox := [] |} p answer)
    as (st5 & -> & Ho5); [|done|].
  { unfold Context_get. simpl. rewrite Hg4, Hg3. simpl.
    rewrite lookup_insert_ne by done. by rewrite Hg1, lookup_insert_eq. }
  rewrite Ho5. simpl (option_list _). cbn [outbox app].
  (* the stop event *)
  rewrite run_schedule_head. cbn [deliver outcome].
  by eexists _, results, answer.
Qed.

End fifo.

(** ** [render] and [display_workflow] *)



(** X15. [display_workflow] shows the cached patient. With the patient
    cache in place, what ends up on the page (the log lines and the rendered
    summary, or the error) is the same whatever file is uploaded, under
    every schedule. *)
Theorem display_workflow_shows_cached_patient ext sched w upload1 upload2 :
  is_Some (files w !! patient_info_path workflow) →
  display_workflow ext sched w upload1 = display_workflow ext sched w upload2.
Proof.
  intros Hcached. unfold display_workflow.
  rewrite (run_workflow_async_same_but ext workflow uploaded_path
             ltac:(done) ltac:(done) sched
             (save_upload w upload1) (save_upload w upload2)
             uploaded_path uploaded_path); [done| |].
  - unfold same_but. simpl. by rewrite !delete_insert_eq.
  - simpl. rewrite lookup_insert_is_Some'. by right.
Qed.

(** ** The properties above on concrete inputs *)

Lemma failed_parse_writes_no_cache_witness :
  ∃ st',
    run_step (parse_patient_info Demo.ext workflow "none.json") Examples.fresh
    = (st', Raise (ValueError "No Patient resource found in the provided file."))
    ∧ world st' = world Examples.fresh
    ∧ globals (context st') = globals (context Examples.fresh)
    ∧ outbox st' = outbox Examples.fresh.
Proof.
  apply (failed_parse_writes_no_cache Demo.ext workflow "none.json" Examples.fresh).
  - reflexivity.
  - vm_compute. reflexivity.
Defined.

Lemma unreadable_patient_cache_is_final_witness :
  ∃ st',
    run_step (parse_patient_info Demo.ext workflow "full.json")
      {| world := Examples.garbled_world; context := new_context; outbox := [] |}
    = (st', Raise JSONDecodeError)
    ∧ world st' = Examples.garbled_world
    ∧ globals (context st') = ∅
    ∧ outbox st' = [].
Proof.
  apply (unreadable_patient_cache_is_final Demo.ext workflow "full.json"
           {| world := Examples.garbled_world; context := new_context; outbox := [] |}
           "<html>").
  - reflexivity.
  - reflexivity.
Defined.

Lemma refused_bundles_poison_cache_witness :
  ∃ st',
    run_step (create_condition_bundles_step Examples.ext_refusing workflow Demo.alice)
      Examples.fresh
    = (st', Raise AttributeError)
    ∧ files (world st')
      = <[condition_info_path workflow := ""]> (files (world Examples.fresh))
    ∧ llm_calls (world st') = S (llm_calls (world Examples.fresh))
    ∧ ∀ patient_info' ctx outbox,
        run_step
          (create_condition_bundles_step Examples.ext_refusing workflow patient_info')
          {| world := world st'; context := ctx; outbox := outbox |}
        = ({| world := world st'; context := ctx; outbox := outbox |},
           Raise JSONDecodeError).
Proof.
  apply (refused_bundles_poison_cache Examples.ext_refusing workflow Demo.alice
           Examples.fresh "I cannot help with that.").
  - reflexivity.
  - reflexivity.
  - reflexivity.
Defined.

Lemma handle_guideline_match_total_witness :
  ∃ st' d,
    deduplicated Demo.ext ["asthma control"; "inhaler use"] d
    ∧ effect 2 2
        {| world := Demo.fresh_world;
           context := Context_set new_context "patient_info" (VPatientInfo Demo.alice);
           outbox := [] |} st'
    ∧ run_step (handle_guideline_match Demo.ext_failing workflow Demo.eczema_bundle)
        {| world := Demo.fresh_world;
           context := Context_set new_context "patient_info" (VPatientInfo Demo.alice);
           outbox := [] |}
      = (st', Raise (CapabilityError "quota exceeded")).
Proof.
  apply (handle_guideline_match_total Demo.ext_failing workflow Demo.eczema_bundle
           {| world := Demo.fresh_world;
              context := Context_set new_context "patient_info" (VPatientInfo Demo.alice);
              outbox := [] |}
           Demo.alice {| queries := ["asthma control"; "inhaler use"] |}).
  - reflexivity.
  - reflexivity.
  - intros query _. simpl. destruct (String.eqb query "asthma control"); eauto.
Defined.

Lemma recommendations_saved_on_release_witness :
  let results := [(Demo.eczema_bundle, Demo.advice "Atopic dermatitis");
                  (Demo.asthma_bundle, Demo.advice "Asthma")] in
  let st' := (arrive Demo.ext workflow (result_event <$> results)
                Examples.awaiting_two).1 in
  (length results < 2 → world st' = world Examples.awaiting_two)
  ∧ (length results = 2 → 2 ≠ 0 →
     files (world st')
     = <[recs_path workflow :=
           String.concat ""
             ((λ br, dump_recommendation Demo.ext br.2 +:+ newline) <$> results)]>
         (files (world Examples.awaiting_two))
     ∧ llm_calls (world st') = llm_calls (world Examples.awaiting_two)
     ∧ retriever_calls (world st') = retriever_calls (world Examples.awaiting_two)).
Proof.
  apply (recommendations_saved_on_release Demo.ext workflow 2).
  - reflexivity.
  - reflexivity.
Defined.

Lemma cached_patient_hides_upload_witness :
  run_workflow_async Demo.ext workflow (Demo.fifo 7)
    (save_upload Demo.cached_world "<full bundle>") "uploaded_patient.json"
  = run_workflow_async Demo.ext workflow (Demo.fifo 7)
      (save_upload Demo.cached_world "<two patients>") "elsewhere.json".
Proof.
  apply (cached_patient_hides_upload Demo.ext workflow uploaded_path).
  - discriminate.
  - discriminate.
  - unfold same_but. simpl. by rewrite !delete_insert_eq.
  - vm_compute. eauto.
Defined.

Lemma completed_run_leaves_files_witness :
  ∃ w' ctx result,
    run_schedule Demo.ext workflow (list_to_map step_table) (Demo.fifo 9)
      (start Demo.fresh_world "full.json") = Completed w' ctx result
    ∧ is_Some (files w' !! patient_info_path workflow)
    ∧ is_Some (files w' !! condition_info_path workflow)
    ∧ is_Some (files w' !! recs_path workflow).
Proof.
  eexists _, _, _. split; [vm_compute; reflexivity|].
  eapply (completed_run_leaves_files Demo.ext workflow (Demo.fifo 9)
            Demo.fresh_world "full.json").
  vm_compute. reflexivity.
Defined.

Lemma display_workflow_shows_cached_patient_witness :
  display_workflow Demo.ext (Demo.fifo 7) Demo.cached_world "<full bundle>"
  = display_workflow Demo.ext (Demo.fifo 7) Demo.cached_world "<two patients>"
  ∧ ∃ written,
      display_workflow Demo.ext (Demo.fifo 7) Demo.cached_world "<two patients>"
      = Shown written
      ∧ last written = Some (render Demo.case_summary).
Proof.
  split.
  - apply (display_workflow_shows_cached_patient Demo.ext (Demo.fifo 7)
             Demo.cached_world).
    vm_compute. eauto.
  - eexists. split; [vm_compute; reflexivity|]. vm_compute. reflexivity.
Defined.

Lemma fifo_run_returns_summary_witness :
  ∃ p cb,
    parse_synthea_patient (dateutil_parse Demo.ext) (json_load Demo.ext)
      (files Demo.fresh_world) "full.json" true = Ok p
    ∧ predict_condition_bundles Demo.ext (dump_patient_info Demo.ext p)
      = Ok (InstanceOf cb)
    ∧ length (bundles cb) = 2
    ∧ ∃ log_events results answer,
        run_workflow_async Demo.ext workflow (replicate (2 * length (bundles cb) + 5) 0)
          Demo.fresh_world "full.json" = Returns log_events answer
        ∧ results.*1 = bundles cb
        ∧ Forall (recommended Demo.ext p) results
        ∧ predict_case_summary Demo.ext (demographic_str p)
            (join (newline +:+ newline)
               ((λ br, generate_condition_guideline_str Demo.ext br.1 br.2)
                  <$> results))
          = Ok answer.
Proof.
  eexists _, _. split; [vm_compute; reflexivity|].
  split; [reflexivity|]. split; [reflexivity|].
  apply (fifo_run_returns_summary Demo.ext workflow Demo.fresh_world "full.json").
  - reflexivity.
  - reflexivity.
  - vm_compute. reflexivity.
  - reflexivity.
  - discriminate.
  - repeat constructor.
    all: eexists; split; [reflexivity|]; split.
    all: try (intros query _; simpl; destruct (String.eqb query "asthma control");
              eauto).
    all: intros text; eexists; reflexivity.
  - intros info. eexists. reflexivity.
Defined.
